(** * ScratchIt: the pointer-to-paint pipeline and the reveal test

    A shallow embedding of [src/js/ScratchIt.js].  The widget keeps its
    state in the variables of one closure; here they are the fields of one
    record, threaded through a state-and-exception monad.  Calls into the
    browser (canvas reads and writes, event cancellation, the user's
    callback) are recorded in a trace of effects.

    JavaScript numbers are kept abstract behind the interface [Number], so
    that every definition below is the source's text, and what is proved
    of the control flow alone is proved once.  The arithmetic of the
    program is [Binary64.float_Number], IEEE-754 binary64: it computes,
    the concrete runs below are runs in it, and every fact that depends
    on the value of a computed number is proved of it. *)

From Stdlib Require Import ZArith List Bool String Lia.
From Stdlib Require Import Floats.
From Stdlib Require Uint63.
Import ListNotations.


(* ================================================================= *)
(** ** JavaScript numbers *)

(** The operations of the Number type that the source uses.  [ltb] and
    [leb] are [<] and [<=]; the source's [a > b] and [a >= b] are, as in
    the language's definition, [b < a] and [b <= a]. *)
Class Number (num : Type) : Type := {
  of_Z : Z -> num;
  NaN : num;
  add : num -> num -> num;
  sub : num -> num -> num;
  mul : num -> num -> num;
  div : num -> num -> num;
  sqrt : num -> num;
  ceil : num -> num;
  round : num -> num;
  ltb : num -> num -> bool;
  leb : num -> num -> bool;
  eqb : num -> num -> bool;
  isNaN : num -> bool
}.

Definition gtb {num} `{Number num} (a b : num) : bool := ltb b a.
Definition geb {num} `{Number num} (a b : num) : bool := leb b a.

(** What every comparison does with NaN: it is false. *)
Class NumberNaN (num : Type) `{Number num} : Prop := {
  isNaN_NaN : isNaN NaN = true;
  ltb_NaN_l : forall a b, isNaN a = true -> ltb a b = false;
  ltb_NaN_r : forall a b, isNaN b = true -> ltb a b = false;
  leb_NaN_l : forall a b, isNaN a = true -> leb a b = false;
  leb_NaN_r : forall a b, isNaN b = true -> leb a b = false
}.

(* ----------------------------------------------------------------- *)
(** *** IEEE-754 binary64 *)

Module Binary64.

Local Open Scope float_scope.

Definition two52 : float := Eval vm_compute in of_uint63 (Uint63.of_Z 4503599627370496).

(** [Math.floor], [Math.ceil] and [Math.round] return a zero with the
    sign of their argument. *)
Definition keep_sign (a r : float) : float :=
  if r =? 0 then (if get_sign a then -0 else 0) else r.

(** Below 2^52 in magnitude, adding and subtracting 2^52 rounds to an
    integer; from 2^52 on (and for NaN and the infinities) every value is
    already its own floor. *)
Definition floor (a : float) : float :=
  if abs a <? two52 then
    let t := (abs a + two52) - two52 in
    keep_sign a
      (if 0 <=? a then (if a <? t then t - 1 else t)
       else - (if t <? abs a then t + 1 else t))
  else a.

Definition ceil (a : float) : float := - floor (- a).

(** [Math.round]: the nearest integer, ties toward +infinity. *)
Definition round (a : float) : float :=
  let r := floor a in
  keep_sign a (if 0.5 <=? a - r then r + 1 else r).

(** Integers enter the arithmetic exactly up to 2^53 in magnitude (canvas
    sizes, pixel counts and loop counters are far below). *)
Definition of_Z (z : Z) : float :=
  match z with
  | Z0 => 0
  | Zpos _ => of_uint63 (Uint63.of_Z z)
  | Zneg p => - of_uint63 (Uint63.of_Z (Zpos p))
  end.

#[global] Instance float_Number : Number float :=
  Build_Number float of_Z nan PrimFloat.add PrimFloat.sub PrimFloat.mul PrimFloat.div
    PrimFloat.sqrt ceil round PrimFloat.ltb PrimFloat.leb PrimFloat.eqb
    PrimFloat.is_nan.

End Binary64.


(* ================================================================= *)
(** ** The data of the widget *)

(** A canvas: its size and the bytes of its bitmap, four per pixel (red,
    green, blue, alpha), row by row, as [getImageData] returns them. *)
Record Canvas : Type := {
  width : Z;
  height : Z;
  data : list Z
}.

Definition canvas_wf (c : Canvas) : Prop :=
  (0 <= width c)%Z /\ (0 <= height c)%Z /\
  Z.of_nat (List.length (data c)) = (4 * (width c * height c))%Z.

(** A function value: the [function(){}] the constructor defaults the
    callback to, or a function of the caller. *)
Inductive Fn : Type :=
| NoopFn
| UserFn (id : nat).

Module Touch.
Record t {num : Type} : Type := { clientX : num; clientY : num }.
Arguments t : clear implicits.
End Touch.

Inductive TypeOf : Type :=
| TUndefined | TObject | TBoolean | TNumber | TString | TFunction.

Definition TypeOf_eqb (a b : TypeOf) : bool :=
  match a, b with
  | TUndefined, TUndefined | TObject, TObject | TBoolean, TBoolean
  | TNumber, TNumber | TString, TString | TFunction, TFunction => true
  | _, _ => false
  end.

Section Widget.

Context {num : Type} `{Number num}.

(** The part of [ToNumber] that reads a string as a numeric literal is the
    engine's; the widget is read over any such function. *)
Variable StringToNumber : string -> num.

(** [overlayCtx.drawImage(brush, dx, dy)] under the composite operation
    ['destination-out'] that [onCanvasLoaded] sets, for a brush that is
    not empty: the browser's, taken as given.  It returns the overlay
    after the stamp. *)
Variable drawImage : Canvas -> Canvas -> num -> num -> Canvas.

Record Point : Type := { x : num; y : num }.

(** The values a caller can pass to the constructor.  An object is given
    by what [isDomElement] asks of it. *)
Inductive JSValue : Type :=
| VUndefined
| VNull
| VBool (b : bool)
| VNumber (n : num)
| VString (s : string)
| VFunction (f : Fn)
| VObject (instanceofHTMLElement : bool) (nodeType nodeName : JSValue).

Definition typeof (v : JSValue) : TypeOf :=
  match v with
  | VUndefined => TUndefined
  | VNull => TObject
  | VBool _ => TBoolean
  | VNumber _ => TNumber
  | VString _ => TString
  | VFunction _ => TFunction
  | VObject _ _ _ => TObject
  end.

Definition ToBoolean (v : JSValue) : bool :=
  match v with
  | VUndefined | VNull => false
  | VBool b => b
  | VNumber n => negb (eqb n (of_Z 0) || isNaN n)
  | VString s => negb (String.eqb s EmptyString)
  | VFunction _ | VObject _ _ _ => true
  end.

(** [ToNumber]; an object is taken to have the default conversion, whose
    string is no numeric literal. *)
Definition ToNumber (v : JSValue) : num :=
  match v with
  | VUndefined => NaN
  | VNull => of_Z 0
  | VBool b => if b then of_Z 1 else of_Z 0
  | VNumber n => n
  | VString s => StringToNumber s
  | VFunction _ | VObject _ _ _ => NaN
  end.

(** A pointer, mouse or touch event, by the properties the handlers read.
    A numeric property that is absent reads as [undefined], which every
    use below turns into NaN. *)
Record Event : Type := {
  targetTouches : option (list (Touch.t num));
  touches : option (list (Touch.t num));
  clientX : num;
  clientY : num;
  offsetX : option num;        (* [Some] when [typeof event.offsetX === 'number'] *)
  offsetY : num;
  originalEvent_layerX : bool  (* [event.originalEvent] with a numeric [layerX] *)
}.

(** What the handlers read from the document. *)
Record Dom : Type := {
  HTMLElement_is_object : bool;   (* [typeof HTMLElement === 'object'] *)
  parentEl_rect_width : num;      (* [parentEl.getBoundingClientRect().width] *)
  overlay_rect_left : num;        (* [overlayCanvas.getBoundingClientRect()] *)
  overlay_rect_top : num
}.

(** The calls into the browser that the widget makes. *)
Inductive Effect : Type :=
| CancelEvent
| GetImageData (sw sh : Z)
| DrawImage (dx dy : num)
| Invoke (f : Fn) (args : list JSValue)
| RequestAnimationFrame
| LoadImage (url : string)
| AppendChild
| AddEventListeners
| ConsoleError (msg : string).

(** The variables of the closure, followed by the browser's side: the
    document, the image loads under way, whether the listeners are
    registered, whether a frame is requested, and the calls made so far. *)
Record State : Type := {
  parentEl : JSValue;
  overlayCanvas : option Canvas;   (* [None]: [undefined], or [false] after a failed load *)
  brushCanvas : option Canvas;
  overlayLoaded : bool;
  brushLoaded : bool;
  isPointerDown : bool;
  pointerOrigin : Point;
  offsetOrigin : Point;
  scale : num;
  paintQueue : list Point;
  lastPoint : option Point;
  minPointDist : num;
  isRevealed : bool;
  revealThreshold : num;           (* [undefined] until constructed: NaN in its one use *)
  revealCallback : JSValue;
  dom : Dom;
  overlayPending : bool;
  brushPending : bool;
  listening : bool;
  animating : bool;
  trace : list Effect
}.

Definition set_parentEl (v : JSValue) (s : State) : State :=
  Build_State v (overlayCanvas s) (brushCanvas s) (overlayLoaded s)
    (brushLoaded s) (isPointerDown s) (pointerOrigin s) (offsetOrigin s)
    (scale s) (paintQueue s) (lastPoint s) (minPointDist s) (isRevealed s)
    (revealThreshold s) (revealCallback s) (dom s) (overlayPending s)
    (brushPending s) (listening s) (animating s) (trace s).
Definition set_overlayCanvas (v : option Canvas) (s : State) : State :=
  Build_State (parentEl s) v (brushCanvas s) (overlayLoaded s)
    (brushLoaded s) (isPointerDown s) (pointerOrigin s) (offsetOrigin s)
    (scale s) (paintQueue s) (lastPoint s) (minPointDist s) (isRevealed s)
    (revealThreshold s) (revealCallback s) (dom s) (overlayPending s)
    (brushPending s) (listening s) (animating s) (trace s).
Definition set_brushCanvas (v : option Canvas) (s : State) : State :=
  Build_State (parentEl s) (overlayCanvas s) v (overlayLoaded s)
    (brushLoaded s) (isPointerDown s) (pointerOrigin s) (offsetOrigin s)
    (scale s) (paintQueue s) (lastPoint s) (minPointDist s) (isRevealed s)
    (revealThreshold s) (revealCallback s) (dom s) (overlayPending s)
    (brushPending s) (listening s) (animating s) (trace s).
Definition set_overlayLoaded (v : bool) (s : State) : State :=
  Build_State (parentEl s) (overlayCanvas s) (brushCanvas s) v
    (brushLoaded s) (isPointerDown s) (pointerOrigin s) (offsetOrigin s)
    (scale s) (paintQueue s) (lastPoint s) (minPointDist s) (isRevealed s)
    (revealThreshold s) (revealCallback s) (dom s) (overlayPending s)
    (brushPending s) (listening s) (animating s) (trace s).
Definition set_brushLoaded (v : bool) (s : State) : State :=
  Build_State (parentEl s) (overlayCanvas s) (brushCanvas s)
    (overlayLoaded s) v (isPointerDown s) (pointerOrigin s) (offsetOrigin
    s) (scale s) (paintQueue s) (lastPoint s) (minPointDist s) (isRevealed
    s) (revealThreshold s) (revealCallback s) (dom s) (overlayPending s)
    (brushPending s) (listening s) (animating s) (trace s).
Definition set_isPointerDown (v : bool) (s : State) : State :=
  Build_State (parentEl s) (overlayCanvas s) (brushCanvas s)
    (overlayLoaded s) (brushLoaded s) v (pointerOrigin s) (offsetOrigin s)
    (scale s) (paintQueue s) (lastPoint s) (minPointDist s) (isRevealed s)
    (revealThreshold s) (revealCallback s) (dom s) (overlayPending s)
    (brushPending s) (listening s) (animating s) (trace s).
Definition set_pointerOrigin (v : Point) (s : State) : State :=
  Build_State (parentEl s) (overlayCanvas s) (brushCanvas s)
    (overlayLoaded s) (brushLoaded s) (isPointerDown s) v (offsetOrigin s)
    (scale s) (paintQueue s) (lastPoint s) (minPointDist s) (isRevealed s)
    (revealThreshold s) (revealCallback s) (dom s) (overlayPending s)
    (brushPending s) (listening s) (animating s) (trace s).
Definition set_offsetOrigin (v : Point) (s : State) : State :=
  Build_State (parentEl s) (overlayCanvas s) (brushCanvas s)
    (overlayLoaded s) (brushLoaded s) (isPointerDown s) (pointerOrigin s)
    v (scale s) (paintQueue s) (lastPoint s) (minPointDist s) (isRevealed
    s) (revealThreshold s) (revealCallback s) (dom s) (overlayPending s)
    (brushPending s) (listening s) (animating s) (trace s).
Definition set_scale (v : num) (s : State) : State :=
  Build_State (parentEl s) (overlayCanvas s) (brushCanvas s)
    (overlayLoaded s) (brushLoaded s) (isPointerDown s) (pointerOrigin s)
    (offsetOrigin s) v (paintQueue s) (lastPoint s) (minPointDist s)
    (isRevealed s) (revealThreshold s) (revealCallback s) (dom s)
    (overlayPending s) (brushPending s) (listening s) (animating s) (trace
    s).
Definition set_paintQueue (v : list Point) (s : State) : State :=
  Build_State (parentEl s) (overlayCanvas s) (brushCanvas s)
    (overlayLoaded s) (brushLoaded s) (isPointerDown s) (pointerOrigin s)
    (offsetOrigin s) (scale s) v (lastPoint s) (minPointDist s)
    (isRevealed s) (revealThreshold s) (revealCallback s) (dom s)
    (overlayPending s) (brushPending s) (listening s) (animating s) (trace
    s).
Definition set_lastPoint (v : option Point) (s : State) : State :=
  Build_State (parentEl s) (overlayCanvas s) (brushCanvas s)
    (overlayLoaded s) (brushLoaded s) (isPointerDown s) (pointerOrigin s)
    (offsetOrigin s) (scale s) (paintQueue s) v (minPointDist s)
    (isRevealed s) (revealThreshold s) (revealCallback s) (dom s)
    (overlayPending s) (brushPending s) (listening s) (animating s) (trace
    s).
Definition set_minPointDist (v : num) (s : State) : State :=
  Build_State (parentEl s) (overlayCanvas s) (brushCanvas s)
    (overlayLoaded s) (brushLoaded s) (isPointerDown s) (pointerOrigin s)
    (offsetOrigin s) (scale s) (paintQueue s) (lastPoint s) v (isRevealed
    s) (revealThreshold s) (revealCallback s) (dom s) (overlayPending s)
    (brushPending s) (listening s) (animating s) (trace s).
Definition set_isRevealed (v : bool) (s : State) : State :=
  Build_State (parentEl s) (overlayCanvas s) (brushCanvas s)
    (overlayLoaded s) (brushLoaded s) (isPointerDown s) (pointerOrigin s)
    (offsetOrigin s) (scale s) (paintQueue s) (lastPoint s) (minPointDist
    s) v (revealThreshold s) (revealCallback s) (dom s) (overlayPending s)
    (brushPending s) (listening s) (animating s) (trace s).
Definition set_revealThreshold (v : num) (s : State) : State :=
  Build_State (parentEl s) (overlayCanvas s) (brushCanvas s)
    (overlayLoaded s) (brushLoaded s) (isPointerDown s) (pointerOrigin s)
    (offsetOrigin s) (scale s) (paintQueue s) (lastPoint s) (minPointDist
    s) (isRevealed s) v (revealCallback s) (dom s) (overlayPending s)
    (brushPending s) (listening s) (animating s) (trace s).
Definition set_revealCallback (v : JSValue) (s : State) : State :=
  Build_State (parentEl s) (overlayCanvas s) (brushCanvas s)
    (overlayLoaded s) (brushLoaded s) (isPointerDown s) (pointerOrigin s)
    (offsetOrigin s) (scale s) (paintQueue s) (lastPoint s) (minPointDist
    s) (isRevealed s) (revealThreshold s) v (dom s) (overlayPending s)
    (brushPending s) (listening s) (animating s) (trace s).
Definition set_dom (v : Dom) (s : State) : State :=
  Build_State (parentEl s) (overlayCanvas s) (brushCanvas s)
    (overlayLoaded s) (brushLoaded s) (isPointerDown s) (pointerOrigin s)
    (offsetOrigin s) (scale s) (paintQueue s) (lastPoint s) (minPointDist
    s) (isRevealed s) (revealThreshold s) (revealCallback s) v
    (overlayPending s) (brushPending s) (listening s) (animating s) (trace
    s).
Definition set_overlayPending (v : bool) (s : State) : State :=
  Build_State (parentEl s) (overlayCanvas s) (brushCanvas s)
    (overlayLoaded s) (brushLoaded s) (isPointerDown s) (pointerOrigin s)
    (offsetOrigin s) (scale s) (paintQueue s) (lastPoint s) (minPointDist
    s) (isRevealed s) (revealThreshold s) (revealCallback s) (dom s) v
    (brushPending s) (listening s) (animating s) (trace s).
Definition set_brushPending (v : bool) (s : State) : State :=
  Build_State (parentEl s) (overlayCanvas s) (brushCanvas s)
    (overlayLoaded s) (brushLoaded s) (isPointerDown s) (pointerOrigin s)
    (offsetOrigin s) (scale s) (paintQueue s) (lastPoint s) (minPointDist
    s) (isRevealed s) (revealThreshold s) (revealCallback s) (dom s)
    (overlayPending s) v (listening s) (animating s) (trace s).
Definition set_listening (v : bool) (s : State) : State :=
  Build_State (parentEl s) (overlayCanvas s) (brushCanvas s)
    (overlayLoaded s) (brushLoaded s) (isPointerDown s) (pointerOrigin s)
    (offsetOrigin s) (scale s) (paintQueue s) (lastPoint s) (minPointDist
    s) (isRevealed s) (revealThreshold s) (revealCallback s) (dom s)
    (overlayPending s) (brushPending s) v (animating s) (trace s).
Definition set_animating (v : bool) (s : State) : State :=
  Build_State (parentEl s) (overlayCanvas s) (brushCanvas s)
    (overlayLoaded s) (brushLoaded s) (isPointerDown s) (pointerOrigin s)
    (offsetOrigin s) (scale s) (paintQueue s) (lastPoint s) (minPointDist
    s) (isRevealed s) (revealThreshold s) (revealCallback s) (dom s)
    (overlayPending s) (brushPending s) (listening s) v (trace s).
Definition set_trace (v : list Effect) (s : State) : State :=
  Build_State (parentEl s) (overlayCanvas s) (brushCanvas s)
    (overlayLoaded s) (brushLoaded s) (isPointerDown s) (pointerOrigin s)
    (offsetOrigin s) (scale s) (paintQueue s) (lastPoint s) (minPointDist
    s) (isRevealed s) (revealThreshold s) (revealCallback s) (dom s)
    (overlayPending s) (brushPending s) (listening s) (animating s) v.
Definition origin : Point := {| x := of_Z 0; y := of_Z 0 |}.

(** The closure as [ScratchIt] enters it. *)
Definition initial (d : Dom) : State := {|
  parentEl := VUndefined;
  overlayCanvas := None;
  brushCanvas := None;
  overlayLoaded := false;
  brushLoaded := false;
  isPointerDown := false;
  pointerOrigin := origin;
  offsetOrigin := origin;
  scale := of_Z 1;
  paintQueue := [];
  lastPoint := None;
  minPointDist := of_Z 10;
  isRevealed := false;
  revealThreshold := NaN;
  revealCallback := VUndefined;
  dom := d;
  overlayPending := false;
  brushPending := false;
  listening := false;
  animating := false;
  trace := []
|}.

(* --------------------------------------------------------------- *)
(** *** The monad: state, exceptions, and loops that may not end *)

Inductive Outcome (A : Type) : Type :=
| Return (a : A)
| Throw (msg : string)
| Diverge.
Arguments Return {A} a.
Arguments Throw {A} msg.
Arguments Diverge {A}.

Definition JS (A : Type) : Type := State -> Outcome A * State.

(** The functions of the caller, by how a call of them ends: function
    [id], called with [args] when the closure is in state [s], returns,
    throws or does not return.  Nothing else of them is seen from inside
    the widget, whose variables they cannot reach. *)
Variable userFn : nat -> list JSValue -> State -> Outcome unit.

Definition ret {A} (a : A) : JS A := fun s => (Return a, s).

Definition bind {A B} (c : JS A) (k : A -> JS B) : JS B :=
  fun s =>
    match c s with
    | (Return a, s') => k a s'
    | (Throw msg, s') => (Throw msg, s')
    | (Diverge, s') => (Diverge, s')
    end.

Definition throw {A} (msg : string) : JS A := fun s => (Throw msg, s).
Definition diverge {A} : JS A := fun s => (Diverge, s).
Definition gets {A} (f : State -> A) : JS A := fun s => (Return (f s), s).
Definition modify (f : State -> State) : JS unit := fun s => (Return tt, f s).
Definition emit (e : Effect) : JS unit :=
  modify (fun s => set_trace (trace s ++ [e]) s).

Notation "v <- c ;; k" := (bind c (fun v => k))
  (at level 61, c at next level, right associativity).
Notation "c ;; k" := (bind c (fun _ => k))
  (at level 61, right associativity).

Local Open Scope string_scope.
Local Open Scope Z_scope.

(* --------------------------------------------------------------- *)
(** *** construct, isDomElement, getCanvasFromImage, onCanvasLoaded *)

Definition isDomElement (d : Dom) (el : JSValue) : bool :=
  if HTMLElement_is_object d then
    match el with VObject inst _ _ => inst | _ => false end
  else
    ToBoolean el
    && TypeOf_eqb (typeof el) TObject
    && match el with
       | VObject _ nodeType nodeName =>
           match nodeType with
           | VNumber n => eqb n (of_Z 1)
           | _ => false
           end
           && TypeOf_eqb (typeof nodeName) TString
       | _ => false
       end.

Definition onResize : JS unit :=
  d <- gets dom ;;
  oc <- gets overlayCanvas ;;
  match oc with
  | None => throw "TypeError"
  | Some overlay =>
      modify (set_scale
        (div (of_Z 1) (div (parentEl_rect_width d) (of_Z (width overlay)))))
  end.

Definition onCanvasLoaded : JS unit :=
  ol <- gets overlayLoaded ;;
  bl <- gets brushLoaded ;;
  if negb (ol && bl) then ret tt
  else
    oc <- gets overlayCanvas ;;
    bc <- gets brushCanvas ;;
    match oc, bc with
    | Some _, Some brush =>
        emit AppendChild ;;
        modify (set_minPointDist (div (of_Z (width brush)) (of_Z 2))) ;;
        emit AddEventListeners ;;
        modify (set_listening true) ;;
        onResize ;;
        emit RequestAnimationFrame ;;
        modify (set_animating true)
    | _, _ => emit (ConsoleError "Failed to load ScratchIt image")
    end.

Inductive Which : Type := Overlay | Brush.

(** The two callbacks that [construct] hands to [getCanvasFromImage]. *)
Definition onImage (w : Which) (canvas : option Canvas) : JS unit :=
  match w with
  | Overlay =>
      modify (set_overlayLoaded true) ;;
      modify (set_overlayCanvas canvas) ;;
      onCanvasLoaded
  | Brush =>
      modify (set_brushLoaded true) ;;
      modify (set_brushCanvas canvas) ;;
      onCanvasLoaded
  end.

(** A URL that is no string fails at once; otherwise the load starts, and
    its end is an input of the widget ([ImageLoaded] below). *)
Definition getCanvasFromImage (imgUrl : JSValue) (w : Which) : JS unit :=
  match imgUrl with
  | VString url =>
      emit (LoadImage url) ;;
      match w with
      | Overlay => modify (set_overlayPending true)
      | Brush => modify (set_brushPending true)
      end
  | _ => onImage w None
  end.

(** [arguments.length > 3 ? arguments[3] : function(){}] *)
Definition callback_argument (arguments : list JSValue) : JSValue :=
  if (3 <? List.length arguments)%nat then nth 3 arguments VUndefined
  else VFunction NoopFn.

(** [arguments.length > 4 ? arguments[4]*1 : 0] *)
Definition threshold_argument (arguments : list JSValue) : num :=
  if (4 <? List.length arguments)%nat
  then mul (ToNumber (nth 4 arguments VUndefined)) (of_Z 1)
  else of_Z 0.

Definition construct (arguments : list JSValue) : JS unit :=
  let el := nth 0 arguments VUndefined in
  let overlayUrl := nth 1 arguments VUndefined in
  let brushUrl := nth 2 arguments VUndefined in
  modify (set_parentEl el) ;;
  let callback := callback_argument arguments in
  let threshold := threshold_argument arguments in
  parent <- gets parentEl ;;
  d <- gets dom ;;
  if negb (isDomElement d parent) then
    throw "ScratchIt() requires parent element to be a valid DOM Element."
  else if negb (TypeOf_eqb (typeof callback) TFunction) then
    throw "ScratchIt() requires callback to be a function"
  else if ltb threshold (of_Z 0) || gtb threshold (of_Z 100) then
    throw "ScratchIt() requires threshold to be between 0-100"
  else
    modify (set_revealCallback callback) ;;
    modify (set_revealThreshold threshold) ;;
    getCanvasFromImage overlayUrl Overlay ;;
    getCanvasFromImage brushUrl Brush.

(* --------------------------------------------------------------- *)
(** *** draw *)

(** The body of the loop of [draw].  The browser refuses to draw from a
    canvas of width or height zero. *)
Definition stamp (point : Point) : JS unit :=
  oc <- gets overlayCanvas ;;
  bc <- gets brushCanvas ;;
  match oc, bc with
  | Some overlay, Some brush =>
      let dx := sub (x point) (div (of_Z (width brush)) (of_Z 2)) in
      let dy := sub (y point) (div (of_Z (height brush)) (of_Z 2)) in
      if (width brush =? 0) || (height brush =? 0) then
        throw "InvalidStateError"
      else
        emit (DrawImage dx dy) ;;
        modify (set_overlayCanvas (Some (drawImage overlay brush dx dy)))
  | _, _ => throw "TypeError"
  end.

(** [while(paintQueue.length){ point = paintQueue.shift(); ... }]: the
    body enqueues nothing, so the loop runs once per queued point. *)
Fixpoint drain (queue : list Point) : JS unit :=
  match queue with
  | [] => ret tt
  | point :: rest =>
      modify (set_paintQueue rest) ;;
      stamp point ;;
      drain rest
  end.

Definition draw : JS unit :=
  queue <- gets paintQueue ;;
  drain queue ;;
  emit RequestAnimationFrame ;;
  modify (set_animating true).

(* --------------------------------------------------------------- *)
(** *** addPoint *)

Definition push (point : Point) : JS unit :=
  modify (fun s => set_paintQueue (paintQueue s ++ [point]) s).

(** [for(i = 1; i < numSegments; i++)]: the counter is an integer; the
    bound is a number, and the loop need not end (NaN ends it at once,
    +Infinity never).  [fuel] bounds the iterations; running out of it is
    [Diverge]. *)
Fixpoint tween_loop (fuel : nat) (i : Z) (numSegments : num)
         (point : Point) (dx dy : num) : JS unit :=
  if ltb (of_Z i) numSegments then
    match fuel with
    | O => diverge
    | S fuel' =>
        push {| x := round (add (x point) (mul (of_Z i) dx));
                y := round (add (y point) (mul (of_Z i) dy)) |} ;;
        tween_loop fuel' (i + 1) numSegments point dx dy
    end
  else ret tt.

Definition addPoint (fuel : nat) (point : Point) (tween : bool) : JS unit :=
  last <- gets lastPoint ;;
  match tween, last with
  | true, Some lastPoint =>
      minPointDist <- gets minPointDist ;;
      (* calc distance between current and last point added *)
      let dx := sub (x lastPoint) (x point) in
      let dy := sub (y lastPoint) (y point) in
      let dist := sqrt (add (mul dx dx) (mul dy dy)) in
      (* if distance is too large, add points in between *)
      if gtb dist minPointDist then
        let numSegments := ceil (div dist minPointDist) in
        let dx := div dx numSegments in
        let dy := div dy numSegments in
        tween_loop fuel 1 numSegments point dx dy
      else ret tt
  | _, _ => ret tt
  end ;;
  let point := {| x := round (x point); y := round (y point) |} in
  modify (set_lastPoint (Some point)) ;;
  push point.

(* --------------------------------------------------------------- *)
(** *** The pointer handlers *)

Definition cancelEvent : JS unit := emit CancelEvent.

Definition getPointFromEvent (event : Event) : JS Point :=
  match targetTouches event with
  | Some (t :: _) => ret {| x := Touch.clientX t; y := Touch.clientY t |}
  | Some [] => throw "TypeError"
  | None => ret {| x := clientX event; y := clientY event |}
  end.

Definition getOffsetPointFromEvent (event : Event) : JS Point :=
  match offsetX event with
  | Some ox => ret {| x := ox; y := offsetY event |}
  | None =>
      if originalEvent_layerX event then
        (* the source reads [event.oritinalEvent.layerX] *)
        throw "TypeError"
      else
        d <- gets dom ;;
        oc <- gets overlayCanvas ;;
        match oc, touches event with
        | Some _, Some (t :: _) =>
            ret {| x := sub (Touch.clientX t) (overlay_rect_left d);
                   y := sub (Touch.clientY t) (overlay_rect_top d) |}
        | _, _ => throw "TypeError"
        end
  end.

Definition onPointerDown (event : Event) : JS unit :=
  cancelEvent ;;
  modify (set_isPointerDown true) ;;
  p <- getPointFromEvent event ;;
  modify (set_pointerOrigin p) ;;
  o <- getOffsetPointFromEvent event ;;
  modify (set_offsetOrigin o) ;;
  offsetOrigin <- gets offsetOrigin ;;
  scale <- gets scale ;;
  addPoint 0 {| x := mul (x offsetOrigin) scale;
                y := mul (y offsetOrigin) scale |} false.

Definition onPointerMove (fuel : nat) (event : Event) : JS unit :=
  down <- gets isPointerDown ;;
  if negb down then ret tt
  else
    cancelEvent ;;
    pointerPosition <- getPointFromEvent event ;;
    offsetOrigin <- gets offsetOrigin ;;
    pointerOrigin <- gets pointerOrigin ;;
    scale <- gets scale ;;
    addPoint fuel
      {| x := mul (add (x offsetOrigin)
                       (sub (x pointerPosition) (x pointerOrigin))) scale;
         y := mul (add (y offsetOrigin)
                       (sub (y pointerPosition) (y pointerOrigin))) scale |}
      true.

(* --------------------------------------------------------------- *)
(** *** testRevealed and onPointerUp *)

Definition alphaThreshold : Z := 128.

(** [for(i = 0; i < pixels.data.length; i += 4)
      if(pixels.data[i+3] <= alphaThreshold) numVisible++]:
    past the end [pixels.data[i+3]] is [undefined], which compares false. *)
Fixpoint countVisible (pixels : list Z) : Z :=
  match pixels with
  | _ :: _ :: _ :: a :: rest =>
      (if a <=? alphaThreshold then 1 else 0) + countVisible rest
  | _ => 0
  end.

(** [overlayCtx.getImageData(0, 0, sw, sh)]; the browser refuses an empty
    rectangle. *)
Definition getImageData (c : Canvas) : JS (list Z) :=
  if (width c =? 0) || (height c =? 0) then throw "IndexSizeError"
  else emit (GetImageData (width c) (height c)) ;; ret (data c).

(** The body of a function value.  [function(){}] returns; a function of
    the caller ends as the caller wrote it: it returns, throws, or does
    not return. *)
Definition invoke (fn : Fn) (args : list JSValue) : JS unit :=
  fun s =>
    (match fn with
     | NoopFn => Return tt
     | UserFn id => userFn id args s
     end, s).

(** Calling the value [f] with [args]. *)
Definition call (f : JSValue) (args : list JSValue) : JS unit :=
  match f with
  | VFunction fn => emit (Invoke fn args) ;; invoke fn args
  | _ => throw "TypeError"
  end.

Definition testRevealed : JS unit :=
  oc <- gets overlayCanvas ;;
  match oc with
  | None => throw "TypeError"
  | Some overlay =>
      let totalPixels := mul (of_Z (width overlay)) (of_Z (height overlay)) in
      revealed <- gets isRevealed ;;
      if revealed then ret tt
      else
        pixels <- getImageData overlay ;;
        let numVisible := countVisible pixels in
        revealThreshold <- gets revealThreshold ;;
        if geb (mul (div (of_Z numVisible) totalPixels) (of_Z 100))
               revealThreshold
        then
          revealCallback <- gets revealCallback ;;
          call revealCallback [] ;;
          modify (set_isRevealed true)
        else ret tt
  end.

Definition onPointerUp (event : Event) : JS unit :=
  down <- gets isPointerDown ;;
  if negb down then ret tt
  else
    cancelEvent ;;
    modify (set_isPointerDown false) ;;
    modify (set_lastPoint None) ;;
    modify (set_pointerOrigin origin) ;;
    modify (set_offsetOrigin origin) ;;
    testRevealed.

(* --------------------------------------------------------------- *)
(** *** The widget as the browser drives it *)

Inductive Input : Type :=
| ImageLoaded (w : Which) (canvas : option Canvas)
    (* [image.onload] with the canvas drawn from it; [image.onerror]: [None] *)
| PointerDown (event : Event)   (* on the overlay canvas *)
| PointerMove (event : Event)
| PointerUp (event : Event)     (* up, leave or touchend, on the body *)
| AnimationFrame
| Resize                        (* the debounced handler fires *)
| Relayout (d : Dom).           (* the document changes under the widget *)

Definition dispatch (fuel : nat) (i : Input) : JS unit :=
  match i with
  | ImageLoaded Overlay canvas =>
      pending <- gets overlayPending ;;
      if pending then modify (set_overlayPending false) ;; onImage Overlay canvas
      else ret tt
  | ImageLoaded Brush canvas =>
      pending <- gets brushPending ;;
      if pending then modify (set_brushPending false) ;; onImage Brush canvas
      else ret tt
  | PointerDown event =>
      on <- gets listening ;; if on then onPointerDown event else ret tt
  | PointerMove event =>
      on <- gets listening ;; if on then onPointerMove fuel event else ret tt
  | PointerUp event =>
      on <- gets listening ;; if on then onPointerUp event else ret tt
  | AnimationFrame =>
      on <- gets animating ;;
      if on then modify (set_animating false) ;; draw else ret tt
  | Resize =>
      on <- gets listening ;; if on then onResize else ret tt
  | Relayout d => modify (set_dom d)
  end.

(** An exception thrown by a handler is reported and the page goes on; a
    handler that does not return leaves nothing to go on with. *)
Fixpoint run (fuel : nat) (inputs : list Input) (s : State) : State :=
  match inputs with
  | [] => s
  | i :: rest =>
      match dispatch fuel i s with
      | (Diverge, s') => s'
      | (_, s') => run fuel rest s'
      end
  end.

(** [ScratchIt(...)]: the closure is entered and [construct] applied. *)
Definition ScratchIt (d : Dom) (arguments : list JSValue) : Outcome unit * State :=
  construct arguments (initial d).

End Widget.

Arguments Point : clear implicits.
Arguments JSValue : clear implicits.
Arguments Event : clear implicits.
Arguments Dom : clear implicits.
Arguments Effect : clear implicits.
Arguments State : clear implicits.
Arguments Input : clear implicits.
Arguments JS : clear implicits.
Arguments Return {A} a.
Arguments Throw {A} msg.
Arguments Diverge {A}.

(* ================================================================= *)
(** ** Reading the claims *)

Section Reading.

Context {num : Type} `{Number num}.

(** How often the trace calls a function, reads the overlay, stamps it. *)
Definition is_Invoke (e : Effect num) : bool :=
  match e with Invoke _ _ => true | _ => false end.
Definition is_GetImageData (e : Effect num) : bool :=
  match e with GetImageData _ _ => true | _ => false end.
Definition is_DrawImage (e : Effect num) : bool :=
  match e with DrawImage _ _ => true | _ => false end.

Definition invokes (t : list (Effect num)) : nat := List.length (filter is_Invoke t).
Definition scans (t : list (Effect num)) : nat := List.length (filter is_GetImageData t).
Definition draws (t : list (Effect num)) : nat := List.length (filter is_DrawImage t).

(** The point that iteration [i] of the loop of [addPoint] enqueues:
    [i] steps of [(dx, dy)] away from [point], rounded. *)
Definition tween_point (point : Point num) (dx dy : num) (i : Z) : Point num :=
  {| x := round (add (x point) (mul (of_Z i) dx));
     y := round (add (y point) (mul (of_Z i) dy)) |}.

(** The interior points in the order of the loop, [i = 1 .. n-1]. *)
Definition tween_points (point : Point num) (dx dy : num) (n : nat) : list (Point num) :=
  map (fun i => tween_point point dx dy (Z.of_nat i)) (seq 1 (n - 1)).

(** The interior points as the specification orders them, from
    [lastPoint] toward [point]: the [i]-th is [i] sub-segments away from
    [lastPoint]. *)
Definition from_lastPoint_toward_point
    (lastPoint point : Point num) (numSegments : num) (n : nat) : list (Point num) :=
  map (fun i =>
         {| x := round (add (x lastPoint)
                   (mul (of_Z (Z.of_nat i)) (div (sub (x point) (x lastPoint)) numSegments)));
            y := round (add (y lastPoint)
                   (mul (of_Z (Z.of_nat i)) (div (sub (y point) (y lastPoint)) numSegments))) |})
      (seq 1 (n - 1)).

Definition rounded (point : Point num) : Point num :=
  {| x := round (x point); y := round (y point) |}.

(** The distance that [addPoint] computes between two points. *)
Definition distance (p q : Point num) : num :=
  let dx := sub (x p) (x q) in
  let dy := sub (y p) (y q) in
  sqrt (add (mul dx dx) (mul dy dy)).

(** No two neighbours of the queue are farther apart than [bound]. *)
Fixpoint spaced (bound : num) (queue : list (Point num)) : bool :=
  match queue with
  | p :: (q :: _) as rest => leb (distance p q) bound && spaced bound rest
  | _ => true
  end.

(** The alpha bytes of a bitmap, one per whole pixel. *)
Fixpoint alpha_channel (pixels : list Z) : list Z :=
  match pixels with
  | _ :: _ :: _ :: a :: rest => a :: alpha_channel rest
  | _ => []
  end.

Definition visible (alpha : Z) : bool := (alpha <=? 128)%Z.

(** The life of a widget: constructed, then driven by the browser. *)
Definition lifetime (StringToNumber : string -> num)
    (drawImage : Canvas -> Canvas -> num -> num -> Canvas)
    (userFn : nat -> list (JSValue num) -> State num -> Outcome unit)
    (fuel : nat) (d : Dom num) (arguments : list (JSValue num)) (inputs : list (Input num)) : State num :=
  match ScratchIt StringToNumber d arguments with
  | (Return _, s) => run drawImage userFn fuel inputs s
  | (_, s) => s
  end.

(* ----------------------------------------------------------------- *)
(** *** Relations between the states of a computation *)

(** [c] relates the state it starts in to the state it leaves, however it
    ends. *)
Definition preserves {A : Type} (R : State num -> State num -> Prop)
    (c : JS num A) : Prop :=
  forall s, R s (snd (c s)).

(** Neither the reveal flag nor the number of calls made changes. *)
Definition calm (s s' : State num) : Prop :=
  isRevealed s' = isRevealed s /\ invokes (trace s') = invokes (trace s).

(** The threshold stays as constructed. *)
Definition same_threshold (s s' : State num) : Prop :=
  revealThreshold s' = revealThreshold s.

(** The paint queue, the overlay and the stamps made stay as they are. *)
Definition undrawn (s s' : State num) : Prop :=
  paintQueue s' = paintQueue s /\ overlayCanvas s' = overlayCanvas s
  /\ draws (trace s') = draws (trace s).

(** Calm, and the threshold as constructed. *)
Definition quiet (s s' : State num) : Prop := calm s s' /\ same_threshold s s'.

(** Once revealed, neither the flag nor the number of calls changes. *)
Definition settled (s s' : State num) : Prop :=
  isRevealed s = true -> calm s s'.

(** Every call of a function of the caller returns. *)
Definition returning (userFn : nat -> list (JSValue num) -> State num -> Outcome unit)
  : Prop :=
  forall id args s, userFn id args s = Return tt.

(** What may happen to the reveal flag and the number of calls between two
    states when the callback returns: once revealed, nothing; before, at
    most one call, and with it the flag is set. *)
Definition reveal_step (s s' : State num) : Prop :=
  (isRevealed s = true -> calm s s')
  /\ (isRevealed s = false ->
      calm s s'
      \/ (isRevealed s' = true /\ invokes (trace s') = S (invokes (trace s)))).

(** Quiet, when the threshold is NaN. *)
Definition quiet_if_NaN (s s' : State num) : Prop :=
  isNaN (revealThreshold s) = true -> quiet s s'.

End Reading.


(* ================================================================= *)
(** ** Examples to run the widget on *)

Module Example.

Local Open Scope float_scope.
Local Open Scope string_scope.

Definition is_digit (c : Ascii.ascii) : bool :=
  ((48 <=? Ascii.nat_of_ascii c) && (Ascii.nat_of_ascii c <=? 57))%nat.

Fixpoint digits (s : string) (acc : Z) : option Z :=
  match s with
  | EmptyString => Some acc
  | String c rest =>
      if is_digit c
      then digits rest (10 * acc + Z.of_nat (Ascii.nat_of_ascii c - 48))%Z
      else None
  end.

(** A stand-in for the engine's reading of strings, to run the examples
    with: right on unsigned decimal integers of at most fifteen digits and
    on strings that are no numeric literal at all. *)
Definition StringToNumber (s : string) : float :=
  match digits s 0 with
  | Some z => of_Z z
  | None => nan
  end.

(** A brush that is opaque and covers the overlay wherever it is stamped:
    under ['destination-out'] its stamp clears every alpha byte. *)
Fixpoint clear_alpha (pixels : list Z) : list Z :=
  match pixels with
  | r :: g :: b :: _ :: rest => r :: g :: b :: 0%Z :: clear_alpha rest
  | _ => pixels
  end.

Definition covering_brush (overlay _ : Canvas) (_ _ : float) : Canvas :=
  {| width := width overlay; height := height overlay;
     data := clear_alpha (data overlay) |}.

Definition page : Dom float :=
  {| HTMLElement_is_object := false;
     parentEl_rect_width := 100;
     overlay_rect_left := 0;
     overlay_rect_top := 0 |}.

Definition div_element : JSValue float := VObject true (VNumber 1) (VString "DIV").

Definition onReveal : JSValue float := VFunction (UserFn 1).

(** Two callers: the functions of the one return, whatever they are called
    with; those of the other throw. *)
Definition polite (_ : nat) (_ : list (JSValue float)) (_ : State float)
  : Outcome unit := Return tt.

Definition rude (_ : nat) (_ : list (JSValue float)) (_ : State float)
  : Outcome unit := Throw "Error".

(** A mouse event at [(cx, cy)] in the viewport, [(ox, oy)] in its target. *)
Definition mouse (cx cy ox oy : float) : Event float :=
  {| targetTouches := None; touches := None;
     clientX := cx; clientY := cy;
     offsetX := Some ox; offsetY := oy;
     originalEvent_layerX := false |}.

(** The closure with a pointer down at the origin and a brush ten wide. *)
Definition dragging : State float :=
  set_minPointDist (10 / 2)
    (set_lastPoint (Some {| x := 0; y := 0 |})
      (set_paintQueue [{| x := 0; y := 0 |}]
        (set_isPointerDown true (initial page)))).

(** The same closure once the images are in: an overlay of two pixels, one
    opaque and one erased, a callback, and a threshold of fifty percent. *)
Definition two_pixels : Canvas :=
  {| width := 2; height := 1; data := [0; 0; 0; 255; 0; 0; 0; 100]%Z |}.

Definition half_erased : State float :=
  set_revealThreshold 50
    (set_revealCallback onReveal
      (set_overlayCanvas (Some two_pixels) dragging)).

(** A widget of one opaque pixel, with a brush of two by two. *)
Definition one_pixel : Canvas :=
  {| width := 1; height := 1; data := [0; 0; 0; 255]%Z |}.

Definition small_brush : Canvas :=
  {| width := 2; height := 2;
     data := [0; 0; 0; 255; 0; 0; 0; 255; 0; 0; 0; 255; 0; 0; 0; 255]%Z |}.

Definition arguments_with (threshold : JSValue float) : list (JSValue float) :=
  [div_element; VString "overlay.jpg"; VString "brush.png"; onReveal; threshold].

Definition images_loaded : list (Input float) :=
  [ImageLoaded Overlay (Some one_pixel); ImageLoaded Brush (Some small_brush)].

(** Fifty pixels to the right of the origin. *)
Definition far_point : Point float := {| x := 50; y := 0 |}.

(** A press on the top left corner of the overlay. *)
Definition press : Event float := mouse 10 10 0 0.

(** The widget of one opaque pixel, its images loaded, a pointer just down. *)
Definition pressed : State float :=
  lifetime StringToNumber covering_brush polite 0 page
    (arguments_with (VNumber 50))
    (images_loaded ++ [PointerDown press]).

End Example.


(* ================================================================= *)
(** ** Reading the rest of the widget *)

Section MoreReading.

Context {num : Type} `{Number num}.
Variable drawImage : Canvas -> Canvas -> num -> num -> Canvas.

(** How often the trace registers the listeners, cancels an event, logs an
    error. *)
Definition is_AddEventListeners (e : Effect num) : bool :=
  match e with AddEventListeners => true | _ => false end.
Definition is_CancelEvent (e : Effect num) : bool :=
  match e with CancelEvent => true | _ => false end.
Definition is_ConsoleError (e : Effect num) : bool :=
  match e with ConsoleError _ => true | _ => false end.

Definition registrations (t : list (Effect num)) : nat :=
  List.length (filter is_AddEventListeners t).
Definition cancellations (t : list (Effect num)) : nat :=
  List.length (filter is_CancelEvent t).
Definition console_errors (t : list (Effect num)) : nat :=
  List.length (filter is_ConsoleError t).

(** What the widget has done for its user: stamps, scans, calls of the
    callback, events taken from the page. *)
Definition activity (t : list (Effect num)) : nat * nat * nat * nat :=
  (draws t, scans t, invokes t, cancellations t).

(** [c] leaves the value of [f] as it was, however it ends. *)
Definition keeps {A : Type} (f : State num -> A) (s s' : State num) : Prop :=
  f s' = f s.

(** What initialisation decides: the listeners, the frame loop, the two
    canvases, the spacing, the state of the two loads, and what was
    reported. *)
Definition init_fields (s : State num) :=
  (listening s, animating s, overlayCanvas s, brushCanvas s, minPointDist s,
   (overlayLoaded s, brushLoaded s, overlayPending s, brushPending s),
   registrations (trace s), console_errors (trace s)).

(** The same without the overlay and the frame request, which [draw]
    renews. *)
Definition loaded_fields (s : State num) :=
  (listening s, brushCanvas s, minPointDist s,
   (overlayLoaded s, brushLoaded s, overlayPending s, brushPending s),
   registrations (trace s), console_errors (trace s)).

(** What the reveal check decides and leaves in the trace. *)
Definition reveal_fields (s : State num) :=
  (scans (trace s), invokes (trace s), isRevealed s).

(** The pointer session. *)
Definition session_fields (s : State num) :=
  (isPointerDown s, lastPoint s, pointerOrigin s, offsetOrigin s).

(** What a move is measured against. *)
Definition anchor_fields (s : State num) :=
  (isPointerDown s, pointerOrigin s, offsetOrigin s, scale s).

(** The stamp of [point]: where [draw] puts the brush. *)
Definition stamp_x (brush : Canvas) (point : Point num) : num :=
  sub (x point) (div (of_Z (width brush)) (of_Z 2)).
Definition stamp_y (brush : Canvas) (point : Point num) : num :=
  sub (y point) (div (of_Z (height brush)) (of_Z 2)).

(** The overlay after the stamps of [queue], first to last. *)
Definition stamped (overlay brush : Canvas) (queue : list (Point num)) : Canvas :=
  fold_left (fun o p => drawImage o brush (stamp_x brush p) (stamp_y brush p))
            queue overlay.

(** What holds of the closure from construction on: the frame loop runs
    only while the listeners are registered, and as long as they are,
    unless the brush is empty (a frame that throws requests no other);
    the listeners are registered once,
    and only over two loaded canvases; a load under way has not come in; an
    error is logged exactly when both loads are over and the widget did not
    start, and then a canvas is missing; no stroke is open without a pointer
    down; and a widget that did not start has done nothing. *)
Definition well_formed (s : State num) : Prop :=
((animating s = true -> listening s = true)
   /\ (listening s = true ->
       forall brush, brushCanvas s = Some brush ->
       width brush <> 0%Z -> height brush <> 0%Z -> animating s = true))
  /\ (listening s = true ->
      overlayLoaded s = true /\ brushLoaded s = true
      /\ exists overlay brush,
           overlayCanvas s = Some overlay /\ brushCanvas s = Some brush
           /\ minPointDist s = div (of_Z (width brush)) (of_Z 2))
  /\ (overlayPending s = true -> overlayLoaded s = false)
  /\ (brushPending s = true -> brushLoaded s = false)
  /\ registrations (trace s) = (if listening s then 1 else 0)%nat
  /\ (console_errors (trace s)
      = (if overlayLoaded s && brushLoaded s && negb (listening s) then 1 else 0)%nat
      /\ (overlayLoaded s = true -> brushLoaded s = true -> listening s = false ->
          overlayCanvas s = None \/ brushCanvas s = None))
  /\ (isPointerDown s = false -> lastPoint s = None)
  /\ (listening s = false ->
      isPointerDown s = false /\ paintQueue s = []
      /\ activity (trace s) = (0, 0, 0, 0)%nat).

(** The load of an image has neither ended nor begun. *)
Definition unstarted (w : Which) (s : State num) : Prop :=
  match w with
  | Overlay => overlayLoaded s = false /\ overlayPending s = false
  | Brush => brushLoaded s = false /\ brushPending s = false
  end.

(** The load of an image is over and has given no canvas. *)
Definition failed (w : Which) (s : State num) : Prop :=
  match w with
  | Overlay => overlayLoaded s = true /\ overlayCanvas s = None
  | Brush => brushLoaded s = true /\ brushCanvas s = None
  end.

(** A value that is no string. *)
Definition not_a_string (v : JSValue num) : Prop :=
  match v with VString _ => False | _ => True end.

(** The argument of the constructor that is the URL of an image. *)
Definition url_argument (w : Which) (arguments : list (JSValue num)) : JSValue num :=
  match w with
  | Overlay => nth 1 arguments VUndefined
  | Brush => nth 2 arguments VUndefined
  end.

End MoreReading.

(* ================================================================= *)
(** ** debounce *)

(** [debounce(func, wait, immediate)] returns a closure over the variable
    [timeout].  The model keeps that variable, the browser's timers that the
    closure has set and that have neither run nor been cleared, the clock,
    and the list of the calls [func.apply(context, args)] made so far.  A
    call of the closure passes [args] (with its [this]); [func] is the
    caller's and is taken not to call the closure itself. *)
Module Debounce.

Section Debounced.

Variable A : Type.          (* [this] and [arguments] of a call *)
Variable wait : nat.        (* milliseconds *)
Variable immediate : bool.  (* as a condition *)

(** The values of [timeout]: never assigned, [null], or what [setTimeout]
    returned, a positive integer. *)
Inductive Handle : Type :=
| Undefined
| Null
| Id (n : nat).

Definition truthy (h : Handle) : bool :=
  match h with
  | Id n => negb (n =? 0)%nat
  | Undefined | Null => false
  end.

(** A timer: the closure [later] of one call, and when it is due. *)
Record Timer : Type := {
  id : nat;
  due : nat;
  args : A
}.

Record Closure : Type := {
  timeout : Handle;
  timers : list Timer;
  now : nat;
  next_id : nat;
  applied : list A
}.

Definition created : Closure :=
  {| timeout := Undefined; timers := []; now := 0; next_id := 1; applied := [] |}.

(** [func.apply(context, args)] *)
Definition apply (a : A) (c : Closure) : Closure :=
  {| timeout := timeout c; timers := timers c; now := now c;
     next_id := next_id c; applied := applied c ++ [a] |}.

(** [timeout = v] *)
Definition assign (v : Handle) (c : Closure) : Closure :=
  {| timeout := v; timers := timers c; now := now c;
     next_id := next_id c; applied := applied c |}.

(** [clearTimeout(h)]: a handle that names no timer is ignored. *)
Definition clearTimeout (h : Handle) (c : Closure) : Closure :=
  match h with
  | Id n =>
      {| timeout := timeout c;
         timers := filter (fun t => negb (id t =? n)%nat) (timers c);
         now := now c; next_id := next_id c; applied := applied c |}
  | Undefined | Null => c
  end.

(** [setTimeout(later, wait)], with the [args] that [later] closes over. *)
Definition setTimeout (a : A) (c : Closure) : nat * Closure :=
  (next_id c,
   {| timeout := timeout c;
      timers := timers c ++ [{| id := next_id c; due := now c + wait; args := a |}];
      now := now c; next_id := S (next_id c); applied := applied c |}).

(** [later]: [timeout = null; if (!immediate) func.apply(context, args)] *)
Definition later (a : A) (c : Closure) : Closure :=
  let c := assign Null c in
  if negb immediate then apply a c else c.

(** The closure that [debounce] returns, called with [a]. *)
Definition debounced (a : A) (c : Closure) : Closure :=
  let callNow := immediate && negb (truthy (timeout c)) in
  let c := clearTimeout (timeout c) c in
  let (handle, c) := setTimeout a c in
  let c := assign (Id handle) c in
  if callNow then apply a c else c.

(** The browser runs a timer: it is no longer pending, and [later] runs. *)
Definition fire (t : Timer) (c : Closure) : Closure :=
  later (args t)
    {| timeout := timeout c;
       timers := filter (fun u => negb (id u =? id t)%nat) (timers c);
       now := now c; next_id := next_id c; applied := applied c |}.

(** [ms] milliseconds pass: the timers that fall due run, oldest first. *)
Definition elapse (ms : nat) (c : Closure) : Closure :=
  let c' := fold_left (fun c t => fire t c)
              (filter (fun t => due t <=? now c + ms)%nat (timers c)) c in
  {| timeout := timeout c'; timers := timers c'; now := now c + ms;
     next_id := next_id c'; applied := applied c' |}.

Inductive Stimulus : Type :=
| Call (a : A)
| Elapse (ms : nat).

Definition step (c : Closure) (i : Stimulus) : Closure :=
  match i with
  | Call a => debounced a c
  | Elapse ms => elapse ms c
  end.

Definition drive (inputs : list Stimulus) (c : Closure) : Closure :=
  fold_left step inputs c.

(** A burst: calls, each followed by a pause shorter than [wait]. *)
Definition burst (calls : list (A * nat)) : list Stimulus :=
  flat_map (fun call => [Call (fst call); Elapse (snd call)]) calls.

Definition rapid (calls : list (A * nat)) : Prop :=
  Forall (fun call => snd call < wait)%nat calls.

(** How many of the inputs are calls. *)
Definition calls_in (inputs : list Stimulus) : nat :=
  List.length (filter (fun i => match i with Call _ => true | Elapse _ => false end)
                      inputs).

(** At most one timer is pending, and [timeout] names it; with none
    pending [timeout] is no handle. *)
Definition one_timer (c : Closure) : Prop :=
  (1 <= next_id c)%nat
  /\ (timers c = [] /\ truthy (timeout c) = false
      \/ exists t, timers c = [t] /\ timeout c = Id (id t)
                   /\ (1 <= id t < next_id c)%nat /\ (due t <= now c + wait)%nat).

End Debounced.

Arguments Build_Timer {A}.
Arguments id {A}.
Arguments due {A}.
Arguments args {A}.
Arguments Build_Closure {A}.
Arguments timeout {A}.
Arguments timers {A}.
Arguments now {A}.
Arguments next_id {A}.
Arguments applied {A}.
Arguments created {A}.
Arguments debounced {A}.
Arguments elapse {A}.
Arguments Call {A}.
Arguments Elapse {A}.
Arguments drive {A}.
Arguments burst {A}.
Arguments rapid {A}.
Arguments calls_in {A}.
Arguments one_timer {A}.

End Debounce.

(* ================================================================= *)
(** ** More scenarios *)

Module Scenario.

Local Open Scope float_scope.
Local Open Scope string_scope.

(** A whole stroke on the widget of one pixel: press and release. *)
Definition stroke : list (Input float) :=
  Example.images_loaded ++ [PointerDown Example.press; PointerUp Example.press].

(** Two strokes, one after the other. *)
Definition two_strokes : list (Input float) :=
  stroke ++ [PointerDown Example.press; PointerUp Example.press].

(** A brush with no pixels, loaded after the overlay of one pixel, and a
    press. *)
Definition empty_brush : Canvas := {| width := 0; height := 0; data := [] |}.

Definition empty_handed : list (Input float) :=
  [ImageLoaded Overlay (Some Example.one_pixel);
   ImageLoaded Brush (Some empty_brush); PointerDown Example.press].

(** An event as jQuery wraps it in a browser without [offsetX]: it has an
    [originalEvent] with a numeric [layerX]. *)
Definition wrapped_press : Event float :=
  {| targetTouches := None; touches := None;
     clientX := 10; clientY := 10;
     offsetX := None; offsetY := 0;
     originalEvent_layerX := true |}.

(** The brush does not load; the overlay does, and the user tries. *)
Definition brush_missing : list (Input float) := [ImageLoaded Brush None].

Definition tries : list (Input float) :=
  [ImageLoaded Overlay (Some Example.one_pixel); PointerDown Example.press;
   AnimationFrame; PointerUp Example.press].

(** The overlay's URL left out: a number where the string should be. *)
Definition arguments_without_overlay : list (JSValue float) :=
  [Example.div_element; VNumber 1; VString "brush.png"; Example.onReveal].

(** Ten [resize] events twenty milliseconds apart, each with the width of
    the window at that time, and the [wait] of the widget. *)
Definition resizes : list (nat * nat) :=
  [(980, 20); (960, 20); (940, 20); (920, 20); (900, 20);
   (880, 20); (860, 20); (840, 20); (820, 20)]%nat.

Definition last_resize : nat := 800.

Definition resize_wait : nat := 200.

End Scenario.


(* ================================================================= *)
(** ** Facts about the widget, over any arithmetic *)

(** Projections of updated states. *)
Ltac state_simpl :=
  cbn [set_parentEl set_overlayCanvas set_brushCanvas set_overlayLoaded
    set_brushLoaded set_isPointerDown set_pointerOrigin set_offsetOrigin
    set_scale set_paintQueue set_lastPoint set_minPointDist set_isRevealed
    set_revealThreshold set_revealCallback set_dom set_overlayPending
    set_brushPending set_listening set_animating set_trace parentEl
    overlayCanvas brushCanvas overlayLoaded brushLoaded isPointerDown
    pointerOrigin offsetOrigin scale paintQueue lastPoint minPointDist
    isRevealed revealThreshold revealCallback dom overlayPending
    brushPending listening animating trace fst snd].

Section Facts.

Context {num : Type} `{Number num}.
Variable StringToNumber : string -> num.
Variable drawImage : Canvas -> Canvas -> num -> num -> Canvas.
Variable userFn : nat -> list (JSValue num) -> State num -> Outcome unit.

(** C10: a pointer-move received while no pointer is down returns at once
    and leaves the whole state as it was: the queue, [lastPoint], the two
    origins, the surfaces, and the trace of calls (the event is not even
    cancelled). *)
Theorem onPointerMove_not_down_is_noop (fuel : nat) (event : Event num) (s : State num) :
  isPointerDown s = false ->
  onPointerMove fuel event s = (Return tt, s).
Proof.
  intros Hup. unfold onPointerMove, bind, gets. rewrite Hup. reflexivity.
Qed.

(** C7: when the container is no DOM element, or the callback is no
    function, or the threshold (as a number) is below 0 or above 100, the
    constructor throws; nothing but [parentEl] has been assigned, no image
    load has started, no listener is registered, and nothing was called:
    there is no second attempt. *)
Theorem construct_fails_fast (d : Dom num) (arguments : list (JSValue num)) :
  isDomElement d (nth 0 arguments VUndefined) = false
  \/ typeof (callback_argument arguments) <> TFunction
  \/ ltb (threshold_argument StringToNumber arguments) (of_Z 0) = true
  \/ gtb (threshold_argument StringToNumber arguments) (of_Z 100) = true ->
  exists msg,
    ScratchIt StringToNumber d arguments
    = (Throw msg, set_parentEl (nth 0 arguments VUndefined) (initial d)).
Proof.
  intros Hbad. unfold ScratchIt, construct, bind, modify, gets, throw. cbn.
  destruct (isDomElement d (nth 0 arguments VUndefined)) eqn:Hel; cbn;
    [ | eexists; reflexivity ].
  destruct (TypeOf_eqb (typeof (callback_argument arguments)) TFunction) eqn:Hcb; cbn;
    [ | eexists; reflexivity ].
  destruct (ltb (threshold_argument StringToNumber arguments) (of_Z 0)) eqn:Hlo; cbn;
    [ eexists; reflexivity | ].
  destruct (gtb (threshold_argument StringToNumber arguments) (of_Z 100)) eqn:Hhi; cbn;
    [ eexists; reflexivity | ].
  exfalso. destruct Hbad as [Hb | [Hb | [Hb | Hb]]]; try discriminate.
  apply Hb. destruct (typeof (callback_argument arguments)); try discriminate. reflexivity.
Qed.

(* ----------------------------------------------------------------- *)
(** *** The scan of the alpha channel *)

Lemma pixels_ind (P : list Z -> Prop) :
  P [] -> (forall r, P [r]) -> (forall r g, P [r; g]) -> (forall r g b, P [r; g; b]) ->
  (forall r g b a rest, P rest -> P (r :: g :: b :: a :: rest)) ->
  forall pixels, P pixels.
Proof.
  intros H0 H1 H2 H3 H4. fix IH 1.
  intros [| r [| g [| b [| a rest]]]].
  - exact H0.
  - apply H1.
  - apply H2.
  - apply H3.
  - apply H4, IH.
Qed.

Lemma countVisible_alpha_channel (pixels : list Z) :
  countVisible pixels
  = Z.of_nat (List.length (filter visible (alpha_channel pixels))).
Proof.
  induction pixels as [| r | r g | r g b | r g b a rest IH] using pixels_ind;
    try reflexivity.
  change (countVisible (r :: g :: b :: a :: rest))
    with (((if (a <=? alphaThreshold)%Z then 1 else 0) + countVisible rest)%Z).
  change (alpha_channel (r :: g :: b :: a :: rest)) with (a :: alpha_channel rest).
  rewrite IH. cbn [filter]. unfold alphaThreshold.
  change (visible a) with (a <=? 128)%Z.
  destruct (a <=? 128)%Z; cbn [List.length]; lia.
Qed.

Lemma alpha_channel_length (n : nat) :
  forall pixels, List.length pixels = (4 * n)%nat ->
  List.length (alpha_channel pixels) = n.
Proof.
  induction n as [| n IH]; intros pixels Hlen.
  - destruct pixels; [reflexivity | discriminate].
  - destruct pixels as [| r [| g [| b [| a rest]]]]; cbn in Hlen; try lia.
    cbn. f_equal. apply IH. lia.
Qed.

Lemma alpha_channel_total (c : Canvas) :
  canvas_wf c ->
  Z.of_nat (List.length (alpha_channel (data c))) = (width c * height c)%Z.
Proof.
  intros (Hw & Hh & Hlen).
  rewrite (alpha_channel_length (Z.to_nat (width c * height c))); lia.
Qed.

Lemma countVisible_bounds (pixels : list Z) :
  (0 <= countVisible pixels <= Z.of_nat (List.length (alpha_channel pixels)))%Z.
Proof.
  rewrite countVisible_alpha_channel.
  pose proof (filter_length_le visible (alpha_channel pixels)). lia.
Qed.

(** The reveal check of a widget not yet revealed, in full: the scan, the
    comparison, the call, and the flag, which is set when the call has
    returned. *)
Lemma testRevealed_unfolded (s : State num) (overlay : Canvas) (f : Fn) :
  overlayCanvas s = Some overlay ->
  isRevealed s = false ->
  width overlay <> 0%Z -> height overlay <> 0%Z ->
  revealCallback s = VFunction f ->
  testRevealed userFn s
  = if geb (mul (div (of_Z (Z.of_nat (List.length
                        (filter visible (alpha_channel (data overlay))))))
                     (mul (of_Z (width overlay)) (of_Z (height overlay))))
                (of_Z 100))
           (revealThreshold s)
    then
      let called :=
        set_trace (trace s ++ [GetImageData (width overlay) (height overlay);
                               Invoke f []]) s in
      match fst (invoke userFn f [] called) with
      | Return _ => (Return tt, set_isRevealed true called)
      | Throw msg => (Throw msg, called)
      | Diverge => (Diverge, called)
      end
    else
      (Return tt,
       set_trace (trace s ++ [GetImageData (width overlay) (height overlay)]) s).
Proof.
  intros Hoc Hrev Hw Hh Hcb.
  unfold testRevealed, getImageData, bind, gets, emit, modify, ret, call, throw.
  rewrite Hoc, Hrev.
  apply Z.eqb_neq in Hw, Hh. rewrite Hw, Hh. cbn.
  rewrite countVisible_alpha_channel.
  destruct (geb _ (revealThreshold s)); [| reflexivity].
  unfold set_isRevealed, set_trace; cbn. rewrite Hcb.
  unfold emit, modify, set_trace, bind, invoke; cbn.
  rewrite <- app_assoc. cbn.
  destruct f as [| id]; [reflexivity |].
  match goal with |- context [userFn id [] ?t] => destruct (userFn id [] t) as [[] | msg |] end;
    reflexivity.
Qed.


(* ----------------------------------------------------------------- *)
(** *** The interpolation loop *)

Lemma set_paintQueue_twice (q1 q2 : list (Point num)) (s : State num) :
  set_paintQueue q2 (set_paintQueue q1 s) = set_paintQueue q2 s.
Proof. reflexivity. Qed.

(** The loop, entered at [i] with [k] iterations to go, appends the points
    of [i], [i+1], ..., [i+k-1] in that order and returns. *)
Lemma tween_loop_runs (numSegments : num) (point : Point num) (dx dy : num) (k : nat) :
  forall (fuel : nat) (i : Z) (s : State num),
  (forall j, (i <= j < i + Z.of_nat k)%Z -> ltb (of_Z j) numSegments = true) ->
  ltb (of_Z (i + Z.of_nat k)) numSegments = false ->
  (k <= fuel)%nat ->
  tween_loop fuel i numSegments point dx dy s
  = (Return tt,
     set_paintQueue
       (paintQueue s
        ++ map (fun j => tween_point point dx dy (i + Z.of_nat j)) (seq 0 k)) s).
Proof.
  induction k as [| k IH]; intros fuel i s Hlt Hge Hfuel.
  - replace (i + Z.of_nat 0)%Z with i in Hge by lia.
    destruct fuel; cbn [tween_loop]; rewrite Hge; cbn;
      rewrite app_nil_r; destruct s; reflexivity.
  - destruct fuel as [| fuel]; [lia |].
    cbn [tween_loop]. rewrite (Hlt i) by lia.
    unfold bind at 1. unfold push at 1. unfold modify at 1.
    rewrite IH.
    + rewrite set_paintQueue_twice. f_equal. f_equal.
      cbn [paintQueue set_paintQueue]. rewrite <- app_assoc. f_equal.
      cbn [seq map app]. f_equal.
      * unfold tween_point. now replace (i + Z.of_nat 0)%Z with i by lia.
      * rewrite <- seq_shift, map_map. apply map_ext. intros j.
        f_equal. lia.
    + intros j Hj. apply Hlt. lia.
    + replace (i + 1 + Z.of_nat k)%Z with (i + Z.of_nat (S k))%Z by lia. exact Hge.
    + lia.
Qed.

(** Out of fuel before the bound is reached, the loop has not returned. *)
Lemma tween_loop_diverges (numSegments : num) (point : Point num) (dx dy : num) :
  forall (fuel : nat) (i : Z) (s : State num),
  (forall j, (i <= j)%Z -> ltb (of_Z j) numSegments = true) ->
  fst (tween_loop fuel i numSegments point dx dy s) = Diverge.
Proof.
  induction fuel as [| fuel IH]; intros i s Hlt; cbn [tween_loop];
    rewrite (Hlt i) by lia.
  - reflexivity.
  - unfold bind at 1, push at 1, modify at 1.
    specialize (IH (i + 1)%Z
      (set_paintQueue (paintQueue s ++ [tween_point point dx dy i]) s)).
    unfold tween_point in IH.
    destruct (tween_loop fuel (i + 1) numSegments point dx dy _) as [o s'].
    cbn in IH. rewrite IH; [reflexivity |]. intros j Hj. apply Hlt. lia.
Qed.

(** Above [minPointDist] the loop runs, and the state that [addPoint]
    leaves is this one. *)
Lemma addPoint_far (fuel : nat) (point : Point num) (s : State num)
    (last : Point num) (n : nat) :
  let dx := sub (x last) (x point) in
  let dy := sub (y last) (y point) in
  let dist := sqrt (add (mul dx dx) (mul dy dy)) in
  let numSegments := ceil (div dist (minPointDist s)) in
  lastPoint s = Some last ->
  gtb dist (minPointDist s) = true ->
  (forall i, (1 <= i < Z.of_nat n)%Z -> ltb (of_Z i) numSegments = true) ->
  ltb (of_Z (Z.of_nat n)) numSegments = false ->
  (1 <= n)%nat ->
  (n - 1 <= fuel)%nat ->
  addPoint fuel point true s
  = (Return tt,
     set_paintQueue
       (paintQueue s
        ++ tween_points point (div dx numSegments) (div dy numSegments) n
        ++ [rounded point])
       (set_lastPoint (Some (rounded point)) s)).
Proof.
  intros dx dy dist numSegments Hlast Hfar Hlt Hge Hn Hfuel.
  unfold addPoint. unfold bind at 1. unfold gets at 1. rewrite Hlast.
  unfold bind at 1. unfold bind at 1. unfold gets at 1.
  fold dx dy dist. rewrite Hfar. fold numSegments.
  rewrite (tween_loop_runs numSegments point (div dx numSegments)
             (div dy numSegments) (n - 1) fuel 1 s).
  - unfold push, bind, modify. state_simpl. unfold tween_points, rounded.
    rewrite <- app_assoc, <- seq_shift, map_map.
    rewrite (map_ext (fun j => tween_point point (div dx numSegments)
                                 (div dy numSegments) (Z.of_nat (S j)))
                     (fun j => tween_point point (div dx numSegments)
                                 (div dy numSegments) (1 + Z.of_nat j)));
      [reflexivity |].
    intros j. f_equal. lia.
  - intros j Hj. apply Hlt. lia.
  - replace (1 + Z.of_nat (n - 1))%Z with (Z.of_nat n) by lia. exact Hge.
  - exact Hfuel.
Qed.

(** Below [minPointDist] nothing is interpolated: the point alone is
    enqueued. *)
Lemma addPoint_near (fuel : nat) (point : Point num) (s : State num) (last : Point num) :
  lastPoint s = Some last ->
  gtb (distance last point) (minPointDist s) = false ->
  addPoint fuel point true s
  = (Return tt,
     set_paintQueue (paintQueue s ++ [rounded point])
       (set_lastPoint (Some (rounded point)) s)).
Proof.
  intros Hlast Hnear. unfold distance in Hnear.
  unfold addPoint. unfold bind at 1. unfold gets at 1. rewrite Hlast.
  unfold bind at 1. unfold bind at 1. unfold gets at 1.
  rewrite Hnear. reflexivity.
Qed.

(** C1, as the code has it: with [tween] set, a [lastPoint], and a distance
    above [minPointDist], the segment is cut into
    [numSegments = ceil(dist / minPointDist)] equal parts (the loop counts
    [n] of them) and the [n - 1] interior points
    [point + i * (lastPoint - point) / numSegments], [i = 1 .. n-1], each
    rounded, are enqueued in that order, which runs from [point] toward
    [lastPoint]; then the point itself, rounded, is enqueued and becomes
    [lastPoint].  Nothing else changes. *)
Theorem addPoint_tween (fuel : nat) (point : Point num) (s : State num)
    (last : Point num) (n : nat) :
  let dx := sub (x last) (x point) in
  let dy := sub (y last) (y point) in
  let dist := sqrt (add (mul dx dx) (mul dy dy)) in
  let numSegments := ceil (div dist (minPointDist s)) in
  let interior := tween_points point (div dx numSegments) (div dy numSegments) n in
  lastPoint s = Some last ->
  gtb dist (minPointDist s) = true ->
  (forall i, (1 <= i < Z.of_nat n)%Z -> ltb (of_Z i) numSegments = true) ->
  ltb (of_Z (Z.of_nat n)) numSegments = false ->
  (1 <= n)%nat ->
  (n - 1 <= fuel)%nat ->
  exists s',
    addPoint fuel point true s = (Return tt, s')
    /\ paintQueue s' = paintQueue s ++ interior ++ [rounded point]
    /\ List.length interior = (n - 1)%nat
    /\ (forall i, (1 <= i < n)%nat ->
          nth_error interior (i - 1)
          = Some (tween_point point (div dx numSegments) (div dy numSegments)
                    (Z.of_nat i)))
    /\ lastPoint s' = Some (rounded point)
    /\ s' = set_paintQueue (paintQueue s') (set_lastPoint (lastPoint s') s).
Proof.
  intros dx dy dist numSegments interior Hlast Hfar Hlt Hge Hn Hfuel.
  eexists. split; [now apply (addPoint_far fuel point s last n) |].
  state_simpl. fold dx dy dist numSegments interior.
  split; [reflexivity |]. split; [| split; [| split; reflexivity]].
  - unfold interior, tween_points. now rewrite length_map, length_seq.
  - intros i Hi. unfold interior, tween_points.
    rewrite nth_error_map, nth_error_seq.
    destruct (Nat.ltb_spec (i - 1) (n - 1)); [| lia].
    cbn [option_map]. do 2 f_equal. lia.
Qed.

(* ----------------------------------------------------------------- *)
(** *** Relations that every step of a computation keeps *)

Section Preserves.

Variable R : State num -> State num -> Prop.
Hypothesis R_refl : forall s, R s s.
Hypothesis R_trans : forall s1 s2 s3, R s1 s2 -> R s2 s3 -> R s1 s3.

Lemma preserves_ret {A} (a : A) : preserves R (ret a).
Proof. intros s. apply R_refl. Qed.

Lemma preserves_throw {A} (msg : string) : preserves R (@throw num A msg).
Proof. intros s. apply R_refl. Qed.

Lemma preserves_diverge {A} : preserves R (@diverge num A).
Proof. intros s. apply R_refl. Qed.

Lemma preserves_gets {A} (f : State num -> A) : preserves R (gets f).
Proof. intros s. apply R_refl. Qed.

Lemma preserves_modify (f : State num -> State num) :
  (forall s, R s (f s)) -> preserves R (modify f).
Proof. intros Hf s. apply Hf. Qed.

Lemma preserves_invoke (fn : Fn) (args : list (JSValue num)) :
  preserves R (invoke userFn fn args).
Proof. intros s. apply R_refl. Qed.

Lemma preserves_bind {A B} (c : JS num A) (k : A -> JS num B) :
  preserves R c -> (forall a, preserves R (k a)) -> preserves R (bind c k).
Proof.
  intros Hc Hk s. unfold bind. specialize (Hc s).
  destruct (c s) as [[a | msg |] s']; cbn [snd] in *; auto.
  eapply R_trans; [exact Hc | apply Hk].
Qed.

End Preserves.

(** One step of a proof that a handler keeps a relation: the structure of
    the handler is followed, and what remains is that each assignment and
    each call into the browser keeps it. *)
Ltac preserves_step :=
  match goal with
  | |- preserves _ (bind _ _) => apply preserves_bind; [assumption | | intros ?]
  | |- preserves _ (ret _) => apply preserves_ret; assumption
  | |- preserves _ (throw _) => apply preserves_throw; assumption
  | |- preserves _ diverge => apply preserves_diverge; assumption
  | |- preserves _ (gets _) => apply preserves_gets; assumption
  | |- preserves _ (invoke _ _ _) => apply preserves_invoke; assumption
  | |- preserves _ (if ?b then _ else _) => destruct b
  | |- preserves _ (match ?v with _ => _ end) => destruct v
  end.

Lemma count_snoc {A} (f : A -> bool) (l : list A) (a : A) :
  List.length (filter f (l ++ [a]))
  = (List.length (filter f l) + (if f a then 1 else 0))%nat.
Proof.
  rewrite filter_app, length_app. cbn. destruct (f a); reflexivity.
Qed.

Lemma calm_refl (s : State num) : calm s s.
Proof. split; reflexivity. Qed.

Lemma calm_trans (s1 s2 s3 : State num) : calm s1 s2 -> calm s2 s3 -> calm s1 s3.
Proof. intros [H1 H2] [H3 H4]. split; congruence. Qed.

Lemma same_threshold_refl (s : State num) : same_threshold s s.
Proof. reflexivity. Qed.

Lemma same_threshold_trans (s1 s2 s3 : State num) :
  same_threshold s1 s2 -> same_threshold s2 s3 -> same_threshold s1 s3.
Proof. unfold same_threshold. congruence. Qed.

Lemma undrawn_refl (s : State num) : undrawn s s.
Proof. repeat split. Qed.

Lemma undrawn_trans (s1 s2 s3 : State num) :
  undrawn s1 s2 -> undrawn s2 s3 -> undrawn s1 s3.
Proof. intros (H1 & H2 & H3) (H4 & H5 & H6). repeat split; congruence. Qed.

Lemma quiet_refl (s : State num) : quiet s s.
Proof. split; [apply calm_refl | apply same_threshold_refl]. Qed.

Lemma quiet_trans (s1 s2 s3 : State num) : quiet s1 s2 -> quiet s2 s3 -> quiet s1 s3.
Proof.
  intros [H1 H2] [H3 H4].
  split; [eapply calm_trans | eapply same_threshold_trans]; eassumption.
Qed.

Lemma quiet_calm {A} (c : JS num A) : preserves quiet c -> preserves calm c.
Proof. intros Hc s. apply Hc. Qed.

(** An assignment, or a call into the browser other than the one at hand,
    keeps each of these. *)
Ltac keeps_field :=
  intros ?; unfold quiet, calm, same_threshold, undrawn, invokes, scans, draws;
  state_simpl; rewrite ?count_snoc; cbn [is_Invoke is_DrawImage];
  rewrite ?Nat.add_0_r; repeat split; reflexivity.

Ltac preserves_tac refl trans :=
  pose proof refl; pose proof trans;
  repeat first
    [ preserves_step
    | apply preserves_modify; keeps_field
    | unfold emit; apply preserves_modify; keeps_field ].

Lemma quiet_onResize : preserves quiet onResize.
Proof. unfold onResize. preserves_tac quiet_refl quiet_trans. Qed.

Lemma quiet_onCanvasLoaded : preserves quiet onCanvasLoaded.
Proof.
  pose proof quiet_onResize.
  unfold onCanvasLoaded. preserves_tac quiet_refl quiet_trans; assumption.
Qed.

Lemma quiet_onImage (w : Which) (canvas : option Canvas) :
  preserves quiet (onImage w canvas).
Proof.
  pose proof quiet_onCanvasLoaded.
  unfold onImage. preserves_tac quiet_refl quiet_trans; assumption.
Qed.

Lemma quiet_getCanvasFromImage (imgUrl : JSValue num) (w : Which) :
  preserves quiet (getCanvasFromImage imgUrl w).
Proof.
  pose proof (quiet_onImage w None).
  unfold getCanvasFromImage. preserves_tac quiet_refl quiet_trans; assumption.
Qed.

Lemma calm_construct (arguments : list (JSValue num)) :
  preserves calm (construct StringToNumber arguments).
Proof.
  pose proof (fun u w => quiet_calm _ (quiet_getCanvasFromImage u w)).
  unfold construct. preserves_tac calm_refl calm_trans; auto.
Qed.

Lemma quiet_stamp (point : Point num) : preserves quiet (stamp drawImage point).
Proof. unfold stamp. preserves_tac quiet_refl quiet_trans. Qed.

Lemma quiet_drain (queue : list (Point num)) : preserves quiet (drain drawImage queue).
Proof.
  induction queue as [| point rest IH]; cbn [drain].
  - apply preserves_ret, quiet_refl.
  - pose proof (quiet_stamp point).
    preserves_tac quiet_refl quiet_trans; assumption.
Qed.

Lemma quiet_draw : preserves quiet (draw drawImage).
Proof.
  pose proof quiet_drain.
  unfold draw. preserves_tac quiet_refl quiet_trans; auto.
Qed.

Lemma quiet_tween_loop (numSegments : num) (point : Point num) (dx dy : num) :
  forall (fuel : nat) (i : Z),
  preserves quiet (tween_loop fuel i numSegments point dx dy).
Proof.
  induction fuel as [| fuel IH]; intros i; cbn [tween_loop]; unfold push.
  - preserves_tac quiet_refl quiet_trans.
  - pose proof (IH (i + 1)%Z).
    preserves_tac quiet_refl quiet_trans; assumption.
Qed.

Lemma quiet_addPoint (fuel : nat) (point : Point num) (tween : bool) :
  preserves quiet (addPoint fuel point tween).
Proof.
  pose proof quiet_tween_loop.
  unfold addPoint, push. preserves_tac quiet_refl quiet_trans; auto.
Qed.

Lemma quiet_getPointFromEvent (event : Event num) :
  preserves quiet (getPointFromEvent event).
Proof. unfold getPointFromEvent. preserves_tac quiet_refl quiet_trans. Qed.

Lemma quiet_getOffsetPointFromEvent (event : Event num) :
  preserves quiet (getOffsetPointFromEvent event).
Proof. unfold getOffsetPointFromEvent. preserves_tac quiet_refl quiet_trans. Qed.

Lemma quiet_onPointerDown (event : Event num) :
  preserves quiet (onPointerDown event).
Proof.
  pose proof (quiet_getPointFromEvent event).
  pose proof (quiet_getOffsetPointFromEvent event).
  pose proof quiet_addPoint.
  unfold onPointerDown, cancelEvent. preserves_tac quiet_refl quiet_trans; auto.
Qed.

Lemma quiet_onPointerMove (fuel : nat) (event : Event num) :
  preserves quiet (onPointerMove fuel event).
Proof.
  pose proof (quiet_getPointFromEvent event).
  pose proof quiet_addPoint.
  unfold onPointerMove, cancelEvent. preserves_tac quiet_refl quiet_trans; auto.
Qed.

(* ----------------------------------------------------------------- *)
(** *** The reveal flag over the life of a widget *)

Lemma settled_refl (s : State num) : settled s s.
Proof. intros _. apply calm_refl. Qed.

Lemma settled_trans (s1 s2 s3 : State num) :
  settled s1 s2 -> settled s2 s3 -> settled s1 s3.
Proof.
  intros H12 H23 H1. specialize (H12 H1).
  eapply calm_trans; [exact H12 |]. apply H23. destruct H12 as [Hr _]. congruence.
Qed.

Lemma quiet_settled {A} (c : JS num A) : preserves quiet c -> preserves settled c.
Proof. intros Hc s _. apply Hc. Qed.

(** A reveal check in a revealed state does nothing. *)
Lemma testRevealed_revealed (s : State num) :
  isRevealed s = true -> overlayCanvas s <> None ->
  testRevealed userFn s = (Return tt, s).
Proof.
  intros Hrev Hoc. unfold testRevealed, bind, gets.
  destruct (overlayCanvas s); [| congruence]. rewrite Hrev. reflexivity.
Qed.

Lemma settled_testRevealed : preserves settled (testRevealed userFn).
Proof.
  intros s Hrev.
  destruct (overlayCanvas s) as [overlay |] eqn:Hoc.
  - rewrite testRevealed_revealed by congruence. apply calm_refl.
  - unfold testRevealed, bind, gets, throw. rewrite Hoc. apply calm_refl.
Qed.

Lemma settled_onPointerUp (event : Event num) :
  preserves settled (onPointerUp userFn event).
Proof.
  pose proof settled_testRevealed.
  assert (Hq : forall s s' : State num, quiet s s' -> settled s s')
    by (intros s s' [Hc _] _; exact Hc).
  pose proof settled_refl. pose proof settled_trans.
  unfold onPointerUp, cancelEvent, emit.
  repeat first
    [ preserves_step
    | apply preserves_modify; intros ?; apply Hq; revert s; keeps_field ];
    assumption.
Qed.

Lemma settled_dispatch (fuel : nat) (i : Input num) :
  preserves settled (dispatch drawImage userFn fuel i).
Proof.
  pose proof (fun w c => quiet_settled _ (quiet_onImage w c)).
  pose proof (fun e => quiet_settled _ (quiet_onPointerDown e)).
  pose proof (fun f e => quiet_settled _ (quiet_onPointerMove f e)).
  pose proof settled_onPointerUp.
  pose proof (quiet_settled _ quiet_draw).
  pose proof (quiet_settled _ quiet_onResize).
  assert (Hq : forall s s' : State num, quiet s s' -> settled s s')
    by (intros s s' [Hc _] _; exact Hc).
  pose proof settled_refl. pose proof settled_trans.
  unfold dispatch.
  repeat first
    [ preserves_step
    | apply preserves_modify; intros ?; apply Hq; revert s; keeps_field ];
    auto.
Qed.

Lemma settled_run (fuel : nat) (inputs : list (Input num)) :
  forall s, settled s (run drawImage userFn fuel inputs s).
Proof.
  induction inputs as [| i rest IH]; intros s; cbn [run].
  - apply settled_refl.
  - pose proof (settled_dispatch fuel i s) as Hi.
    destruct (dispatch drawImage userFn fuel i s) as [[[] | msg |] s']; cbn [snd] in Hi;
      try exact Hi; eapply settled_trans; [exact Hi | apply IH | exact Hi | apply IH].
Qed.

(** X23: once the flag is set it stays set, whatever the browser sends and
    however the callback behaves: no input calls the callback again, and a
    reveal check does nothing at all. *)
Theorem revealed_is_final :
  (forall (fuel : nat) (inputs : list (Input num)) (s : State num),
     isRevealed s = true ->
     isRevealed (run drawImage userFn fuel inputs s) = true
     /\ invokes (trace (run drawImage userFn fuel inputs s)) = invokes (trace s))
  /\ (forall (s : State num),
        isRevealed s = true -> overlayCanvas s <> None ->
        testRevealed userFn s = (Return tt, s)).
Proof.
  split.
  - intros fuel inputs s Hrev.
    destruct (settled_run fuel inputs s Hrev) as [Hr Hi]. split; congruence.
  - exact testRevealed_revealed.
Qed.

Section Returning.

Hypothesis userFn_returns : returning userFn.

Lemma calm_reveal_step (s s' : State num) : calm s s' -> reveal_step s s'.
Proof. intros Hc. split; auto. Qed.

Lemma reveal_step_refl (s : State num) : reveal_step s s.
Proof. apply calm_reveal_step, calm_refl. Qed.

Lemma reveal_step_trans (s1 s2 s3 : State num) :
  reveal_step s1 s2 -> reveal_step s2 s3 -> reveal_step s1 s3.
Proof.
  intros [Ha Hb] [Hc Hd]. split.
  - intros H1. specialize (Ha H1). eapply calm_trans; [exact Ha |].
    apply Hc. destruct Ha as [Ha _]. congruence.
  - intros H1. destruct (Hb H1) as [Hcalm | [Hrev Hinv]].
    + destruct Hcalm as [Hr Hi].
      assert (H2 : isRevealed s2 = false) by congruence.
      destruct (Hd H2) as [[Hr' Hi'] | [Hrev' Hinv']].
      * left. split; congruence.
      * right. split; congruence.
    + destruct (Hc Hrev) as [Hr' Hi']. right. split; congruence.
Qed.

Lemma quiet_reveal_step {A} (c : JS num A) :
  preserves quiet c -> preserves reveal_step c.
Proof. intros Hc s. apply calm_reveal_step, Hc. Qed.

Lemma invoke_returns (fn : Fn) (args : list (JSValue num)) (s : State num) :
  invoke userFn fn args s = (Return tt, s).
Proof.
  unfold invoke. destruct fn as [| id]; [reflexivity |].
  now rewrite userFn_returns.
Qed.

Lemma reveal_step_testRevealed : preserves reveal_step (testRevealed userFn).
Proof.
  intros s.
  unfold testRevealed, getImageData, call, bind, gets, emit, modify, ret, throw.
  destruct (overlayCanvas s) as [overlay |]; [| apply reveal_step_refl].
  destruct (isRevealed s) eqn:Hrev; [apply reveal_step_refl |].
  destruct ((width overlay =? 0)%Z || (height overlay =? 0)%Z);
    [apply reveal_step_refl |].
  state_simpl.
  assert (Hscan : forall t : list (Effect num),
             invokes (t ++ [GetImageData (width overlay) (height overlay)])
             = invokes t).
  { intros t. unfold invokes. rewrite count_snoc. cbn. lia. }
  match goal with |- context [if ?b then _ else _] => destruct b end.
  - state_simpl. destruct (revealCallback s); state_simpl;
      try (apply calm_reveal_step; split; state_simpl; [congruence | apply Hscan]).
    rewrite invoke_returns.
    split; [congruence |]. intros _. right. state_simpl. split; [reflexivity |].
    unfold invokes. rewrite !count_snoc. cbn. lia.
  - apply calm_reveal_step; split; state_simpl; [congruence | apply Hscan].
Qed.

Lemma reveal_step_onPointerUp (event : Event num) :
  preserves reveal_step (onPointerUp userFn event).
Proof.
  pose proof reveal_step_testRevealed.
  assert (Hq : forall s s' : State num, quiet s s' -> reveal_step s s')
    by (intros s s' [Hc _]; now apply calm_reveal_step).
  pose proof reveal_step_refl. pose proof reveal_step_trans.
  unfold onPointerUp, cancelEvent, emit.
  repeat first
    [ preserves_step
    | apply preserves_modify; intros ?; apply Hq; revert s; keeps_field ];
    assumption.
Qed.

Lemma reveal_step_dispatch (fuel : nat) (i : Input num) :
  preserves reveal_step (dispatch drawImage userFn fuel i).
Proof.
  pose proof (fun w c => quiet_reveal_step _ (quiet_onImage w c)).
  pose proof (fun e => quiet_reveal_step _ (quiet_onPointerDown e)).
  pose proof (fun f e => quiet_reveal_step _ (quiet_onPointerMove f e)).
  pose proof reveal_step_onPointerUp.
  pose proof (quiet_reveal_step _ quiet_draw).
  pose proof (quiet_reveal_step _ quiet_onResize).
  assert (Hq : forall s s' : State num, quiet s s' -> reveal_step s s')
    by (intros s s' [Hc _]; now apply calm_reveal_step).
  pose proof reveal_step_refl. pose proof reveal_step_trans.
  unfold dispatch.
  repeat first
    [ preserves_step
    | apply preserves_modify; intros ?; apply Hq; revert s; keeps_field ];
    auto.
Qed.

Lemma reveal_step_run (fuel : nat) (inputs : list (Input num)) :
  forall s, reveal_step s (run drawImage userFn fuel inputs s).
Proof.
  induction inputs as [| i rest IH]; intros s; cbn [run].
  - apply reveal_step_refl.
  - pose proof (reveal_step_dispatch fuel i s) as Hi.
    destruct (dispatch drawImage userFn fuel i s) as [[[] | msg |] s']; cbn [snd] in Hi;
      try exact Hi; eapply reveal_step_trans; [exact Hi | apply IH | exact Hi | apply IH].
Qed.

Lemma reveal_step_lifetime (fuel : nat) (d : Dom num)
    (arguments : list (JSValue num)) (inputs : list (Input num)) :
  let s := lifetime StringToNumber drawImage userFn fuel d arguments inputs in
  invokes (trace s) = (if isRevealed s then 1 else 0)%nat.
Proof.
  unfold lifetime, ScratchIt.
  pose proof (calm_construct arguments (initial d)) as [Hr Hi].
  destruct (construct StringToNumber arguments (initial d)) as [[[] | msg |] s0];
    cbn [snd] in Hr, Hi; cbn [initial isRevealed trace] in Hr, Hi;
    try (cbv zeta; rewrite Hi, Hr; reflexivity).
  cbv zeta. destruct (reveal_step_run fuel inputs s0) as [_ Hs].
  destruct (Hs Hr) as [[Hf Hc] | [Hf Hc]]; rewrite Hc, Hi, Hf, ?Hr; reflexivity.
Qed.

End Returning.


(* ----------------------------------------------------------------- *)
(** *** Pointer-up and the paint queue *)

Lemma undrawn_testRevealed : preserves undrawn (testRevealed userFn).
Proof.
  unfold testRevealed, getImageData, call.
  preserves_tac undrawn_refl undrawn_trans.
Qed.

(** Neither the handler of pointer-up nor the reveal check touches the
    paint queue or the overlay, or stamps anything. *)
Lemma undrawn_onPointerUp (event : Event num) :
  preserves undrawn (onPointerUp userFn event).
Proof.
  pose proof undrawn_testRevealed.
  unfold onPointerUp, cancelEvent.
  preserves_tac undrawn_refl undrawn_trans; assumption.
Qed.

(** What the reveal check of a widget not yet revealed leaves in the
    trace, however the callback ends: the scan, and the call when the
    threshold is reached. *)
Lemma testRevealed_trace (s : State num) (overlay : Canvas) :
  overlayCanvas s = Some overlay ->
  isRevealed s = false ->
  width overlay <> 0%Z -> height overlay <> 0%Z ->
  trace (snd (testRevealed userFn s))
  = trace s
    ++ GetImageData (width overlay) (height overlay)
       :: (if geb (mul (div (of_Z (countVisible (data overlay)))
                            (mul (of_Z (width overlay)) (of_Z (height overlay))))
                       (of_Z 100))
                  (revealThreshold s)
           then match revealCallback s with
                | VFunction f => [Invoke f []]
                | _ => []
                end
           else []).
Proof.
  intros Hoc Hrev Hw Hh.
  unfold testRevealed, getImageData, bind, gets, emit, modify, ret, call, throw.
  rewrite Hoc, Hrev.
  apply Z.eqb_neq in Hw, Hh. rewrite Hw, Hh. cbn [orb]. state_simpl.
  destruct (geb _ (revealThreshold s)); [| reflexivity].
  state_simpl.
  destruct (revealCallback s) as [| | | | | f |]; try reflexivity.
  unfold invoke, bind, emit, modify. state_simpl.
  match goal with
  | |- context [match f with NoopFn => _ | UserFn id => userFn id [] ?u end] =>
      destruct (match f with NoopFn => Return tt | UserFn id => userFn id [] u end)
        as [[] | msg |]
  end; cbn [snd]; state_simpl; rewrite <- app_assoc; reflexivity.
Qed.

(* ----------------------------------------------------------------- *)
(** *** A threshold that is NaN *)

Section NaNThreshold.

Context `{!NumberNaN num}.

Lemma quiet_if_NaN_refl (s : State num) : quiet_if_NaN s s.
Proof. intros _. apply quiet_refl. Qed.

Lemma quiet_if_NaN_trans (s1 s2 s3 : State num) :
  quiet_if_NaN s1 s2 -> quiet_if_NaN s2 s3 -> quiet_if_NaN s1 s3.
Proof.
  intros H12 H23 Hnan. specialize (H12 Hnan).
  eapply quiet_trans; [exact H12 |]. apply H23.
  destruct H12 as [_ Ht]. unfold same_threshold in Ht. congruence.
Qed.

Lemma quiet_quiet_if_NaN {A} (c : JS num A) :
  preserves quiet c -> preserves quiet_if_NaN c.
Proof. intros Hc s _. apply Hc. Qed.

Lemma geb_NaN (e threshold : num) : isNaN threshold = true -> geb e threshold = false.
Proof. intros Hnan. unfold geb. now apply leb_NaN_l. Qed.

Lemma quiet_if_NaN_testRevealed : preserves quiet_if_NaN (testRevealed userFn).
Proof.
  intros s Hnan.
  unfold testRevealed, getImageData, call, bind, gets, emit, modify, ret, throw.
  destruct (overlayCanvas s) as [overlay |]; [| apply quiet_refl].
  destruct (isRevealed s) eqn:Hrev; [apply quiet_refl |].
  destruct ((width overlay =? 0)%Z || (height overlay =? 0)%Z);
    [apply quiet_refl |].
  state_simpl. rewrite (geb_NaN _ _ Hnan). state_simpl.
  unfold quiet, calm, same_threshold, invokes. state_simpl.
  rewrite count_snoc. cbn. repeat split; try congruence; lia.
Qed.

Lemma quiet_if_NaN_onPointerUp (event : Event num) :
  preserves quiet_if_NaN (onPointerUp userFn event).
Proof.
  pose proof quiet_if_NaN_testRevealed.
  pose proof quiet_if_NaN_refl. pose proof quiet_if_NaN_trans.
  unfold onPointerUp, cancelEvent, emit.
  repeat first
    [ preserves_step
    | apply preserves_modify; intros ? _; revert s; keeps_field ];
    assumption.
Qed.

Lemma quiet_if_NaN_dispatch (fuel : nat) (i : Input num) :
  preserves quiet_if_NaN (dispatch drawImage userFn fuel i).
Proof.
  pose proof (fun w c => quiet_quiet_if_NaN _ (quiet_onImage w c)).
  pose proof (fun e => quiet_quiet_if_NaN _ (quiet_onPointerDown e)).
  pose proof (fun f e => quiet_quiet_if_NaN _ (quiet_onPointerMove f e)).
  pose proof quiet_if_NaN_onPointerUp.
  pose proof (quiet_quiet_if_NaN _ quiet_draw).
  pose proof (quiet_quiet_if_NaN _ quiet_onResize).
  pose proof quiet_if_NaN_refl. pose proof quiet_if_NaN_trans.
  unfold dispatch.
  repeat first
    [ preserves_step
    | apply preserves_modify; intros ? _; revert s; keeps_field ];
    auto.
Qed.

Lemma quiet_if_NaN_run (fuel : nat) (inputs : list (Input num)) :
  forall s, quiet_if_NaN s (run drawImage userFn fuel inputs s).
Proof.
  induction inputs as [| i rest IH]; intros s; cbn [run].
  - apply quiet_if_NaN_refl.
  - pose proof (quiet_if_NaN_dispatch fuel i s) as Hi.
    destruct (dispatch drawImage userFn fuel i s) as [[[] | msg |] s']; cbn [snd] in Hi;
      try exact Hi; eapply quiet_if_NaN_trans; [exact Hi | apply IH | exact Hi | apply IH].
Qed.

(** Past its three checks the constructor returns, with the callback and
    the threshold stored. *)
Lemma construct_returns (d : Dom num) (arguments : list (JSValue num)) :
  isDomElement d (nth 0 arguments VUndefined) = true ->
  typeof (callback_argument arguments) = TFunction ->
  ltb (threshold_argument StringToNumber arguments) (of_Z 0) = false ->
  gtb (threshold_argument StringToNumber arguments) (of_Z 100) = false ->
  exists s0,
    ScratchIt StringToNumber d arguments = (Return tt, s0)
    /\ revealThreshold s0 = threshold_argument StringToNumber arguments
    /\ revealCallback s0 = callback_argument arguments
    /\ isRevealed s0 = false
    /\ invokes (trace s0) = 0%nat.
Proof.
  intros Hel Hcb Hlo Hhi.
  unfold ScratchIt, construct, bind, modify, gets, throw, initial. state_simpl.
  rewrite Hel, Hcb, Hlo, Hhi. cbn [negb orb TypeOf_eqb].
  unfold getCanvasFromImage, onImage, onCanvasLoaded, bind, modify, gets, emit, ret.
  destruct (nth 1 arguments VUndefined); destruct (nth 2 arguments VUndefined);
    state_simpl; cbn [andb negb]; eexists; (split; [reflexivity |]);
    state_simpl; repeat split; reflexivity.
Qed.

(** C9: a threshold argument that the constructor's [arguments[4]*1] turns
    into NaN passes the range check (both comparisons are false): the
    constructor returns and stores NaN as the threshold.  From then on the
    comparison [erasedFraction >= threshold] is false whatever was erased,
    and over the whole life of the widget the callback is never called and
    the widget never counts as revealed. *)
Theorem NaN_threshold_never_reveals (d : Dom num) (arguments : list (JSValue num)) :
  isDomElement d (nth 0 arguments VUndefined) = true ->
  typeof (callback_argument arguments) = TFunction ->
  isNaN (threshold_argument StringToNumber arguments) = true ->
  ltb (threshold_argument StringToNumber arguments) (of_Z 0) = false
  /\ gtb (threshold_argument StringToNumber arguments) (of_Z 100) = false
  /\ exists s0,
    ScratchIt StringToNumber d arguments = (Return tt, s0)
    /\ revealThreshold s0 = threshold_argument StringToNumber arguments
    /\ (forall erasedFraction, geb erasedFraction (revealThreshold s0) = false)
    /\ (forall (fuel : nat) (inputs : list (Input num)),
          invokes (trace (run drawImage userFn fuel inputs s0)) = 0%nat
          /\ isRevealed (run drawImage userFn fuel inputs s0) = false).
Proof.
  intros Hel Hcb Hnan.
  assert (Hlo : ltb (threshold_argument StringToNumber arguments) (of_Z 0) = false)
    by now apply ltb_NaN_l.
  assert (Hhi : gtb (threshold_argument StringToNumber arguments) (of_Z 100) = false)
    by (unfold gtb; now apply ltb_NaN_r).
  split; [exact Hlo |]. split; [exact Hhi |].
  destruct (construct_returns d arguments Hel Hcb Hlo Hhi)
    as (s0 & Hs0 & Ht & _ & Hrev & Hinv).
  - exists s0. split; [exact Hs0 |]. split; [exact Ht |]. split.
    + intros e. apply geb_NaN. now rewrite Ht.
    + intros fuel inputs.
      destruct (quiet_if_NaN_run fuel inputs s0) as [[Hr Hi] _];
        [now rewrite Ht |]. split; congruence.
Qed.

End NaNThreshold.

End Facts.

(* ================================================================= *)
(** ** Facts about the widget over binary64 *)

Module Binary64Facts.

Local Open Scope float_scope.

Lemma SFcompare_refl (s : spec_float) :
  s <> S754_nan -> SFcompare s s = Some Eq.
Proof.
  destruct s as [sg| sg | | sg m e]; intros Hs; try congruence.
  - now destruct sg.
  - now destruct sg.
  - cbn. rewrite Z.compare_refl.
    destruct sg; cbn; now rewrite Pos.compare_cont_refl.
Qed.

Lemma is_nan_Prim2SF (a : float) :
  is_nan a = true -> Prim2SF a = S754_nan.
Proof.
  unfold is_nan. rewrite FloatAxioms.eqb_spec. unfold SFeqb. intros Ha.
  destruct (Prim2SF a) eqn:E; try reflexivity;
    rewrite SFcompare_refl in Ha by congruence; discriminate.
Qed.

Lemma SFcompare_nan_r (s : spec_float) : SFcompare s S754_nan = None.
Proof. destruct s as [sg| sg | | sg m e]; try reflexivity; now destruct sg. Qed.

#[global] Instance float_NumberNaN : NumberNaN float.
Proof.
  split; cbn.
  - reflexivity.
  - intros a b Ha. rewrite FloatAxioms.ltb_spec, (is_nan_Prim2SF _ Ha). reflexivity.
  - intros a b Hb. rewrite FloatAxioms.ltb_spec, (is_nan_Prim2SF _ Hb).
    unfold SFltb. now rewrite SFcompare_nan_r.
  - intros a b Ha. rewrite FloatAxioms.leb_spec, (is_nan_Prim2SF _ Ha). reflexivity.
  - intros a b Hb. rewrite FloatAxioms.leb_spec, (is_nan_Prim2SF _ Hb).
    unfold SFleb. now rewrite SFcompare_nan_r.
Qed.

(** C10 on an example: a move over the fresh closure. *)
Lemma onPointerMove_not_down_witness :
  isPointerDown (initial Example.page) = false
  /\ onPointerMove 0 (Example.mouse 10 10 5 5) (initial Example.page)
     = (Return tt, initial Example.page).
Proof.
  split; [reflexivity |].
  apply onPointerMove_not_down_is_noop. reflexivity.
Defined.

(** C7 on an example: a threshold of 150. *)
Lemma construct_fails_fast_witness :
  gtb (threshold_argument Example.StringToNumber (Example.arguments_with (VNumber 150)))
      (of_Z 100) = true
  /\ exists msg,
       ScratchIt Example.StringToNumber Example.page (Example.arguments_with (VNumber 150))
       = (Throw msg, set_parentEl Example.div_element (initial Example.page)).
Proof.
  split; [reflexivity |].
  apply (construct_fails_fast Example.StringToNumber Example.page
           (Example.arguments_with (VNumber 150))).
  right. right. right. reflexivity.
Defined.


(* ----------------------------------------------------------------- *)
(** *** Fifty pixels with a brush ten wide *)

Lemma ten_segments (i : Z) :
  (1 <= i < 10)%Z -> ltb (of_Z i) (ceil (div 50 (10 / 2))) = true.
Proof.
  intros Hi.
  assert (Hcases : i = 1%Z \/ i = 2%Z \/ i = 3%Z \/ i = 4%Z \/ i = 5%Z
                   \/ i = 6%Z \/ i = 7%Z \/ i = 8%Z \/ i = 9%Z) by lia.
  repeat (destruct Hcases as [-> | Hcases]; [reflexivity |]). now subst.
Qed.

(** C1 as amended, on an example: from the origin to (50, 0) with a brush
    ten wide. *)
Lemma addPoint_tween_witness :
  lastPoint Example.dragging = Some {| x := 0; y := 0 |}
  /\ gtb (distance {| x := 0; y := 0 |} Example.far_point)
         (minPointDist Example.dragging) = true
  /\ exists s',
       addPoint 9 Example.far_point true Example.dragging = (Return tt, s')
       /\ paintQueue s'
          = paintQueue Example.dragging
            ++ [ {| x := 45; y := 0 |}; {| x := 40; y := 0 |}; {| x := 35; y := 0 |};
                 {| x := 30; y := 0 |}; {| x := 25; y := 0 |}; {| x := 20; y := 0 |};
                 {| x := 15; y := 0 |}; {| x := 10; y := 0 |}; {| x := 5; y := 0 |} ]
            ++ [Example.far_point]
       /\ lastPoint s' = Some Example.far_point.
Proof.
  split; [reflexivity |]. split; [reflexivity |].
  assert (Hfar : gtb (distance {| x := 0; y := 0 |} Example.far_point)
                     (minPointDist Example.dragging) = true) by reflexivity.
  assert (Hend : ltb (of_Z (Z.of_nat 10))
                     (ceil (div (distance {| x := 0; y := 0 |} Example.far_point)
                                (minPointDist Example.dragging))) = false)
    by reflexivity.
  destruct (addPoint_tween 9 Example.far_point Example.dragging {| x := 0; y := 0 |} 10
              eq_refl Hfar ten_segments Hend
              (proj1 (Nat.leb_le 1 10) (eq_refl true))
              (proj1 (Nat.leb_le 9 9) (eq_refl true)))
    as (s' & Hrun & Hqueue & _ & _ & Hlast & _).
  exists s'. split; [exact Hrun |]. split; [exact Hqueue | exact Hlast].
Defined.

(** C1 as stated fails on the order: from the origin to (50, 0) the
    specification enqueues 5, 10, ..., 45 and then 50; the code enqueues
    45, 40, ..., 5 and then 50. *)
Lemma addPoint_order_counterexample :
  let s := Example.dragging in
  let last := {| x := 0; y := 0 |} in
  let numSegments := ceil (div (distance last Example.far_point) (minPointDist s)) in
  lastPoint s = Some last
  /\ gtb (distance last Example.far_point) (minPointDist s) = true
  /\ numSegments = 10
  /\ map x (from_lastPoint_toward_point last Example.far_point numSegments 10)
     = [5; 10; 15; 20; 25; 30; 35; 40; 45]
  /\ map x (paintQueue (snd (addPoint 9 Example.far_point true s)))
     = [0; 45; 40; 35; 30; 25; 20; 15; 10; 5; 50]
  /\ paintQueue (snd (addPoint 9 Example.far_point true s))
     <> paintQueue s
        ++ from_lastPoint_toward_point last Example.far_point numSegments 10
        ++ [rounded Example.far_point].
Proof.
  cbv zeta. repeat (split; [reflexivity |]).
  intros Heq.
  apply (f_equal (fun q => match q with
                           | _ :: p :: _ => PrimFloat.eqb (x p) 45
                           | _ => false
                           end)) in Heq.
  vm_compute in Heq. discriminate.
Qed.

(** C2 as stated fails: the queue [(0,0)] is spaced within
    [minPointDist] (and any slack); after the move to (50, 0) its second
    element is (45, 0), 45 away from the first, and its last two are (5, 0)
    and (50, 0), again 45 apart, where [minPointDist] is 5 and rounding
    moves a point by less than one pixel. *)
Lemma spacing_counterexample :
  let s := Example.dragging in
  let s' := snd (addPoint 9 Example.far_point true s) in
  let slack := 2 in
  minPointDist s = 5
  /\ spaced (add (minPointDist s) slack) (paintQueue s) = true
  /\ spaced (add (minPointDist s) slack) (paintQueue s') = false
  /\ map x (paintQueue s') = [0; 45; 40; 35; 30; 25; 20; 15; 10; 5; 50]
  /\ map (fun p => distance {| x := 0; y := 0 |} p) (firstn 2 (paintQueue s')) = [0; 45]
  /\ map (fun p => distance Example.far_point p) (skipn 9 (paintQueue s')) = [45; 0].
Proof. cbv zeta. repeat split; reflexivity. Qed.

(** With a brush of width zero the loop is still running after a thousand
    iterations. *)
Lemma zero_width_brush_example :
  fst (addPoint 1000 Example.far_point true
         (set_minPointDist (div (of_Z 0) (of_Z 2)) Example.dragging))
  = Diverge.
Proof. reflexivity. Qed.

(* ----------------------------------------------------------------- *)
(** *** A threshold of one hundred, in binary64 *)

(** The quotient of two pixel counts that is below one is at most the
    largest binary64 number below one, [1 - 2^-53]; multiplied by 100 even
    that one stays below 100, so the comparison with a threshold of 100
    fails. *)
Lemma largest_fraction_below_100 :
  next_down 1 = div (of_Z (2 ^ 53 - 1)) (of_Z (2 ^ 53))
  /\ ltb (mul (next_down 1) (of_Z 100)) (of_Z 100) = true
  /\ geb (mul (next_down 1) (of_Z 100)) (of_Z 100) = false.
Proof. repeat split; reflexivity. Qed.

(* ----------------------------------------------------------------- *)
(** *** Pointer-up before the frame *)

(** C8 as stated fails: after a pointer-down the point is in the queue; a
    pointer-up that comes before the next frame reads the alpha channel
    (one more scan in the trace) with the point still queued and nothing
    stamped.  Read so, the overlay is opaque and the callback is not called,
    although the frame that follows erases the pixel; had the frame come
    first, the same pointer-up would have called it. *)
Lemma pointer_up_scans_undrained_counterexample :
  let s' := snd (onPointerUp Example.polite Example.press Example.pressed) in
  paintQueue Example.pressed = [{| x := 0; y := 0 |}]
  /\ scans (trace s') = S (scans (trace Example.pressed))
  /\ paintQueue s' = [{| x := 0; y := 0 |}]
  /\ draws (trace s') = 0%nat
  /\ invokes
       (trace (run Example.covering_brush Example.polite 0 [PointerUp Example.press; AnimationFrame] Example.pressed))
     = 0%nat
  /\ option_map data
       (overlayCanvas
          (run Example.covering_brush Example.polite 0 [PointerUp Example.press; AnimationFrame] Example.pressed))
     = Some [0; 0; 0; 0]%Z
  /\ invokes
       (trace (run Example.covering_brush Example.polite 0 [AnimationFrame; PointerUp Example.press] Example.pressed))
     = 1%nat.
Proof. cbv zeta. repeat split; reflexivity. Qed.

(** C9 on an example: the string "abc" as threshold. *)
Lemma NaN_threshold_never_reveals_witness :
  isNaN (threshold_argument Example.StringToNumber
           (Example.arguments_with (VString "abc"))) = true
  /\ ltb (threshold_argument Example.StringToNumber
            (Example.arguments_with (VString "abc"))) (of_Z 0) = false
  /\ gtb (threshold_argument Example.StringToNumber
            (Example.arguments_with (VString "abc"))) (of_Z 100) = false
  /\ exists s0,
       ScratchIt Example.StringToNumber Example.page
         (Example.arguments_with (VString "abc")) = (Return tt, s0)
       /\ revealThreshold s0
          = threshold_argument Example.StringToNumber
              (Example.arguments_with (VString "abc"))
       /\ (forall erasedFraction, geb erasedFraction (revealThreshold s0) = false)
       /\ (forall (fuel : nat) (inputs : list (Input float)),
             invokes (trace (run Example.covering_brush Example.polite fuel inputs s0)) = 0%nat
             /\ isRevealed (run Example.covering_brush Example.polite fuel inputs s0) = false).
Proof.
  split; [reflexivity |].
  exact (NaN_threshold_never_reveals Example.StringToNumber Example.covering_brush
           Example.polite Example.page (Example.arguments_with (VString "abc"))
           eq_refl eq_refl eq_refl).
Defined.

End Binary64Facts.


(* ================================================================= *)
(** ** Fifty pixels with a brush ten wide *)

(** C6: with a brush ten pixels wide ([minPointDist] is then 10 / 2 = 5),
    a point whose distance from [lastPoint], as the code computes it, is
    50 makes [addPoint] divide the move into [ceil(50 / 5) = 10] segments
    and enqueue exactly nine points before the point itself: the points
    [point + i * (lastPoint - point) / 10] for [i = 1 .. 9], rounded, in
    that order. *)
Theorem fifty_apart_inserts_nine
    (fuel : nat) (point last : Point float) (brush : Canvas) (s : State float) :
  brushCanvas s = Some brush ->
  width brush = 10%Z ->
  minPointDist s = div (of_Z (width brush)) (of_Z 2) ->
  lastPoint s = Some last ->
  distance last point = of_Z 50 ->
  (9 <= fuel)%nat ->
  let dx := div (sub (x last) (x point)) (of_Z 10) in
  let dy := div (sub (y last) (y point)) (of_Z 10) in
  let interior :=
    map (tween_point point dx dy) [1; 2; 3; 4; 5; 6; 7; 8; 9]%Z in
  minPointDist s = of_Z 5
  /\ ceil (div (distance last point) (minPointDist s)) = of_Z 10
  /\ List.length interior = 9%nat
  /\ addPoint fuel point true s
     = (Return tt,
        set_paintQueue (paintQueue s ++ interior ++ [rounded point])
          (set_lastPoint (Some (rounded point)) s)).
Proof.
  intros _ Hw Hm Hlast Hdist Hfuel dx dy interior.
  rewrite Hw in Hm.
  split; [rewrite Hm; reflexivity |].
  split; [rewrite Hdist, Hm; reflexivity |].
  split; [reflexivity |].
  unfold distance in Hdist.
  rewrite (addPoint_far fuel point s last 10 Hlast).
  - rewrite Hdist, Hm.
    change (ceil (div (of_Z 50) (div (of_Z 10) (of_Z 2)))) with (of_Z 10 : float).
    reflexivity.
  - rewrite Hdist, Hm. reflexivity.
  - intros i Hi. rewrite Hdist, Hm. now apply Binary64Facts.ten_segments.
  - rewrite Hdist, Hm. reflexivity.
  - lia.
  - exact Hfuel.
Qed.

(** C6 on an example: from the origin to (30, 40). *)
Lemma fifty_apart_inserts_nine_witness :
  let brush := {| width := 10; height := 10; data := [] |} in
  let s := set_brushCanvas (Some brush) Example.dragging in
  let point := {| x := 30%float; y := 40%float |} in
  distance {| x := 0%float; y := 0%float |} point = 50%float
  /\ addPoint 9 point true s
     = (Return tt,
        set_paintQueue
          (paintQueue s
           ++ [ {| x := 27; y := 36 |}; {| x := 24; y := 32 |};
                {| x := 21; y := 28 |}; {| x := 18; y := 24 |};
                {| x := 15; y := 20 |}; {| x := 12; y := 16 |};
                {| x := 9; y := 12 |}; {| x := 6; y := 8 |};
                {| x := 3; y := 4 |} ]%float
           ++ [point])
          (set_lastPoint (Some point) s)).
Proof.
  cbv zeta. split; [reflexivity |].
  refine (proj2 (proj2 (proj2
    (fifty_apart_inserts_nine 9 {| x := 30%float; y := 40%float |}
       {| x := 0%float; y := 0%float |}
       {| width := 10; height := 10; data := [] |}
       (set_brushCanvas (Some {| width := 10; height := 10; data := [] |})
          Example.dragging)
       eq_refl eq_refl eq_refl eq_refl eq_refl _)))).
  apply Nat.leb_le. reflexivity.
Defined.

(* ================================================================= *)
(** ** More facts about the widget, over any arithmetic *)

(** One step along the structure of a handler. *)
Ltac follow_handler :=
  match goal with
  | |- preserves _ (bind _ _) => apply preserves_bind; [assumption | | intros ?]
  | |- preserves _ (ret _) => apply preserves_ret; assumption
  | |- preserves _ (throw _) => apply preserves_throw; assumption
  | |- preserves _ diverge => apply preserves_diverge; assumption
  | |- preserves _ (gets _) => apply preserves_gets; assumption
  | |- preserves _ (invoke _ _ _) => apply preserves_invoke; assumption
  | |- preserves _ (if ?b then _ else _) => destruct b
  | |- preserves _ (match ?v with _ => _ end) => destruct v
  end.

Section MoreFacts.

Context {num : Type} `{Number num}.
Variable StringToNumber : string -> num.
Variable drawImage : Canvas -> Canvas -> num -> num -> Canvas.
Variable userFn : nat -> list (JSValue num) -> State num -> Outcome unit.

Lemma keeps_refl {A} (f : State num -> A) (s : State num) : keeps f s s.
Proof. reflexivity. Qed.

Lemma keeps_trans {A} (f : State num -> A) (s1 s2 s3 : State num) :
  keeps f s1 s2 -> keeps f s2 s3 -> keeps f s1 s3.
Proof. unfold keeps. congruence. Qed.

(** An assignment to another variable, or a call that is not counted, keeps
    the fields at hand. *)
Ltac keeps_assignment :=
  apply preserves_modify; intros ?;
  unfold keeps, init_fields, loaded_fields, session_fields, anchor_fields,
    reveal_fields, registrations, cancellations, console_errors, draws, scans,
    invokes;
  state_simpl; rewrite ?count_snoc;
  cbn [is_AddEventListeners is_CancelEvent is_ConsoleError is_DrawImage
       is_GetImageData is_Invoke];
  rewrite ?Nat.add_0_r; reflexivity.

Ltac keeps_tac f :=
  pose proof (keeps_refl f); pose proof (keeps_trans f);
  repeat first [ follow_handler | keeps_assignment | unfold emit; keeps_assignment ].

(* ----------------------------------------------------------------- *)
(** *** What the handlers leave alone *)

Lemma init_onResize : preserves (keeps init_fields) onResize.
Proof. unfold onResize. keeps_tac (@init_fields num). Qed.

Lemma init_tween_loop (numSegments : num) (point : Point num) (dx dy : num) :
  forall (fuel : nat) (i : Z),
  preserves (keeps init_fields) (tween_loop fuel i numSegments point dx dy).
Proof.
  induction fuel as [| fuel IH]; intros i; cbn [tween_loop]; unfold push.
  - keeps_tac (@init_fields num).
  - pose proof (IH (i + 1)%Z). keeps_tac (@init_fields num); assumption.
Qed.

Lemma init_addPoint (fuel : nat) (point : Point num) (tween : bool) :
  preserves (keeps init_fields) (addPoint fuel point tween).
Proof.
  pose proof init_tween_loop.
  unfold addPoint, push. keeps_tac (@init_fields num); auto.
Qed.

Lemma init_getPointFromEvent (event : Event num) :
  preserves (keeps init_fields) (getPointFromEvent event).
Proof. unfold getPointFromEvent. keeps_tac (@init_fields num). Qed.

Lemma init_getOffsetPointFromEvent (event : Event num) :
  preserves (keeps init_fields) (getOffsetPointFromEvent event).
Proof. unfold getOffsetPointFromEvent. keeps_tac (@init_fields num). Qed.

Lemma init_onPointerDown (event : Event num) :
  preserves (keeps init_fields) (onPointerDown event).
Proof.
  pose proof (init_getPointFromEvent event).
  pose proof (init_getOffsetPointFromEvent event).
  pose proof init_addPoint.
  unfold onPointerDown, cancelEvent. keeps_tac (@init_fields num); auto.
Qed.

Lemma init_onPointerMove (fuel : nat) (event : Event num) :
  preserves (keeps init_fields) (onPointerMove fuel event).
Proof.
  pose proof (init_getPointFromEvent event).
  pose proof init_addPoint.
  unfold onPointerMove, cancelEvent. keeps_tac (@init_fields num); auto.
Qed.

Lemma init_testRevealed : preserves (keeps init_fields) (testRevealed userFn).
Proof.
  unfold testRevealed, getImageData, call. keeps_tac (@init_fields num).
Qed.

Lemma init_onPointerUp (event : Event num) :
  preserves (keeps init_fields) (onPointerUp userFn event).
Proof.
  pose proof init_testRevealed.
  unfold onPointerUp, cancelEvent. keeps_tac (@init_fields num); auto.
Qed.

Lemma session_onResize : preserves (keeps session_fields) onResize.
Proof. unfold onResize. keeps_tac (@session_fields num). Qed.

Lemma session_testRevealed : preserves (keeps session_fields) (testRevealed userFn).
Proof.
  unfold testRevealed, getImageData, call. keeps_tac (@session_fields num).
Qed.

Lemma session_stamp (point : Point num) :
  preserves (keeps session_fields) (stamp drawImage point).
Proof. unfold stamp. keeps_tac (@session_fields num). Qed.

Lemma session_drain (queue : list (Point num)) :
  preserves (keeps session_fields) (drain drawImage queue).
Proof.
  induction queue as [| point rest IH]; cbn [drain].
  - keeps_tac (@session_fields num).
  - pose proof (session_stamp point). keeps_tac (@session_fields num); auto.
Qed.

Lemma session_draw : preserves (keeps session_fields) (draw drawImage).
Proof.
  pose proof session_drain.
  unfold draw. keeps_tac (@session_fields num); auto.
Qed.

Lemma anchor_tween_loop (numSegments : num) (point : Point num) (dx dy : num) :
  forall (fuel : nat) (i : Z),
  preserves (keeps anchor_fields) (tween_loop fuel i numSegments point dx dy).
Proof.
  induction fuel as [| fuel IH]; intros i; cbn [tween_loop]; unfold push.
  - keeps_tac (@anchor_fields num).
  - pose proof (IH (i + 1)%Z). keeps_tac (@anchor_fields num); assumption.
Qed.

Lemma anchor_addPoint (fuel : nat) (point : Point num) (tween : bool) :
  preserves (keeps anchor_fields) (addPoint fuel point tween).
Proof.
  pose proof anchor_tween_loop.
  unfold addPoint, push. keeps_tac (@anchor_fields num); auto.
Qed.

Lemma anchor_getPointFromEvent (event : Event num) :
  preserves (keeps anchor_fields) (getPointFromEvent event).
Proof. unfold getPointFromEvent. keeps_tac (@anchor_fields num). Qed.

(* ----------------------------------------------------------------- *)
(** *** draw *)

(** The loop of [draw] over [queue], on a widget whose canvases are in and
    whose brush is not empty. *)
Lemma drain_runs (brush : Canvas) (queue : list (Point num)) :
  width brush <> 0%Z -> height brush <> 0%Z ->
  forall (s : State num) (overlay : Canvas),
  overlayCanvas s = Some overlay ->
  brushCanvas s = Some brush ->
  fst (drain drawImage queue s) = Return tt
  /\ overlayCanvas (snd (drain drawImage queue s))
     = Some (stamped drawImage overlay brush queue)
  /\ brushCanvas (snd (drain drawImage queue s)) = Some brush
  /\ trace (snd (drain drawImage queue s))
     = trace s
       ++ map (fun p => DrawImage (stamp_x brush p) (stamp_y brush p)) queue
  /\ paintQueue (snd (drain drawImage queue s))
     = match queue with [] => paintQueue s | _ => [] end.
Proof.
  intros Hw Hh. apply Z.eqb_neq in Hw, Hh.
  induction queue as [| point rest IH]; intros s overlay Hoc Hbc.
  - cbn. rewrite app_nil_r. auto.
  - set (s1 := set_overlayCanvas
                  (Some (drawImage overlay brush (stamp_x brush point)
                           (stamp_y brush point)))
                  (set_trace
                     (trace s ++ [DrawImage (stamp_x brush point)
                                            (stamp_y brush point)])
                     (set_paintQueue rest s))).
    assert (Hstep : drain drawImage (point :: rest) s = drain drawImage rest s1).
    { cbn [drain]. unfold bind at 1. unfold modify at 1.
      unfold bind at 1. unfold stamp at 1.
      unfold bind at 1. unfold gets at 1. state_simpl.
      unfold bind at 1. unfold gets at 1. state_simpl.
      rewrite Hoc, Hbc, Hw, Hh. cbn [orb].
      unfold bind at 1. unfold emit at 1, modify at 1. unfold modify at 1.
      reflexivity. }
    rewrite Hstep.
    destruct (IH s1 (drawImage overlay brush (stamp_x brush point)
                       (stamp_y brush point)) eq_refl Hbc)
      as (Ho & Hov & Hbr & Htr & Hpq).
    repeat split.
    + exact Ho.
    + exact Hov.
    + exact Hbr.
    + rewrite Htr. unfold s1. state_simpl. rewrite <- app_assoc. reflexivity.
    + rewrite Hpq. unfold s1. state_simpl. now destruct rest.
Qed.

(** With an empty brush the loop throws at the first point it takes off
    the queue. *)
Lemma drain_throws (brush overlay : Canvas) (point : Point num)
    (rest : list (Point num)) (s : State num) :
  overlayCanvas s = Some overlay ->
  brushCanvas s = Some brush ->
  width brush = 0%Z \/ height brush = 0%Z ->
  drain drawImage (point :: rest) s
  = (Throw "InvalidStateError", set_paintQueue rest s).
Proof.
  intros Hoc Hbc Hempty.
  assert (Hz : (width brush =? 0)%Z || (height brush =? 0)%Z = true).
  { destruct Hempty as [-> | ->]; [reflexivity | apply orb_true_r]. }
  cbn [drain]. unfold bind at 1. unfold modify at 1.
  unfold bind at 1. unfold stamp at 1.
  unfold bind at 1. unfold gets at 1. state_simpl.
  unfold bind at 1. unfold gets at 1. state_simpl.
  rewrite Hoc, Hbc, Hz. reflexivity.
Qed.

(** [draw] on a widget whose canvases are in and whose brush is not
    empty. *)
Lemma draw_runs (s : State num) (overlay brush : Canvas) :
  overlayCanvas s = Some overlay ->
  brushCanvas s = Some brush ->
  width brush <> 0%Z -> height brush <> 0%Z ->
  exists s',
    draw drawImage s = (Return tt, s')
    /\ paintQueue s' = []
    /\ overlayCanvas s' = Some (stamped drawImage overlay brush (paintQueue s))
    /\ trace s'
       = trace s
         ++ map (fun p => DrawImage (stamp_x brush p) (stamp_y brush p)) (paintQueue s)
         ++ [RequestAnimationFrame]
    /\ animating s' = true.
Proof.
  intros Hoc Hbc Hw Hh.
  destruct (drain_runs brush (paintQueue s) Hw Hh s overlay Hoc Hbc)
    as (Ho & Hov & Hbr & Htr & Hpq).
  destruct (drain drawImage (paintQueue s) s) as [o s1] eqn:Hdrain.
  cbn [fst snd] in *. subst o.
  exists (set_animating true (set_trace (trace s1 ++ [RequestAnimationFrame]) s1)).
  split.
  - unfold draw, bind, gets, emit, modify. rewrite Hdrain. reflexivity.
  - state_simpl. repeat split.
    + rewrite Hpq. now destruct (paintQueue s).
    + exact Hov.
    + rewrite Htr, <- app_assoc. reflexivity.
Qed.

(** [draw] over an empty queue only asks for the next frame. *)
Lemma draw_idle (s : State num) :
  paintQueue s = [] ->
  draw drawImage s
  = (Return tt, set_animating true (set_trace (trace s ++ [RequestAnimationFrame]) s)).
Proof.
  intros Hempty. unfold draw, bind, gets, emit, modify. rewrite Hempty. reflexivity.
Qed.

(** [draw] with an empty brush and a point queued throws before it asks
    for the next frame. *)
Lemma draw_throws (s : State num) (overlay brush : Canvas) (point : Point num)
    (rest : list (Point num)) :
  overlayCanvas s = Some overlay ->
  brushCanvas s = Some brush ->
  width brush = 0%Z \/ height brush = 0%Z ->
  paintQueue s = point :: rest ->
  draw drawImage s = (Throw "InvalidStateError", set_paintQueue rest s).
Proof.
  intros Hoc Hbc Hempty Hqueue. unfold draw. unfold bind at 1. unfold gets at 1.
  rewrite Hqueue. unfold bind at 1.
  now rewrite (drain_throws brush overlay point rest s Hoc Hbc Hempty).
Qed.

(** Whatever the brush, [draw] leaves an overlay; with a brush that is
    not empty it leaves the next frame requested. *)
Lemma draw_leaves (s : State num) (overlay brush : Canvas) :
  overlayCanvas s = Some overlay ->
  brushCanvas s = Some brush ->
  (exists overlay', overlayCanvas (snd (draw drawImage s)) = Some overlay')
  /\ (width brush <> 0%Z -> height brush <> 0%Z ->
      animating (snd (draw drawImage s)) = true).
Proof.
  intros Hoc Hbc.
  destruct (Z.eq_dec (width brush) 0) as [Hw | Hw];
    [| destruct (Z.eq_dec (height brush) 0) as [Hh | Hh]].
  - split; [| congruence].
    destruct (paintQueue s) as [| point rest] eqn:Hqueue.
    + rewrite (draw_idle s Hqueue). state_simpl. eauto.
    + rewrite (draw_throws s overlay brush point rest Hoc Hbc (or_introl Hw) Hqueue).
      state_simpl. eauto.
  - split; [| congruence].
    destruct (paintQueue s) as [| point rest] eqn:Hqueue.
    + rewrite (draw_idle s Hqueue). state_simpl. eauto.
    + rewrite (draw_throws s overlay brush point rest Hoc Hbc (or_intror Hh) Hqueue).
      state_simpl. eauto.
  - destruct (draw_runs s overlay brush Hoc Hbc Hw Hh)
      as (s' & Hdraw & _ & Hov & _ & Han).
    rewrite Hdraw. cbn [snd]. eauto.
Qed.

Lemma loaded_stamp (point : Point num) :
  preserves (keeps loaded_fields) (stamp drawImage point).
Proof. unfold stamp. keeps_tac (@loaded_fields num). Qed.

Lemma loaded_drain (queue : list (Point num)) :
  preserves (keeps loaded_fields) (drain drawImage queue).
Proof.
  induction queue as [| point rest IH]; cbn [drain].
  - keeps_tac (@loaded_fields num).
  - pose proof (loaded_stamp point). keeps_tac (@loaded_fields num); auto.
Qed.

Lemma loaded_draw : preserves (keeps loaded_fields) (draw drawImage).
Proof.
  pose proof loaded_drain.
  unfold draw. keeps_tac (@loaded_fields num); auto.
Qed.

(** X1: on a widget whose canvases are in, [draw] over a brush that is not
    empty returns; it stamps the brush once per queued point, first queued
    first, each stamp centred on its point, leaves the queue empty and the
    brush as it was, and asks for the next frame; an empty queue costs
    nothing but that request, whatever the brush.  Over a brush of width
    or height zero, [draw] throws at the first point it takes off the
    queue: nothing is stamped, the other points stay queued, and no frame
    is asked for. *)
Theorem draw_drains_in_order (s : State num) (overlay brush : Canvas) :
  overlayCanvas s = Some overlay ->
  brushCanvas s = Some brush ->
  (width brush <> 0%Z -> height brush <> 0%Z ->
   fst (draw drawImage s) = Return tt
   /\ paintQueue (snd (draw drawImage s)) = []
   /\ overlayCanvas (snd (draw drawImage s))
      = Some (fold_left
                (fun o p =>
                   drawImage o brush
                     (sub (x p) (div (of_Z (width brush)) (of_Z 2)))
                     (sub (y p) (div (of_Z (height brush)) (of_Z 2))))
                (paintQueue s) overlay)
   /\ brushCanvas (snd (draw drawImage s)) = Some brush
   /\ trace (snd (draw drawImage s))
      = trace s
        ++ map (fun p =>
                  DrawImage (sub (x p) (div (of_Z (width brush)) (of_Z 2)))
                            (sub (y p) (div (of_Z (height brush)) (of_Z 2))))
               (paintQueue s)
        ++ [RequestAnimationFrame]
   /\ animating (snd (draw drawImage s)) = true)
  /\ (paintQueue s = [] ->
      draw drawImage s
      = (Return tt,
         set_animating true (set_trace (trace s ++ [RequestAnimationFrame]) s)))
  /\ (width brush = 0%Z \/ height brush = 0%Z ->
      forall point rest, paintQueue s = point :: rest ->
      draw drawImage s = (Throw "InvalidStateError", set_paintQueue rest s)).
Proof.
  intros Hoc Hbc. split; [| split].
  - intros Hw Hh.
    destruct (draw_runs s overlay brush Hoc Hbc Hw Hh)
      as (s' & Hdraw & Hpq & Hov & Htr & Han).
    pose proof (loaded_draw s) as Hkept. rewrite Hdraw in Hkept |- *.
    cbn [fst snd] in *. repeat split; try assumption.
    unfold keeps, loaded_fields in Hkept. rewrite Hbc in Hkept. congruence.
  - apply draw_idle.
  - intros Hempty point rest Hqueue.
    now apply (draw_throws s overlay brush point rest).
Qed.

(* ----------------------------------------------------------------- *)
(** *** What holds from construction on *)

Lemma keeps_project {A B} (f : State num -> A) (g : A -> B) (s s' : State num) :
  keeps f s s' -> keeps (fun s => g (f s)) s s'.
Proof. unfold keeps. intros Hf. now rewrite Hf. Qed.

Lemma well_formed_initial (d : Dom num) : well_formed (initial d).
Proof.
  unfold well_formed, initial. state_simpl. cbn.
  repeat split; intros; congruence.
Qed.

(** A step that touches nothing of what [well_formed] reads. *)
Lemma well_formed_kept (s s' : State num) :
  keeps init_fields s s' -> keeps session_fields s s' -> keeps paintQueue s s' ->
  keeps (fun s => activity (trace s)) s s' ->
  well_formed s -> well_formed s'.
Proof.
  unfold keeps, init_fields, session_fields, well_formed.
  intros Hi Hs Hq Ha Hwf.
  injection Hi as Hl Han Hoc Hbc Hm Hol Hbl Hop Hbp Hr He.
  injection Hs as Hd Hlp _ _.
  rewrite Hl, Han, Hoc, Hbc, Hm, Hol, Hbl, Hop, Hbp, Hr, He, Hd, Hlp, Hq, Ha.
  exact Hwf.
Qed.

(** A step of a handler that runs on an initialised widget. *)
Lemma well_formed_handler (s s' : State num) :
  keeps init_fields s s' ->
  listening s = true ->
  (isPointerDown s' = false -> lastPoint s' = None) ->
  well_formed s -> well_formed s'.
Proof.
  unfold keeps, init_fields, well_formed.
  intros Hi Hon Hsession Hwf.
  injection Hi as Hl Ha Hoc Hbc Hm Hol Hbl Hop Hbp Hr He.
  rewrite Hl, Ha, Hoc, Hbc, Hm, Hol, Hbl, Hop, Hbp, Hr, He.
  destruct Hwf as (H1 & H2 & H3 & H4 & H5 & H6 & _ & _).
  split; [exact H1|]. split; [exact H2|]. split; [exact H3|].
  split; [exact H4|]. split; [exact H5|]. split; [exact H6|].
  split; [exact Hsession|].
  rewrite Hon. discriminate.
Qed.

Lemma anchor_getOffsetPointFromEvent (event : Event num) :
  preserves (keeps (@isPointerDown num)) (getOffsetPointFromEvent event).
Proof. unfold getOffsetPointFromEvent. keeps_tac (@isPointerDown num). Qed.

Lemma down_addPoint (fuel : nat) (point : Point num) (tween : bool) :
  preserves (keeps (@isPointerDown num)) (addPoint fuel point tween).
Proof.
  intros s.
  apply (keeps_project anchor_fields (fun t => fst (fst (fst t)))),
    anchor_addPoint.
Qed.

Lemma down_getPointFromEvent (event : Event num) :
  preserves (keeps (@isPointerDown num)) (getPointFromEvent event).
Proof. unfold getPointFromEvent. keeps_tac (@isPointerDown num). Qed.

(** Whatever becomes of it, a pointer-down leaves the pointer down. *)
Lemma onPointerDown_is_down (event : Event num) (s : State num) :
  isPointerDown (snd (onPointerDown event s)) = true.
Proof.
  pose proof (down_getPointFromEvent event).
  pose proof (anchor_getOffsetPointFromEvent event).
  pose proof down_addPoint.
  assert (Hrest : forall t, isPointerDown t = true ->
            isPointerDown
              (snd ((bind (getPointFromEvent event) (fun p =>
                     bind (modify (set_pointerOrigin p)) (fun _ =>
                     bind (getOffsetPointFromEvent event) (fun o =>
                     bind (modify (set_offsetOrigin o)) (fun _ =>
                     bind (gets offsetOrigin) (fun offsetOrigin =>
                     bind (gets scale) (fun scale =>
                     addPoint 0 {| x := mul (x offsetOrigin) scale;
                                   y := mul (y offsetOrigin) scale |} false))))))) t))
            = true).
  { intros t Ht. rewrite <- Ht.
    revert t Ht. 
    assert (Hk : preserves (keeps (@isPointerDown num))
              (bind (getPointFromEvent event) (fun p =>
                     bind (modify (set_pointerOrigin p)) (fun _ =>
                     bind (getOffsetPointFromEvent event) (fun o =>
                     bind (modify (set_offsetOrigin o)) (fun _ =>
                     bind (gets offsetOrigin) (fun offsetOrigin =>
                     bind (gets scale) (fun scale =>
                     addPoint 0 {| x := mul (x offsetOrigin) scale;
                                   y := mul (y offsetOrigin) scale |} false)))))))).
    { keeps_tac (@isPointerDown num); auto. }
    intros t _. apply Hk. }
  unfold onPointerDown, cancelEvent.
  unfold bind at 1. unfold emit at 1, modify at 1.
  unfold bind at 1. unfold modify at 1.
  apply Hrest. reflexivity.
Qed.

Lemma session_rest_of_onPointerUp :
  preserves (keeps (fun s : State num => (isPointerDown s, lastPoint s))) (testRevealed userFn).
Proof.
  intros s.
  apply (keeps_project session_fields (fun t => (fst (fst (fst t)), snd (fst (fst t))))),
    session_testRevealed.
Qed.

Lemma onPointerUp_not_down (event : Event num) (s : State num) :
  isPointerDown s = false -> onPointerUp userFn event s = (Return tt, s).
Proof.
  intros Hdown. unfold onPointerUp, bind, gets. now rewrite Hdown.
Qed.

Lemma onPointerUp_down (event : Event num) (s : State num) :
  isPointerDown s = true ->
  onPointerUp userFn event s
  = testRevealed userFn
      (set_offsetOrigin origin
         (set_pointerOrigin origin
            (set_lastPoint None
               (set_isPointerDown false
                  (set_trace (trace s ++ [CancelEvent]) s))))).
Proof.
  intros Hdown. unfold onPointerUp, cancelEvent, emit, bind, gets, modify.
  now rewrite Hdown.
Qed.

(** Whatever becomes of it, a pointer-up leaves no pointer down without
    having cleared [lastPoint]. *)
Lemma onPointerUp_ends_session (event : Event num) (s : State num) :
  (isPointerDown s = false -> lastPoint s = None) ->
  isPointerDown (snd (onPointerUp userFn event s)) = false
  /\ lastPoint (snd (onPointerUp userFn event s)) = None.
Proof.
  intros Hs. destruct (isPointerDown s) eqn:Hdown.
  - rewrite (onPointerUp_down event s Hdown).
    match goal with
    | |- context [testRevealed userFn ?t] =>
        pose proof (session_rest_of_onPointerUp t) as Hk
    end.
    unfold keeps in Hk. revert Hk. state_simpl. intros Hk.
    injection Hk as Hd Hl. split; assumption.
  - rewrite (onPointerUp_not_down event s Hdown). cbn [snd].
    split; [exact Hdown | now apply Hs].
Qed.

Lemma onPointerMove_ignored (fuel : nat) (event : Event num) (s : State num) :
  isPointerDown s = false -> onPointerMove fuel event s = (Return tt, s).
Proof.
  intros Hdown. unfold onPointerMove, bind, gets. now rewrite Hdown.
Qed.

Lemma onPointerMove_keeps_session (fuel : nat) (event : Event num) (s : State num) :
  (isPointerDown s = false -> lastPoint s = None) ->
  isPointerDown (snd (onPointerMove fuel event s)) = false ->
  lastPoint (snd (onPointerMove fuel event s)) = None.
Proof.
  intros Hs. destruct (isPointerDown s) eqn:Hdown.
  - pose proof (init_getPointFromEvent event).
    assert (Hk : preserves (keeps (@isPointerDown num)) (onPointerMove fuel event)).
    { pose proof (down_getPointFromEvent event). pose proof down_addPoint.
      unfold onPointerMove, cancelEvent. keeps_tac (@isPointerDown num); auto. }
    rewrite (Hk s), Hdown. discriminate.
  - rewrite (onPointerMove_ignored fuel event s Hdown). cbn [snd].
    intros _. now apply Hs.
Qed.

Lemma well_formed_not_listening (s : State num) :
  well_formed s -> overlayLoaded s = false \/ brushLoaded s = false ->
  listening s = false.
Proof.
  intros (_ & Hon & _) Hnot. destruct (listening s); [| reflexivity].
  destruct (Hon eq_refl) as (Ho & Hb & _). destruct Hnot; congruence.
Qed.

Lemma onCanvasLoaded_waiting (s : State num) :
  overlayLoaded s && brushLoaded s = false -> onCanvasLoaded s = (Return tt, s).
Proof.
  intros Hwait. unfold onCanvasLoaded, bind, gets. now rewrite Hwait.
Qed.

Lemma onCanvasLoaded_failed (s : State num) :
  overlayLoaded s = true -> brushLoaded s = true ->
  overlayCanvas s = None \/ brushCanvas s = None ->
  onCanvasLoaded s
  = (Return tt,
     set_trace (trace s ++ [ConsoleError "Failed to load ScratchIt image"]) s).
Proof.
  intros Hol Hbl Hnone. unfold onCanvasLoaded, emit, bind, gets, modify.
  rewrite Hol, Hbl. cbn [andb negb].
  destruct Hnone as [Hnone | Hnone]; rewrite Hnone; [| destruct (overlayCanvas s)];
    reflexivity.
Qed.

Lemma onCanvasLoaded_ready (s : State num) (overlay brush : Canvas) :
  overlayLoaded s = true -> brushLoaded s = true ->
  overlayCanvas s = Some overlay -> brushCanvas s = Some brush ->
  onCanvasLoaded s
  = (Return tt,
     set_animating true
       (set_trace (((trace s ++ [AppendChild]) ++ [AddEventListeners])
                   ++ [RequestAnimationFrame])
          (set_scale
             (div (of_Z 1) (div (parentEl_rect_width (dom s)) (of_Z (width overlay))))
             (set_listening true
                (set_trace ((trace s ++ [AppendChild]) ++ [AddEventListeners])
                   (set_minPointDist (div (of_Z (width brush)) (of_Z 2))
                      (set_trace (trace s ++ [AppendChild]) s))))))).
Proof.
  intros Hol Hbl Hoverlay Hbrush.
  unfold onCanvasLoaded, onResize, emit, bind, gets, modify.
  rewrite Hol, Hbl. cbn [andb negb]. rewrite Hoverlay, Hbrush. state_simpl.
  rewrite ?Hoverlay. state_simpl. reflexivity.
Qed.

Lemma activity_snoc (t : list (Effect num)) (e : Effect num) :
  is_DrawImage e = false -> is_GetImageData e = false -> is_Invoke e = false ->
  is_CancelEvent e = false ->
  activity (t ++ [e]) = activity t.
Proof.
  intros Hd Hg Hi Hc. unfold activity, draws, scans, invokes, cancellations.
  rewrite !count_snoc, Hd, Hg, Hi, Hc, !Nat.add_0_r. reflexivity.
Qed.

(** [onCanvasLoaded] as an image callback reaches it: on a widget that has
    not started and has reported nothing. *)
Lemma well_formed_onCanvasLoaded (s : State num) :
  listening s = false -> animating s = false ->
  (overlayPending s = true -> overlayLoaded s = false) ->
  (brushPending s = true -> brushLoaded s = false) ->
  registrations (trace s) = 0%nat -> console_errors (trace s) = 0%nat ->
  isPointerDown s = false -> lastPoint s = None -> paintQueue s = [] ->
  activity (trace s) = (0, 0, 0, 0)%nat ->
  well_formed (snd (onCanvasLoaded s)).
Proof.
  intros Hoff Hraf Hop Hbp Hreg Herr Hup Hlast Hqueue Hact.
  destruct (overlayLoaded s && brushLoaded s) eqn:Hboth.
  - apply andb_prop in Hboth. destruct Hboth as (Hol & Hbl).
    assert (Hnop : overlayPending s = false).
    { destruct (overlayPending s); [| reflexivity]. rewrite Hop in Hol; congruence. }
    assert (Hnbp : brushPending s = false).
    { destruct (brushPending s); [| reflexivity]. rewrite Hbp in Hbl; congruence. }
    destruct (overlayCanvas s) as [overlay |] eqn:Hoverlay;
      [destruct (brushCanvas s) as [brush |] eqn:Hbrush |].
    + rewrite (onCanvasLoaded_ready s overlay brush Hol Hbl Hoverlay Hbrush).
      unfold well_formed, registrations, console_errors. state_simpl.
      rewrite !count_snoc. cbn [is_AddEventListeners is_ConsoleError].
      fold (registrations (trace s)). fold (console_errors (trace s)).
      rewrite Hreg, Herr, Hol, Hbl, Hnop, Hnbp, Hoverlay, Hbrush, Hup, Hlast.
      split; [split; intros; reflexivity |]. split; [intros _; eauto 8 |].
      split; [discriminate |]. split; [discriminate |]. split; [reflexivity |].
      split; [split; [reflexivity | discriminate] |].
      split; [reflexivity | discriminate].
    + rewrite (onCanvasLoaded_failed s Hol Hbl (or_intror Hbrush)).
      unfold well_formed, registrations, console_errors. state_simpl.
      rewrite !count_snoc, activity_snoc by reflexivity.
      cbn [is_AddEventListeners is_ConsoleError]. rewrite Nat.add_0_r.
      fold (registrations (trace s)). fold (console_errors (trace s)).
      rewrite Hreg, Herr, Hoff, Hnop, Hnbp, Hraf, Hol, Hbl, Hup, Hlast, Hqueue, Hact.
      rewrite ?Hoverlay, ?Hbrush.
      repeat split; solve [ discriminate | reflexivity | auto ].
    + rewrite (onCanvasLoaded_failed s Hol Hbl (or_introl Hoverlay)).
      unfold well_formed, registrations, console_errors. state_simpl.
      rewrite !count_snoc, activity_snoc by reflexivity.
      cbn [is_AddEventListeners is_ConsoleError]. rewrite Nat.add_0_r.
      fold (registrations (trace s)). fold (console_errors (trace s)).
      rewrite Hreg, Herr, Hoff, Hnop, Hnbp, Hraf, Hol, Hbl, Hup, Hlast, Hqueue, Hact.
      rewrite ?Hoverlay, ?Hbrush.
      repeat split; solve [ discriminate | reflexivity | auto ].
  - rewrite (onCanvasLoaded_waiting s Hboth). cbn [snd].
    unfold well_formed. rewrite Hboth, Hoff, Hraf, Hreg, Herr, Hup, Hlast, Hqueue, Hact.
    repeat split;
      solve [ discriminate | reflexivity | assumption
            | intros Ho Hb _; rewrite Ho, Hb in Hboth; discriminate ].
Qed.

Lemma well_formed_unstarted (w : Which) (s : State num) :
  well_formed s -> unstarted w s ->
  listening s = false /\ animating s = false
  /\ registrations (trace s) = 0%nat /\ console_errors (trace s) = 0%nat
  /\ isPointerDown s = false /\ lastPoint s = None /\ paintQueue s = []
  /\ activity (trace s) = (0, 0, 0, 0)%nat.
Proof.
  intros Hwf Hw.
  assert (Hoff : listening s = false).
  { apply well_formed_not_listening; [assumption |]. destruct w; cbn in Hw; tauto. }
  destruct Hwf as ((Hraf & _) & Hon & Hop & Hbp & Hreg & (Herr & _) & Hlast & Hidle).
  assert (Hstill : animating s = false).
  { destruct (animating s); [| reflexivity]. rewrite Hraf in Hoff by reflexivity.
    discriminate. }
  clear Hraf.
  rewrite Hoff in *. destruct (Hidle eq_refl) as (Hup & Hqueue & Hact).
  assert (Hnone : overlayLoaded s && brushLoaded s && negb false = false).
  { destruct w; destruct Hw as (Hl & _); rewrite Hl; [| rewrite andb_false_r];
      reflexivity. }
  rewrite Hnone in Herr. auto 10.
Qed.

(** The callback of an image that had not come in yet. *)
Lemma well_formed_onImage (w : Which) (canvas : option Canvas) (s : State num) :
  well_formed s -> unstarted w s -> well_formed (snd (onImage w canvas s)).
Proof.
  intros Hwf Hw.
  destruct (well_formed_unstarted w s Hwf Hw)
    as (Hoff & Hraf & Hreg & Herr & Hup & Hlast & Hqueue & Hact).
  destruct Hwf as (_ & _ & Hop & Hbp & _).
  unfold onImage.
  destruct w; destruct Hw as (Hl & Hp); unfold bind at 1 2, modify at 1 2;
    apply well_formed_onCanvasLoaded; state_simpl;
    solve [ assumption | discriminate | rewrite Hp; discriminate ].
Qed.

Lemma well_formed_getCanvasFromImage (imgUrl : JSValue num) (w : Which) (s : State num) :
  well_formed s -> unstarted w s ->
  well_formed (snd (getCanvasFromImage imgUrl w s)).
Proof.
  intros Hwf Hw.
  assert (Hload : forall url,
            well_formed
              (snd (bind (emit (LoadImage url))
                      (fun _ => match w with
                                | Overlay => modify (set_overlayPending true)
                                | Brush => modify (set_brushPending true)
                                end) s))).
  { intros url.
    destruct (well_formed_unstarted w s Hwf Hw)
      as (Hoff & Hraf & Hreg & Herr & Hup & Hlast & Hqueue & Hact).
    destruct Hwf as (_ & _ & Hop & Hbp & _).
    unfold bind, emit, modify.
    destruct w; destruct Hw as (Hl & Hp); unfold well_formed, registrations,
      console_errors;
      state_simpl; rewrite !count_snoc, activity_snoc by reflexivity;
      cbn [is_AddEventListeners is_ConsoleError]; rewrite !Nat.add_0_r;
      fold (registrations (trace s)); fold (console_errors (trace s));
      rewrite Hoff, Hraf, Hreg, Herr, Hup, Hlast, Hqueue, Hact, Hl;
      rewrite ?andb_false_r; cbn [andb];
      repeat split; solve [ discriminate | reflexivity | assumption ]. }
  unfold getCanvasFromImage.
  destruct imgUrl; try (apply well_formed_onImage; assumption). apply Hload.
Qed.

Lemma other_onResize :
  preserves (keeps (fun s : State num =>
    (overlayLoaded s, overlayPending s, brushLoaded s, brushPending s))) onResize.
Proof.
  unfold onResize.
  keeps_tac (fun s : State num =>
    (overlayLoaded s, overlayPending s, brushLoaded s, brushPending s)).
Qed.

Lemma other_onCanvasLoaded :
  preserves (keeps (fun s : State num =>
    (overlayLoaded s, overlayPending s, brushLoaded s, brushPending s))) onCanvasLoaded.
Proof.
  pose proof other_onResize. unfold onCanvasLoaded.
  keeps_tac (fun s : State num =>
    (overlayLoaded s, overlayPending s, brushLoaded s, brushPending s)); auto.
Qed.

(** Starting to load the overlay leaves the brush unstarted. *)
Lemma unstarted_Brush_getCanvasFromImage (imgUrl : JSValue num) (s : State num) :
  unstarted Brush s -> unstarted Brush (snd (getCanvasFromImage imgUrl Overlay s)).
Proof.
  pose proof other_onCanvasLoaded as Hk.
  assert (Hstep : preserves (keeps (fun s : State num => (brushLoaded s, brushPending s)))
            (getCanvasFromImage imgUrl Overlay)).
  { assert (Hloaded : preserves
              (keeps (fun s : State num => (brushLoaded s, brushPending s)))
              onCanvasLoaded).
    { intros t. 
      apply (keeps_project
               (fun s : State num =>
                  (overlayLoaded s, overlayPending s, brushLoaded s, brushPending s))
               (fun t => (snd (fst t), snd t))), Hk. }
    unfold getCanvasFromImage, onImage.
    keeps_tac (fun s : State num => (brushLoaded s, brushPending s)); auto. }
  intros (Hl & Hp). specialize (Hstep s). unfold keeps in Hstep.
  injection Hstep as Hl' Hp'. split; congruence.
Qed.

Lemma well_formed_construct (arguments : list (JSValue num)) (s : State num) :
  well_formed s -> unstarted Overlay s -> unstarted Brush s ->
  well_formed (snd (construct StringToNumber arguments s)).
Proof.
  intros Hwf Ho Hb.
  assert (Hany : forall f, keeps init_fields s (f s) -> keeps session_fields s (f s) ->
            keeps paintQueue s (f s) -> keeps (fun s => activity (trace s)) s (f s) ->
            well_formed (f s)).
  { intros f H1 H2 H3 H4. now apply (well_formed_kept s). }
  unfold construct. unfold bind at 1. unfold modify at 1.
  unfold bind at 1. unfold gets at 1. unfold bind at 1. unfold gets at 1.
  set (s1 := set_parentEl (nth 0 arguments VUndefined) s).
  assert (Hwf1 : well_formed s1) by (apply (Hany (set_parentEl _)); reflexivity).
  destruct (negb _); [exact Hwf1 |].
  destruct (negb _); [exact Hwf1 |].
  destruct (_ || _); [exact Hwf1 |].
  unfold bind at 1. unfold modify at 1. unfold bind at 1. unfold modify at 1.
  set (s2 := set_revealThreshold _ _).
  assert (Hwf2 : well_formed s2).
  { apply (Hany (fun s => set_revealThreshold _ (set_revealCallback _ (set_parentEl _ s))));
      reflexivity. }
  assert (Ho2 : unstarted Overlay s2) by exact Ho.
  assert (Hb2 : unstarted Brush s2) by exact Hb.
  clearbody s2. unfold bind.
  pose proof (well_formed_getCanvasFromImage (nth 1 arguments VUndefined) Overlay s2 Hwf2 Ho2)
    as Hwf3.
  pose proof (unstarted_Brush_getCanvasFromImage (nth 1 arguments VUndefined) s2 Hb2)
    as Hb3.
  destruct (getCanvasFromImage (nth 1 arguments VUndefined) Overlay s2) as [[[] | msg |] s3];
    cbn [snd] in *; try exact Hwf3.
  now apply well_formed_getCanvasFromImage.
Qed.

Lemma well_formed_dispatch (fuel : nat) (i : Input num) (s : State num) :
  well_formed s -> well_formed (snd (dispatch drawImage userFn fuel i s)).
Proof.
  intros Hwf.
  pose proof Hwf as (Hraf & Hon & Hop & Hbp & Hreg & Herr & Hlast & Hidle).
  destruct i as [[|] canvas | event | event | event | | | d]; unfold dispatch.
  - unfold bind at 1. unfold gets at 1.
    destruct (overlayPending s) eqn:Hpending; [| exact Hwf].
    unfold bind at 1. unfold modify at 1.
    apply well_formed_onImage.
    + unfold well_formed. state_simpl.
      split; [exact Hraf |]. split; [exact Hon |]. split; [discriminate |].
      split; [exact Hbp |]. split; [exact Hreg |]. split; [exact Herr |].
      split; [exact Hlast | exact Hidle].
    + split; state_simpl; [now apply Hop | reflexivity].
  - unfold bind at 1. unfold gets at 1.
    destruct (brushPending s) eqn:Hpending; [| exact Hwf].
    unfold bind at 1. unfold modify at 1.
    apply well_formed_onImage.
    + unfold well_formed. state_simpl.
      split; [exact Hraf |]. split; [exact Hon |]. split; [exact Hop |].
      split; [discriminate |]. split; [exact Hreg |]. split; [exact Herr |].
      split; [exact Hlast | exact Hidle].
    + split; state_simpl; [now apply Hbp | reflexivity].
  - unfold bind at 1. unfold gets at 1.
    destruct (listening s) eqn:Hlistening; [| exact Hwf].
    apply (well_formed_handler s); try assumption.
    + apply init_onPointerDown.
    + rewrite onPointerDown_is_down. discriminate.
  - unfold bind at 1. unfold gets at 1.
    destruct (listening s) eqn:Hlistening; [| exact Hwf].
    apply (well_formed_handler s); try assumption.
    + apply init_onPointerMove.
    + now apply onPointerMove_keeps_session.
  - unfold bind at 1. unfold gets at 1.
    destruct (listening s) eqn:Hlistening; [| exact Hwf].
    apply (well_formed_handler s); try assumption.
    + apply init_onPointerUp.
    + intros _. now apply onPointerUp_ends_session.
  - unfold bind at 1. unfold gets at 1.
    destruct (animating s) eqn:Hanimating; [| exact Hwf].
    unfold bind at 1. unfold modify at 1.
    destruct Hraf as (Hraf & _).
    pose proof (Hraf eq_refl) as Hlistening. rewrite Hlistening in *.
    destruct (Hon eq_refl) as (Hol & Hbl & overlay & brush & Hoverlay & Hbrush & Hmin).
    destruct (draw_leaves (set_animating false s) overlay brush Hoverlay Hbrush)
      as ((overlay' & Hstamped) & Hagain).
    pose proof (loaded_draw (set_animating false s)) as Hloaded.
    pose proof (session_draw (set_animating false s)) as Hsession.
    unfold keeps, loaded_fields, session_fields in Hloaded, Hsession.
    revert Hloaded Hsession. state_simpl. intros Hloaded Hsession.
    injection Hloaded as Hl Hb Hm Hol' Hbl' Hop' Hbp' Hr He.
    injection Hsession as Hd Hlp _ _.
    unfold well_formed.
    rewrite Hl, Hb, Hm, Hol', Hbl', Hop', Hbp', Hr, He, Hd, Hlp, Hstamped.
    rewrite Hlistening, Hbrush.
    split.
    { split; [reflexivity |]. intros _ brush' Hsame. injection Hsame as <-.
      exact Hagain. }
    split; [intros _; eauto 8 |].
    split; [exact Hop |]. split; [exact Hbp |]. split; [exact Hreg |].
    split; [split; [apply Herr | discriminate] |].
    split; [exact Hlast | discriminate].
  - unfold bind at 1. unfold gets at 1.
    destruct (listening s) eqn:Hlistening; [| exact Hwf].
    apply (well_formed_handler s); try assumption.
    + apply init_onResize.
    + pose proof (session_onResize s) as Hsession.
      unfold keeps, session_fields in Hsession.
      injection Hsession as Hd Hlp _ _. now rewrite Hd, Hlp.
  - apply (well_formed_kept s); try assumption; reflexivity.
Qed.

(** Every state of a widget's life is well formed. *)
Lemma well_formed_run (fuel : nat) (inputs : list (Input num)) :
  forall s, well_formed s -> well_formed (run drawImage userFn fuel inputs s).
Proof.
  induction inputs as [| i rest IH]; intros s Hwf; cbn [run]; [exact Hwf |].
  pose proof (well_formed_dispatch fuel i s Hwf) as Hstep.
  destruct (dispatch drawImage userFn fuel i s) as [[[] | msg |] s']; cbn [snd] in Hstep;
    auto.
Qed.

Lemma well_formed_lifetime (fuel : nat) (d : Dom num)
    (arguments : list (JSValue num)) (inputs : list (Input num)) :
  well_formed (lifetime StringToNumber drawImage userFn fuel d arguments inputs).
Proof.
  unfold lifetime, ScratchIt.
  pose proof (well_formed_construct arguments (initial d) (well_formed_initial d)
                (conj eq_refl eq_refl) (conj eq_refl eq_refl)) as Hwf.
  destruct (construct StringToNumber arguments (initial d)) as [[[] | msg |] s];
    cbn [snd] in Hwf; try exact Hwf.
  now apply well_formed_run.
Qed.

(* ----------------------------------------------------------------- *)
(** *** The life of a widget *)

(** X2: over any life of a widget the listeners are registered at most
    once, and that when both images have come in as canvases, in whichever
    order: from then on the two canvases are there, [minPointDist] is half
    the width of the brush, and, the brush not being empty, a frame is
    always requested; before, none is.  (Over an empty brush the frame
    that finds a point queued throws, and requests no other.) *)
Theorem listeners_registered_once (fuel : nat) (d : Dom num)
    (arguments : list (JSValue num)) (inputs : list (Input num)) :
  let s := lifetime StringToNumber drawImage userFn fuel d arguments inputs in
  (registrations (trace s) <= 1)%nat
  /\ (registrations (trace s) = 1%nat <-> listening s = true)
  /\ (registrations (trace s) = 1%nat ->
      overlayLoaded s = true /\ brushLoaded s = true
      /\ (exists overlay brush,
            overlayCanvas s = Some overlay /\ brushCanvas s = Some brush
            /\ minPointDist s = div (of_Z (width brush)) (of_Z 2)
            /\ (width brush <> 0%Z -> height brush <> 0%Z ->
                animating s = true)))
  /\ (overlayLoaded s = true -> brushLoaded s = true ->
      overlayCanvas s <> None -> brushCanvas s <> None ->
      registrations (trace s) = 1%nat)
  /\ (registrations (trace s) = 0%nat -> animating s = false).
Proof.
  intros s.
  destruct (well_formed_lifetime fuel d arguments inputs)
    as ((Hraf & Hagain) & Hon & _ & _ & Hreg & (_ & Hmissing) & _).
  fold s in Hraf, Hagain, Hon, Hreg, Hmissing. rewrite Hreg.
  destruct (listening s).
  - split; [lia |]. split; [tauto |]. split; [| split; [reflexivity | discriminate]].
    intros _.
    destruct (Hon eq_refl) as (Hol & Hbl & overlay & brush & Hoverlay & Hbrush & Hmin).
    split; [exact Hol |]. split; [exact Hbl |].
    exists overlay, brush. split; [exact Hoverlay |]. split; [exact Hbrush |].
    split; [exact Hmin |]. now apply Hagain.
  - split; [lia |]. split; [split; discriminate |]. split; [discriminate |].
    split.
    + intros Hol Hbl Hoverlay Hbrush.
      destruct (Hmissing Hol Hbl eq_refl); contradiction.
    + intros _. destruct (animating s); [| reflexivity].
      discriminate (Hraf eq_refl).
Qed.

(** X3: when both loads are over, the widget has either started or logged
    the failure, once, and never both; a load that failed is logged; and a
    widget that has not started has taken no event, queued no point, stamped
    and scanned nothing, and called nothing. *)
Theorem failed_load_leaves_widget_inert (fuel : nat) (d : Dom num)
    (arguments : list (JSValue num)) (inputs : list (Input num)) :
  let s := lifetime StringToNumber drawImage userFn fuel d arguments inputs in
  (console_errors (trace s) + registrations (trace s) <= 1)%nat
  /\ (overlayLoaded s = true -> brushLoaded s = true ->
      (console_errors (trace s) + registrations (trace s) = 1)%nat)
  /\ (overlayLoaded s = true -> brushLoaded s = true ->
      overlayCanvas s = None \/ brushCanvas s = None ->
      console_errors (trace s) = 1%nat)
  /\ (console_errors (trace s) = 1%nat ->
      overlayLoaded s = true /\ brushLoaded s = true)
  /\ (registrations (trace s) = 0%nat ->
      isPointerDown s = false /\ paintQueue s = []
      /\ draws (trace s) = 0%nat /\ scans (trace s) = 0%nat
      /\ invokes (trace s) = 0%nat /\ cancellations (trace s) = 0%nat).
Proof.
  intros s.
  destruct (well_formed_lifetime fuel d arguments inputs)
    as (_ & Hon & _ & _ & Hreg & (Herr & _) & _ & Hidle).
  fold s in Hon, Hreg, Herr, Hidle. rewrite Hreg, Herr.
  destruct (listening s).
  - destruct (Hon eq_refl) as (Hol & Hbl & overlay & brush & Hoverlay & Hbrush & _).
    rewrite Hol, Hbl, Hoverlay, Hbrush. cbn.
    repeat split; try lia; try discriminate. intros _ _ [Hnone | Hnone]; discriminate.
  - destruct (Hidle eq_refl) as (Hup & Hqueue & Hact).
    unfold activity in Hact. injection Hact as Hd Hs Hi Hc.
    destruct (overlayLoaded s), (brushLoaded s); cbn;
      repeat split; try lia; try discriminate; try assumption; auto.
Qed.

(** X4: over any life of a widget, while no pointer is down there is no
    [lastPoint]: the first move of a stroke never interpolates from the end
    of an earlier stroke. *)
Theorem strokes_are_not_joined (fuel : nat) (d : Dom num)
    (arguments : list (JSValue num)) (inputs : list (Input num)) :
  let s := lifetime StringToNumber drawImage userFn fuel d arguments inputs in
  isPointerDown s = false -> lastPoint s = None.
Proof.
  intros s.
  destruct (well_formed_lifetime fuel d arguments inputs)
    as (_ & _ & _ & _ & _ & _ & Hlast & _).
  exact Hlast.
Qed.

(* ----------------------------------------------------------------- *)
(** *** The queue and the pointer handlers *)

Lemma bind_returns {A B} (c : JS num A) (k : A -> JS num B) (s s1 : State num) (a : A) :
  c s = (Return a, s1) -> bind c k s = k a s1.
Proof. intros Hc. unfold bind. now rewrite Hc. Qed.

Lemma bind_throws {A B} (c : JS num A) (k : A -> JS num B) (s s1 : State num)
    (msg : string) :
  c s = (Throw msg, s1) -> bind c k s = (Throw msg, s1).
Proof. intros Hc. unfold bind. now rewrite Hc. Qed.

Lemma bind_modify {B} (f : State num -> State num) (k : unit -> JS num B)
    (s : State num) :
  bind (modify f) k s = k tt (f s).
Proof. reflexivity. Qed.

Lemma bind_gets {A B} (f : State num -> A) (k : A -> JS num B) (s : State num) :
  bind (gets f) k s = k (f s) s.
Proof. reflexivity. Qed.

Lemma bind_emit {B} (e : Effect num) (k : unit -> JS num B) (s : State num) :
  bind (emit e) k s = k tt (set_trace (trace s ++ [e]) s).
Proof. reflexivity. Qed.

Lemma bind_bind {A B C} (c : JS num A) (k : A -> JS num B) (k' : B -> JS num C)
    (s : State num) :
  bind (bind c k) k' s = bind c (fun a => bind (k a) k') s.
Proof. unfold bind. destruct (c s) as [[a | msg |] s1]; reflexivity. Qed.

Lemma set_paintQueue_same (s : State num) : set_paintQueue (paintQueue s) s = s.
Proof. now destruct s. Qed.

(** The loop only appends, and does not throw. *)
Lemma tween_loop_appends (numSegments : num) (point : Point num) (dx dy : num) :
  forall (fuel : nat) (i : Z) (s : State num),
  exists new,
    snd (tween_loop fuel i numSegments point dx dy s)
    = set_paintQueue (paintQueue s ++ new) s
    /\ (fst (tween_loop fuel i numSegments point dx dy s) = Return tt
        \/ fst (tween_loop fuel i numSegments point dx dy s) = Diverge).
Proof.
  induction fuel as [| fuel IH]; intros i s; cbn [tween_loop];
    destruct (ltb (of_Z i) numSegments).
  - exists []. rewrite app_nil_r, set_paintQueue_same. cbn. auto.
  - exists []. rewrite app_nil_r, set_paintQueue_same. cbn. auto.
  - set (pt := {| x := round (add (x point) (mul (of_Z i) dx));
                  y := round (add (y point) (mul (of_Z i) dy)) |}).
    rewrite (bind_returns (push pt) _ s
               (set_paintQueue (paintQueue s ++ [pt]) s) tt eq_refl).
    destruct (IH (i + 1)%Z (set_paintQueue (paintQueue s ++ [pt]) s))
      as (new & Hsnd & Hfst).
    exists (pt :: new). split; [| exact Hfst].
    rewrite Hsnd. state_simpl. rewrite <- app_assoc. reflexivity.
  - exists []. rewrite app_nil_r, set_paintQueue_same. cbn. auto.
Qed.

(** What [addPoint] leaves, however it ends. *)
Lemma addPoint_runs (fuel : nat) (point : Point num) (tween : bool) (s : State num) :
  exists interior,
    (addPoint fuel point tween s
     = (Return tt,
        set_paintQueue (paintQueue s ++ interior ++ [rounded point])
          (set_lastPoint (Some (rounded point)) s))
     \/ addPoint fuel point tween s
        = (Diverge, set_paintQueue (paintQueue s ++ interior) s))
    /\ (tween = false \/ lastPoint s = None ->
        interior = []
        /\ addPoint fuel point tween s
           = (Return tt,
              set_paintQueue (paintQueue s ++ [rounded point])
                (set_lastPoint (Some (rounded point)) s))).
Proof.
  assert (Hdirect :
    bind (ret tt) (fun _ : unit =>
      bind (modify (set_lastPoint (Some (rounded point)))) (fun _ : unit =>
        push (rounded point))) s
    = (Return tt,
       set_paintQueue (paintQueue s ++ [rounded point])
         (set_lastPoint (Some (rounded point)) s))) by reflexivity.
  unfold addPoint. fold (rounded point).
  rewrite (bind_returns (gets lastPoint) _ s s (lastPoint s) eq_refl).
  destruct tween; [destruct (lastPoint s) as [last |] eqn:Hlast |].
  - rewrite !bind_bind.
    rewrite !(bind_returns (gets minPointDist) _ s s (minPointDist s) eq_refl).
    destruct (gtb _ _).
    + match goal with
      | |- context [tween_loop fuel 1 ?n point ?dx ?dy] =>
          destruct (tween_loop_appends n point dx dy fuel 1%Z s) as (new & Hsnd & Hfst);
          destruct (tween_loop fuel 1 n point dx dy s) as [o s'] eqn:Hloop
      end.
      cbn [fst snd] in *. exists new. subst s'. split.
      * destruct Hfst as [-> | ->]; [left | right].
        -- rewrite (bind_returns _ _ s _ tt Hloop).
           unfold bind, modify, push. state_simpl. rewrite app_assoc. reflexivity.
        -- unfold bind at 1. rewrite Hloop. reflexivity.
      * intros [Hno | Hno]; discriminate.
    + exists []. split; [left; exact Hdirect |]. intros [Hno | Hno]; discriminate.
  - exists []. split; [left; exact Hdirect |]. intros _. split; [reflexivity | exact Hdirect].
  - exists []. split; [left; destruct (lastPoint s); exact Hdirect |].
    intros _. split; [reflexivity | destruct (lastPoint s); exact Hdirect].
Qed.

(** X5: [addPoint] only appends.  It never throws; the points queued
    before stay where they were; when it returns, the new point, rounded,
    is the last of the queue and is [lastPoint]; without [tween], or
    without a [lastPoint], it returns having queued that one point; and
    nothing but the queue and [lastPoint] changes. *)
Theorem addPoint_only_appends (fuel : nat) (point : Point num) (tween : bool)
    (s : State num) :
  let r := addPoint fuel point tween s in
  (fst r = Return tt \/ fst r = Diverge)
  /\ (exists new, paintQueue (snd r) = paintQueue s ++ new)
  /\ (fst r = Return tt ->
      lastPoint (snd r) = Some (rounded point)
      /\ exists interior,
           paintQueue (snd r) = paintQueue s ++ interior ++ [rounded point])
  /\ (tween = false \/ lastPoint s = None ->
      fst r = Return tt /\ paintQueue (snd r) = paintQueue s ++ [rounded point])
  /\ snd r = set_paintQueue (paintQueue (snd r)) (set_lastPoint (lastPoint (snd r)) s).
Proof.
  intros r. subst r.
  destruct (addPoint_runs fuel point tween s) as (interior & [Hr | Hr] & Hdirect).
  - split; [left; now rewrite Hr |].
    split; [exists (interior ++ [rounded point]); now rewrite Hr |].
    split; [intros _; rewrite Hr; split; [reflexivity | now exists interior] |].
    split; [| now rewrite Hr].
    intros Hno. destruct (Hdirect Hno) as (-> & _). now rewrite Hr.
  - split; [right; now rewrite Hr |].
    split; [exists interior; now rewrite Hr |].
    split; [rewrite Hr; discriminate |].
    split; [| rewrite Hr; cbn [snd]; state_simpl; now destruct s].
    intros Hno. destruct (Hdirect Hno) as (_ & Hret). rewrite Hret in Hr. discriminate.
Qed.


(** The point of an event does not depend on the state. *)
Lemma getPointFromEvent_pure (event : Event num) (s : State num) :
  (exists p, forall t, getPointFromEvent event t = (Return p, t))
  \/ (forall t, getPointFromEvent event t = (Throw "TypeError"%string, t)).
Proof.
  unfold getPointFromEvent. destruct (targetTouches event) as [[| touch rest] |].
  - right. reflexivity.
  - left. eexists. reflexivity.
  - left. eexists. reflexivity.
Qed.

Lemma anchor_onPointerMove (fuel : nat) (event : Event num) :
  preserves (keeps anchor_fields) (onPointerMove fuel event).
Proof.
  pose proof (anchor_getPointFromEvent event). pose proof anchor_addPoint.
  unfold onPointerMove, cancelEvent. keeps_tac (@anchor_fields num); auto.
Qed.

(** A move with the pointer down. *)
Lemma onPointerMove_down (fuel : nat) (event : Event num) (s : State num)
    (p : Point num) :
  isPointerDown s = true ->
  (forall t, getPointFromEvent event t = (Return p, t)) ->
  onPointerMove fuel event s
  = addPoint fuel
      {| x := mul (add (x (offsetOrigin s)) (sub (x p) (x (pointerOrigin s)))) (scale s);
         y := mul (add (y (offsetOrigin s)) (sub (y p) (y (pointerOrigin s)))) (scale s) |}
      true (set_trace (trace s ++ [CancelEvent]) s).
Proof.
  intros Hdown Hp. unfold onPointerMove, cancelEvent.
  rewrite (bind_returns (gets isPointerDown) _ s s true) by (now rewrite <- Hdown).
  cbn [negb].
  rewrite (bind_returns (emit CancelEvent) _ s
             (set_trace (trace s ++ [CancelEvent]) s) tt eq_refl).
  rewrite (bind_returns _ _ _ _ p (Hp _)).
  reflexivity.
Qed.

Lemma onPointerMove_throws (fuel : nat) (event : Event num) (s : State num) :
  isPointerDown s = true ->
  (forall t, getPointFromEvent event t = (Throw "TypeError"%string, t)) ->
  onPointerMove fuel event s
  = (Throw "TypeError"%string, set_trace (trace s ++ [CancelEvent]) s).
Proof.
  intros Hdown Hp. unfold onPointerMove, cancelEvent.
  rewrite (bind_returns (gets isPointerDown) _ s s true) by (now rewrite <- Hdown).
  cbn [negb].
  rewrite (bind_returns (emit CancelEvent) _ s
             (set_trace (trace s ++ [CancelEvent]) s) tt eq_refl).
  now rewrite (bind_throws _ _ _ _ _ (Hp _)).
Qed.

(** X7: a move is measured from the pointer-down.  [onPointerMove] never
    changes [pointerOrigin], [offsetOrigin], [scale] or [isPointerDown], and
    only appends to the queue; when it returns with the pointer down, the
    point it has queued last, and made [lastPoint], is
    [(offsetOrigin + (position - pointerOrigin)) * scale], rounded. *)
Theorem onPointerMove_anchored (fuel : nat) (event : Event num) (s : State num) :
  let r := onPointerMove fuel event s in
  (isPointerDown (snd r), pointerOrigin (snd r), offsetOrigin (snd r), scale (snd r))
  = (isPointerDown s, pointerOrigin s, offsetOrigin s, scale s)
  /\ (exists new, paintQueue (snd r) = paintQueue s ++ new)
  /\ (forall position,
      isPointerDown s = true ->
      fst (getPointFromEvent event s) = Return position ->
      fst r = Return tt ->
      let point :=
        {| x := mul (add (x (offsetOrigin s))
                         (sub (x position) (x (pointerOrigin s)))) (scale s);
           y := mul (add (y (offsetOrigin s))
                         (sub (y position) (y (pointerOrigin s)))) (scale s) |} in
      lastPoint (snd r) = Some (rounded point)
      /\ exists interior,
           paintQueue (snd r) = paintQueue s ++ interior ++ [rounded point]).
Proof.
  intros r. subst r. split; [apply (anchor_onPointerMove fuel event s) |].
  destruct (isPointerDown s) eqn:Hdown.
  - destruct (getPointFromEvent_pure event s) as [(p & Hp) | Hp].
    + rewrite (onPointerMove_down fuel event s p Hdown Hp).
      match goal with
      | |- context [addPoint fuel ?pt true ?t] =>
          destruct (addPoint_runs fuel pt true t) as (interior & [Hr | Hr] & _);
          rewrite Hr
      end; cbn [fst snd]; state_simpl.
      * split; [now exists (interior ++ [rounded
          {| x := mul (add (x (offsetOrigin s)) (sub (x p) (x (pointerOrigin s)))) (scale s);
             y := mul (add (y (offsetOrigin s)) (sub (y p) (y (pointerOrigin s)))) (scale s) |}]) |].
        intros position _ Hposition _. rewrite Hp in Hposition.
        injection Hposition as <-. split; [reflexivity | now exists interior].
      * split; [now exists interior |]. intros position _ _ Hno. discriminate.
    + rewrite (onPointerMove_throws fuel event s Hdown Hp). cbn [fst snd]. state_simpl.
      split; [exists []; now rewrite app_nil_r |]. intros position _ _ Hno. discriminate.
  - rewrite (onPointerMove_ignored fuel event s Hdown). cbn [fst snd].
    split; [exists []; now rewrite app_nil_r |]. intros position Hno. discriminate.
Qed.

Lemma getOffsetPointFromEvent_outcome (event : Event num) (s : State num) :
  (exists o, getOffsetPointFromEvent event s = (Return o, s))
  \/ getOffsetPointFromEvent event s = (Throw "TypeError"%string, s).
Proof.
  unfold getOffsetPointFromEvent, bind, gets.
  destruct (offsetX event); [left; eexists; reflexivity |].
  destruct (originalEvent_layerX event); [right; reflexivity |].
  destruct (overlayCanvas s); [| right; reflexivity].
  destruct (touches event) as [[| touch rest] |];
    [right; reflexivity | left; eexists; reflexivity | right; reflexivity].
Qed.

(** The three ways a pointer-down ends. *)
Lemma onPointerDown_runs (event : Event num) (s : State num) :
  let s1 := set_isPointerDown true (set_trace (trace s ++ [CancelEvent]) s) in
  (exists p o,
     (forall t, getPointFromEvent event t = (Return p, t))
     /\ getOffsetPointFromEvent event (set_pointerOrigin p s1)
        = (Return o, set_pointerOrigin p s1)
     /\ onPointerDown event s
        = (Return tt,
           set_paintQueue
             (paintQueue s
              ++ [rounded {| x := mul (x o) (scale s); y := mul (y o) (scale s) |}])
             (set_lastPoint
                (Some (rounded {| x := mul (x o) (scale s); y := mul (y o) (scale s) |}))
                (set_offsetOrigin o (set_pointerOrigin p s1)))))
  \/ (exists p,
        (forall t, getPointFromEvent event t = (Return p, t))
        /\ getOffsetPointFromEvent event (set_pointerOrigin p s1)
           = (Throw "TypeError"%string, set_pointerOrigin p s1)
        /\ onPointerDown event s = (Throw "TypeError"%string, set_pointerOrigin p s1))
  \/ ((forall t, getPointFromEvent event t = (Throw "TypeError"%string, t))
      /\ onPointerDown event s = (Throw "TypeError"%string, s1)).
Proof.
  intros s1. unfold onPointerDown, cancelEvent.
  rewrite (bind_returns (emit CancelEvent) _ s
             (set_trace (trace s ++ [CancelEvent]) s) tt eq_refl).
  rewrite (bind_returns (modify (set_isPointerDown true)) _ _ s1 tt eq_refl).
  destruct (getPointFromEvent_pure event s) as [(p & Hp) | Hp].
  - rewrite (bind_returns _ _ _ _ p (Hp _)).
    rewrite (bind_returns (modify (set_pointerOrigin p)) _ _
               (set_pointerOrigin p s1) tt eq_refl).
    destruct (getOffsetPointFromEvent_outcome event (set_pointerOrigin p s1))
      as [(o & Ho) | Ho].
    + left. exists p, o. split; [exact Hp |]. split; [exact Ho |].
      rewrite (bind_returns _ _ _ _ o Ho).
      rewrite (bind_returns (modify (set_offsetOrigin o)) _ _
                 (set_offsetOrigin o (set_pointerOrigin p s1)) tt eq_refl).
      reflexivity.
    + right. left. exists p. split; [exact Hp |]. split; [exact Ho |].
      now rewrite (bind_throws _ _ _ _ _ Ho).
  - right. right. split; [exact Hp |]. now rewrite (bind_throws _ _ _ _ _ (Hp _)).
Qed.

(** X8: a pointer-down opens a stroke with one point.  However it ends,
    [onPointerDown] ends (it cannot loop) with [isPointerDown] set and
    [scale] as it was; when it returns it has queued exactly one point,
    [offsetOrigin * scale] rounded, and made it [lastPoint], with no
    interpolation even if a [lastPoint] was left; when it throws, the queue
    and [lastPoint] are as they were, but the pointer counts as down. *)
Theorem onPointerDown_outcome (event : Event num) (s : State num) :
  let r := onPointerDown event s in
  isPointerDown (snd r) = true
  /\ scale (snd r) = scale s
  /\ (fst r = Return tt \/ fst r = Throw "TypeError"%string)
  /\ (fst r = Return tt ->
      let point := rounded {| x := mul (x (offsetOrigin (snd r))) (scale s);
                              y := mul (y (offsetOrigin (snd r))) (scale s) |} in
      paintQueue (snd r) = paintQueue s ++ [point]
      /\ lastPoint (snd r) = Some point)
  /\ (fst r = Throw "TypeError"%string ->
      paintQueue (snd r) = paintQueue s /\ lastPoint (snd r) = lastPoint s).
Proof.
  intros r. subst r.
  destruct (onPointerDown_runs event s)
    as [(p & o & _ & _ & Hr) | [(p & _ & _ & Hr) | (_ & Hr)]];
    rewrite Hr; cbn [fst snd]; state_simpl;
    repeat split; auto; discriminate.
Qed.

(** X9: an event with no numeric [offsetX] but an [originalEvent] with a
    numeric [layerX] makes the pointer-down throw: the branch for it reads
    the misspelt [event.oritinalEvent].  Nothing is queued, [offsetOrigin]
    and [lastPoint] stay, and [isPointerDown] is left set. *)
Theorem onPointerDown_layerX_throws (event : Event num) (s : State num) :
  offsetX event = None -> originalEvent_layerX event = true ->
  fst (onPointerDown event s) = Throw "TypeError"%string
  /\ isPointerDown (snd (onPointerDown event s)) = true
  /\ paintQueue (snd (onPointerDown event s)) = paintQueue s
  /\ lastPoint (snd (onPointerDown event s)) = lastPoint s
  /\ offsetOrigin (snd (onPointerDown event s)) = offsetOrigin s.
Proof.
  intros Hoffset Hlayer.
  destruct (onPointerDown_runs event s)
    as [(p & o & _ & Ho & _) | [(p & _ & _ & Hr) | (_ & Hr)]].
  - unfold getOffsetPointFromEvent in Ho. rewrite Hoffset, Hlayer in Ho. discriminate.
  - rewrite Hr. cbn [fst snd]. state_simpl. auto.
  - rewrite Hr. cbn [fst snd]. state_simpl. auto.
Qed.

Lemma cancelled_tween_loop (numSegments : num) (point : Point num) (dx dy : num) :
  forall (fuel : nat) (i : Z),
  preserves (keeps (fun s => cancellations (trace s)))
    (tween_loop fuel i numSegments point dx dy).
Proof.
  induction fuel as [| fuel IH]; intros i; cbn [tween_loop]; unfold push.
  - keeps_tac (fun s : State num => cancellations (trace s)).
  - pose proof (IH (i + 1)%Z).
    keeps_tac (fun s : State num => cancellations (trace s)); assumption.
Qed.

Lemma cancelled_addPoint (fuel : nat) (point : Point num) (tween : bool) :
  preserves (keeps (fun s => cancellations (trace s))) (addPoint fuel point tween).
Proof.
  pose proof cancelled_tween_loop.
  unfold addPoint, push. keeps_tac (fun s : State num => cancellations (trace s)); auto.
Qed.

Lemma cancelled_testRevealed :
  preserves (keeps (fun s : State num => cancellations (trace s))) (testRevealed userFn).
Proof.
  unfold testRevealed, getImageData, call.
  keeps_tac (fun s : State num => cancellations (trace s)).
Qed.

Lemma cancellations_snoc (s : State num) :
  cancellations (trace s ++ [CancelEvent]) = (cancellations (trace s) + 1)%nat.
Proof. unfold cancellations. now rewrite count_snoc. Qed.

(** X10: each pointer event that is handled is cancelled exactly once,
    also when the handler then throws or does not return; a move or an up
    with no pointer down is not cancelled and stays the page's. *)
Theorem handled_events_are_cancelled_once (fuel : nat) (event : Event num)
    (s : State num) :
  cancellations (trace (snd (onPointerDown event s)))
  = (cancellations (trace s) + 1)%nat
  /\ cancellations (trace (snd (onPointerMove fuel event s)))
     = (cancellations (trace s) + (if isPointerDown s then 1 else 0))%nat
  /\ cancellations (trace (snd (onPointerUp userFn event s)))
     = (cancellations (trace s) + (if isPointerDown s then 1 else 0))%nat.
Proof.
  split; [| split].
  - destruct (onPointerDown_runs event s)
      as [(p & o & _ & _ & Hr) | [(p & _ & _ & Hr) | (_ & Hr)]];
      rewrite Hr; cbn [snd]; state_simpl; apply cancellations_snoc.
  - destruct (isPointerDown s) eqn:Hdown.
    + destruct (getPointFromEvent_pure event s) as [(p & Hp) | Hp].
      * rewrite (onPointerMove_down fuel event s p Hdown Hp).
        match goal with
        | |- context [addPoint fuel ?pt true ?t] =>
            rewrite (cancelled_addPoint fuel pt true t)
        end.
        state_simpl. apply cancellations_snoc.
      * rewrite (onPointerMove_throws fuel event s Hdown Hp). cbn [snd]. state_simpl.
        apply cancellations_snoc.
    + rewrite (onPointerMove_ignored fuel event s Hdown). cbn [snd]. lia.
  - destruct (isPointerDown s) eqn:Hdown.
    + rewrite (onPointerUp_down event s Hdown).
      match goal with
      | |- context [testRevealed userFn ?t] => rewrite (cancelled_testRevealed t)
      end.
      state_simpl. apply cancellations_snoc.
    + rewrite (onPointerUp_not_down event s Hdown). cbn [snd]. lia.
Qed.

(* ----------------------------------------------------------------- *)
(** *** A load that failed *)

Lemma failed_not_listening (w : Which) (s : State num) :
  well_formed s -> failed w s -> listening s = false /\ animating s = false.
Proof.
  intros ((Hraf & _) & Hon & _) Hfailed.
  assert (Hoff : listening s = false -> animating s = false).
  { intros Hoff. destruct (animating s); [| reflexivity].
    rewrite Hraf in Hoff by reflexivity. discriminate. }
  destruct (listening s); [| split; [reflexivity | now apply Hoff]].
  destruct (Hon eq_refl) as (_ & _ & overlay & brush & Hoverlay & Hbrush & _).
  destruct w; destruct Hfailed as (_ & Hnone); congruence.
Qed.

Lemma overlay_onResize :
  preserves (keeps (fun s : State num => (overlayLoaded s, overlayCanvas s))) onResize.
Proof.
  unfold onResize.
  keeps_tac (fun s : State num => (overlayLoaded s, overlayCanvas s)).
Qed.

Lemma overlay_onCanvasLoaded :
  preserves (keeps (fun s : State num => (overlayLoaded s, overlayCanvas s)))
    onCanvasLoaded.
Proof.
  pose proof overlay_onResize. unfold onCanvasLoaded.
  keeps_tac (fun s : State num => (overlayLoaded s, overlayCanvas s)); auto.
Qed.

Lemma overlay_onImage_Brush (canvas : option Canvas) :
  preserves (keeps (fun s : State num => (overlayLoaded s, overlayCanvas s)))
    (onImage Brush canvas).
Proof.
  pose proof overlay_onCanvasLoaded. unfold onImage.
  keeps_tac (fun s : State num => (overlayLoaded s, overlayCanvas s)); auto.
Qed.

Lemma brush_onResize :
  preserves (keeps (fun s : State num => (brushLoaded s, brushCanvas s))) onResize.
Proof.
  unfold onResize.
  keeps_tac (fun s : State num => (brushLoaded s, brushCanvas s)).
Qed.

Lemma brush_onCanvasLoaded :
  preserves (keeps (fun s : State num => (brushLoaded s, brushCanvas s)))
    onCanvasLoaded.
Proof.
  pose proof brush_onResize. unfold onCanvasLoaded.
  keeps_tac (fun s : State num => (brushLoaded s, brushCanvas s)); auto.
Qed.

Lemma brush_onImage_Overlay (canvas : option Canvas) :
  preserves (keeps (fun s : State num => (brushLoaded s, brushCanvas s)))
    (onImage Overlay canvas).
Proof.
  pose proof brush_onCanvasLoaded. unfold onImage.
  keeps_tac (fun s : State num => (brushLoaded s, brushCanvas s)); auto.
Qed.

Lemma failed_kept (w : Which) (s s' : State num) :
  match w with
  | Overlay => keeps (fun s : State num => (overlayLoaded s, overlayCanvas s)) s s'
  | Brush => keeps (fun s : State num => (brushLoaded s, brushCanvas s)) s s'
  end ->
  failed w s -> failed w s'.
Proof.
  unfold keeps. destruct w; intros Hk (Hl & Hc); injection Hk as Hl' Hc';
    split; congruence.
Qed.

Lemma failed_dispatch (fuel : nat) (w : Which) (i : Input num) (s : State num) :
  well_formed s -> failed w s -> failed w (snd (dispatch drawImage userFn fuel i s)).
Proof.
  intros Hwf Hfailed.
  destruct (failed_not_listening w s Hwf Hfailed) as (Hoff & Hraf).
  destruct Hwf as (_ & _ & Hop & Hbp & _).
  destruct i as [[|] canvas | event | event | event | | | d]; unfold dispatch;
    try (unfold bind at 1; unfold gets at 1; rewrite ?Hoff, ?Hraf; exact Hfailed).
  - unfold bind at 1. unfold gets at 1.
    destruct (overlayPending s) eqn:Hpending; [| exact Hfailed].
    unfold bind at 1. unfold modify at 1.
    destruct w.
    + destruct Hfailed as (Hl & _). rewrite Hop in Hl by reflexivity. discriminate.
    + eapply failed_kept; [apply (brush_onImage_Overlay canvas) | exact Hfailed].
  - unfold bind at 1. unfold gets at 1.
    destruct (brushPending s) eqn:Hpending; [| exact Hfailed].
    unfold bind at 1. unfold modify at 1.
    destruct w.
    + eapply failed_kept; [apply (overlay_onImage_Brush canvas) | exact Hfailed].
    + destruct Hfailed as (Hl & _). rewrite Hbp in Hl by reflexivity. discriminate.
  - destruct w; exact Hfailed.
Qed.

Lemma failed_run (fuel : nat) (w : Which) (inputs : list (Input num)) :
  forall s, well_formed s -> failed w s ->
  failed w (run drawImage userFn fuel inputs s).
Proof.
  induction inputs as [| i rest IH]; intros s Hwf Hfailed; cbn [run]; [exact Hfailed |].
  pose proof (well_formed_dispatch fuel i s Hwf) as Hstep.
  pose proof (failed_dispatch fuel w i s Hwf Hfailed) as Hstill.
  destruct (dispatch drawImage userFn fuel i s) as [[[] | msg |] s']; cbn [snd] in *; auto.
Qed.

(** X16: a failed load is final.  Once the load of an image is over
    without a canvas, at any time in the life of a widget, nothing that
    happens later starts the widget: the load stays failed, no listener is
    registered, no frame is requested, nothing is stamped, scanned or
    called. *)
Theorem failed_load_is_final (fuel : nat) (d : Dom num)
    (arguments : list (JSValue num)) (inputs later : list (Input num)) (w : Which) :
  let s := lifetime StringToNumber drawImage userFn fuel d arguments inputs in
  let s' := run drawImage userFn fuel later s in
  failed w s ->
  failed w s'
  /\ registrations (trace s') = 0%nat
  /\ animating s' = false
  /\ paintQueue s' = []
  /\ activity (trace s') = (0, 0, 0, 0)%nat.
Proof.
  intros s s' Hfailed.
  pose proof (well_formed_lifetime fuel d arguments inputs) as Hwf. fold s in Hwf.
  pose proof (well_formed_run fuel later s Hwf) as Hwf'. fold s' in Hwf'.
  pose proof (failed_run fuel w later s Hwf Hfailed) as Hstill. fold s' in Hstill.
  destruct (failed_not_listening w s' Hwf' Hstill) as (Hoff & Hraf).
  destruct Hwf' as (_ & _ & _ & _ & Hreg & _ & _ & Hidle).
  rewrite Hoff in Hreg. destruct (Hidle Hoff) as (_ & Hqueue & Hact). auto.
Qed.

Lemma failed_getCanvasFromImage (imgUrl : JSValue num) (w : Which) (s : State num) :
  not_a_string imgUrl -> failed w (snd (getCanvasFromImage imgUrl w s)).
Proof.
  intros Hurl.
  assert (Hnone : failed w (snd (onImage w None s))).
  { unfold onImage. destruct w; unfold bind at 1 2, modify at 1 2.
    - eapply failed_kept; [apply overlay_onCanvasLoaded | split; reflexivity].
    - eapply failed_kept; [apply brush_onCanvasLoaded | split; reflexivity]. }
  unfold getCanvasFromImage. destruct imgUrl; try exact Hnone. contradiction.
Qed.

Lemma getCanvasFromImage_returns (imgUrl : JSValue num) (w : Which) (s : State num) :
  fst (getCanvasFromImage imgUrl w s) = Return tt.
Proof.
  assert (Hloaded : forall t, fst (onCanvasLoaded t) = Return tt).
  { intros t. unfold onCanvasLoaded, onResize, emit, bind, gets, modify.
    destruct (negb _); [reflexivity |].
    destruct (overlayCanvas t) as [overlay |] eqn:Hoverlay; [| reflexivity].
    destruct (brushCanvas t); [| reflexivity]. state_simpl. now rewrite Hoverlay. }
  unfold getCanvasFromImage, onImage.
  destruct imgUrl, w; unfold emit, bind, modify; cbn [fst snd];
    try apply Hloaded; reflexivity.
Qed.

Lemma overlay_getCanvasFromImage_Brush (imgUrl : JSValue num) :
  preserves (keeps (fun s : State num => (overlayLoaded s, overlayCanvas s)))
    (getCanvasFromImage imgUrl Brush).
Proof.
  pose proof overlay_onImage_Brush. unfold getCanvasFromImage.
  keeps_tac (fun s : State num => (overlayLoaded s, overlayCanvas s)); auto.
Qed.

(** X17: a URL that is no string is a failed load, at once.  When the
    constructor returns and the overlay's or the brush's URL is no string,
    that load has failed before the constructor is back, and the widget
    never starts, whatever comes in later. *)
Theorem non_string_url_never_starts (fuel : nat) (d : Dom num)
    (arguments : list (JSValue num)) (inputs : list (Input num)) (w : Which) :
  not_a_string (url_argument w arguments) ->
  fst (ScratchIt StringToNumber d arguments) = Return tt ->
  let s := lifetime StringToNumber drawImage userFn fuel d arguments inputs in
  failed w (snd (ScratchIt StringToNumber d arguments))
  /\ failed w s
  /\ registrations (trace s) = 0%nat
  /\ animating s = false
  /\ activity (trace s) = (0, 0, 0, 0)%nat.
Proof.
  intros Hurl Hret s.
  pose proof (well_formed_construct arguments (initial d) (well_formed_initial d)
                (conj eq_refl eq_refl) (conj eq_refl eq_refl)) as Hwf0.
  assert (Hfailed0 : failed w (snd (ScratchIt StringToNumber d arguments))).
  { revert Hret. unfold ScratchIt, construct.
    rewrite (bind_returns (modify (set_parentEl _)) _ _ _ tt eq_refl).
    rewrite (bind_returns (gets parentEl) _ _ _ _ eq_refl).
    rewrite (bind_returns (gets dom) _ _ _ _ eq_refl).
    destruct (negb _); [discriminate |].
    destruct (negb _); [discriminate |].
    destruct (_ || _); [discriminate |].
    rewrite (bind_returns (modify (set_revealCallback _)) _ _ _ tt eq_refl).
    rewrite (bind_returns (modify (set_revealThreshold _)) _ _ _ tt eq_refl).
    intros _.
    match goal with
    | |- context [bind (getCanvasFromImage ?o Overlay) _ ?t] =>
        pose proof (getCanvasFromImage_returns o Overlay t) as Hfirst;
        pose proof (failed_getCanvasFromImage o Overlay t) as Hoverlay;
        destruct (getCanvasFromImage o Overlay t) as [r t'] eqn:Hload;
        cbn [fst snd] in Hfirst, Hoverlay; subst r;
        rewrite (bind_returns _ _ t t' tt Hload)
    end.
    destruct w; cbn [url_argument] in Hurl.
    - eapply failed_kept; [apply overlay_getCanvasFromImage_Brush | now apply Hoverlay].
    - now apply failed_getCanvasFromImage. }
  assert (Hs : s = run drawImage userFn fuel inputs (snd (ScratchIt StringToNumber d arguments))).
  { unfold s, lifetime. destruct (ScratchIt StringToNumber d arguments) as [r s0].
    cbn [fst snd] in *. now subst r. }
  unfold ScratchIt in Hs, Hfailed0.
  pose proof (well_formed_run fuel inputs _ Hwf0) as Hwf. rewrite <- Hs in Hwf.
  pose proof (failed_run fuel w inputs _ Hwf0 Hfailed0) as Hfailed. rewrite <- Hs in Hfailed.
  destruct (failed_not_listening w s Hwf Hfailed) as (Hoff & Hraf).
  destruct Hwf as (_ & _ & _ & _ & Hreg & _ & _ & Hidle).
  rewrite Hoff in Hreg. destruct (Hidle Hoff) as (_ & _ & Hact). auto.
Qed.

(* ----------------------------------------------------------------- *)
(** *** Who scans and who stamps *)

Lemma unrevealed_tween_loop (numSegments : num) (point : Point num) (dx dy : num) :
  forall (fuel : nat) (i : Z),
  preserves (keeps (@reveal_fields num)) (tween_loop fuel i numSegments point dx dy).
Proof.
  induction fuel as [| fuel IH]; intros i; cbn [tween_loop]; unfold push.
  - keeps_tac (@reveal_fields num).
  - pose proof (IH (i + 1)%Z). keeps_tac (@reveal_fields num); assumption.
Qed.

Lemma unrevealed_addPoint (fuel : nat) (point : Point num) (tween : bool) :
  preserves (keeps (@reveal_fields num)) (addPoint fuel point tween).
Proof.
  pose proof unrevealed_tween_loop.
  unfold addPoint, push. keeps_tac (@reveal_fields num); auto.
Qed.

Lemma unrevealed_getPointFromEvent (event : Event num) :
  preserves (keeps (@reveal_fields num)) (getPointFromEvent event).
Proof.
  unfold getPointFromEvent. keeps_tac (@reveal_fields num).
Qed.

Lemma unrevealed_getOffsetPointFromEvent (event : Event num) :
  preserves (keeps (@reveal_fields num)) (getOffsetPointFromEvent event).
Proof.
  unfold getOffsetPointFromEvent. keeps_tac (@reveal_fields num).
Qed.

Lemma unrevealed_onPointerDown (event : Event num) :
  preserves (keeps (@reveal_fields num)) (onPointerDown event).
Proof.
  pose proof (unrevealed_getPointFromEvent event).
  pose proof (unrevealed_getOffsetPointFromEvent event).
  pose proof unrevealed_addPoint.
  unfold onPointerDown, cancelEvent. keeps_tac (@reveal_fields num); auto.
Qed.

Lemma unrevealed_onPointerMove (fuel : nat) (event : Event num) :
  preserves (keeps (@reveal_fields num)) (onPointerMove fuel event).
Proof.
  pose proof (unrevealed_getPointFromEvent event).
  pose proof unrevealed_addPoint.
  unfold onPointerMove, cancelEvent. keeps_tac (@reveal_fields num); auto.
Qed.

Lemma unrevealed_onResize :
  preserves (keeps (@reveal_fields num)) onResize.
Proof.
  unfold onResize. keeps_tac (@reveal_fields num).
Qed.

Lemma unrevealed_onCanvasLoaded :
  preserves (keeps (@reveal_fields num)) onCanvasLoaded.
Proof.
  pose proof unrevealed_onResize.
  unfold onCanvasLoaded. keeps_tac (@reveal_fields num); auto.
Qed.

Lemma unrevealed_onImage (w : Which) (canvas : option Canvas) :
  preserves (keeps (@reveal_fields num)) (onImage w canvas).
Proof.
  pose proof unrevealed_onCanvasLoaded.
  unfold onImage. keeps_tac (@reveal_fields num); auto.
Qed.

Lemma unrevealed_stamp (point : Point num) :
  preserves (keeps (@reveal_fields num)) (stamp drawImage point).
Proof.
  unfold stamp. keeps_tac (@reveal_fields num).
Qed.

Lemma unrevealed_drain (queue : list (Point num)) :
  preserves (keeps (@reveal_fields num)) (drain drawImage queue).
Proof.
  induction queue as [| point rest IH]; cbn [drain].
  - keeps_tac (@reveal_fields num).
  - pose proof (unrevealed_stamp point). keeps_tac (@reveal_fields num); auto.
Qed.

Lemma unrevealed_draw :
  preserves (keeps (@reveal_fields num)) (draw drawImage).
Proof.
  pose proof unrevealed_drain.
  unfold draw. keeps_tac (@reveal_fields num); auto.
Qed.

Lemma unstamped_tween_loop (numSegments : num) (point : Point num) (dx dy : num) :
  forall (fuel : nat) (i : Z),
  preserves (keeps (fun s : State num => draws (trace s))) (tween_loop fuel i numSegments point dx dy).
Proof.
  induction fuel as [| fuel IH]; intros i; cbn [tween_loop]; unfold push.
  - keeps_tac (fun s : State num => draws (trace s)).
  - pose proof (IH (i + 1)%Z). keeps_tac (fun s : State num => draws (trace s)); assumption.
Qed.

Lemma unstamped_addPoint (fuel : nat) (point : Point num) (tween : bool) :
  preserves (keeps (fun s : State num => draws (trace s))) (addPoint fuel point tween).
Proof.
  pose proof unstamped_tween_loop.
  unfold addPoint, push. keeps_tac (fun s : State num => draws (trace s)); auto.
Qed.

Lemma unstamped_getPointFromEvent (event : Event num) :
  preserves (keeps (fun s : State num => draws (trace s))) (getPointFromEvent event).
Proof.
  unfold getPointFromEvent. keeps_tac (fun s : State num => draws (trace s)).
Qed.

Lemma unstamped_getOffsetPointFromEvent (event : Event num) :
  preserves (keeps (fun s : State num => draws (trace s))) (getOffsetPointFromEvent event).
Proof.
  unfold getOffsetPointFromEvent. keeps_tac (fun s : State num => draws (trace s)).
Qed.

Lemma unstamped_onPointerDown (event : Event num) :
  preserves (keeps (fun s : State num => draws (trace s))) (onPointerDown event).
Proof.
  pose proof (unstamped_getPointFromEvent event).
  pose proof (unstamped_getOffsetPointFromEvent event).
  pose proof unstamped_addPoint.
  unfold onPointerDown, cancelEvent. keeps_tac (fun s : State num => draws (trace s)); auto.
Qed.

Lemma unstamped_onPointerMove (fuel : nat) (event : Event num) :
  preserves (keeps (fun s : State num => draws (trace s))) (onPointerMove fuel event).
Proof.
  pose proof (unstamped_getPointFromEvent event).
  pose proof unstamped_addPoint.
  unfold onPointerMove, cancelEvent. keeps_tac (fun s : State num => draws (trace s)); auto.
Qed.

Lemma unstamped_onResize :
  preserves (keeps (fun s : State num => draws (trace s))) onResize.
Proof.
  unfold onResize. keeps_tac (fun s : State num => draws (trace s)).
Qed.

Lemma unstamped_onCanvasLoaded :
  preserves (keeps (fun s : State num => draws (trace s))) onCanvasLoaded.
Proof.
  pose proof unstamped_onResize.
  unfold onCanvasLoaded. keeps_tac (fun s : State num => draws (trace s)); auto.
Qed.

Lemma unstamped_onImage (w : Which) (canvas : option Canvas) :
  preserves (keeps (fun s : State num => draws (trace s))) (onImage w canvas).
Proof.
  pose proof unstamped_onCanvasLoaded.
  unfold onImage. keeps_tac (fun s : State num => draws (trace s)); auto.
Qed.

Lemma unstamped_testRevealed :
  preserves (keeps (fun s : State num => draws (trace s))) (testRevealed userFn).
Proof.
  unfold testRevealed, getImageData, call. keeps_tac (fun s : State num => draws (trace s)).
Qed.

Lemma unstamped_onPointerUp (event : Event num) :
  preserves (keeps (fun s : State num => draws (trace s))) (onPointerUp userFn event).
Proof.
  pose proof unstamped_testRevealed.
  unfold onPointerUp, cancelEvent. keeps_tac (fun s : State num => draws (trace s)); auto.
Qed.


(** C8, as the code has it: the handler of pointer-up goes straight to the
    reveal check.  Neither of them touches the paint queue or the overlay,
    or stamps anything; and on a widget with a pointer down and not yet
    revealed, whatever the queue holds, the scan is the first thing the
    handler does after cancelling the event, and the comparison with the
    threshold is made on the bitmap of the overlay as pointer-up finds it.
    The points queued at pointer-up are still queued, and not yet erased,
    when the alpha channel is read; the next frame's [draw] applies
    them. *)
Theorem onPointerUp_scans_without_draining (event : Event num) (s : State num) :
  let s' := snd (onPointerUp userFn event s) in
  (paintQueue s' = paintQueue s
   /\ overlayCanvas s' = overlayCanvas s
   /\ draws (trace s') = draws (trace s))
  /\ (forall overlay : Canvas,
        isPointerDown s = true ->
        overlayCanvas s = Some overlay ->
        isRevealed s = false ->
        width overlay <> 0%Z -> height overlay <> 0%Z ->
        let erasedFraction :=
          mul (div (of_Z (countVisible (data overlay)))
                   (mul (of_Z (width overlay)) (of_Z (height overlay))))
              (of_Z 100) in
        trace s'
        = trace s
          ++ [CancelEvent; GetImageData (width overlay) (height overlay)]
          ++ (if geb erasedFraction (revealThreshold s)
              then match revealCallback s with
                   | VFunction f => [Invoke f []]
                   | _ => []
                   end
              else [])).
Proof.
  intros s'. split; [exact (undrawn_onPointerUp userFn event s) |].
  intros overlay Hdown Hoc Hrev Hw Hh erasedFraction. subst s' erasedFraction.
  rewrite (onPointerUp_down event s Hdown).
  rewrite (testRevealed_trace userFn _ overlay) by (state_simpl; assumption).
  state_simpl. rewrite <- app_assoc. reflexivity.
Qed.

(** X19: the overlay is stamped in animation frames and nowhere else.  A
    pointer event, a resize or a change of the document stamps nothing and
    leaves the overlay as it is; what a pointer event adds waits in the
    queue for the next frame. *)
Theorem overlay_is_stamped_in_frames_only (fuel : nat) (i : Input num) (s : State num) :
  let s' := snd (dispatch drawImage userFn fuel i s) in
  (i <> AnimationFrame -> draws (trace s') = draws (trace s))
  /\ (i <> AnimationFrame -> (forall w canvas, i <> ImageLoaded w canvas) ->
      overlayCanvas s' = overlayCanvas s /\ brushCanvas s' = brushCanvas s).
Proof.
  intros s'. subst s'.
  assert (Hinit : forall t t' : State num, keeps init_fields t t' ->
            overlayCanvas t' = overlayCanvas t /\ brushCanvas t' = brushCanvas t).
  { unfold keeps, init_fields. intros t t' Hk. injection Hk as _ _ Ho Hb _. auto. }
  destruct i as [[|] canvas | event | event | event | | | d]; unfold dispatch.
  - split; [intros _ | intros _ Hno; now destruct (Hno Overlay canvas)].
    unfold bind at 1. unfold gets at 1.
    destruct (overlayPending s); [| reflexivity].
    unfold bind at 1. unfold modify at 1.
    apply (unstamped_onImage Overlay canvas (set_overlayPending false s)).
  - split; [intros _ | intros _ Hno; now destruct (Hno Brush canvas)].
    unfold bind at 1. unfold gets at 1.
    destruct (brushPending s); [| reflexivity].
    unfold bind at 1. unfold modify at 1.
    apply (unstamped_onImage Brush canvas (set_brushPending false s)).
  - unfold bind at 1 2 3. unfold gets at 1 2 3.
    destruct (listening s); [| now repeat split].
    split; intros; [apply unstamped_onPointerDown | apply Hinit, init_onPointerDown].
  - unfold bind at 1 2 3. unfold gets at 1 2 3.
    destruct (listening s); [| now repeat split].
    split; intros; [apply unstamped_onPointerMove | apply Hinit, init_onPointerMove].
  - unfold bind at 1 2 3. unfold gets at 1 2 3.
    destruct (listening s); [| now repeat split].
    split; intros; [apply unstamped_onPointerUp | apply Hinit, init_onPointerUp].
  - split; intros Hno; now destruct Hno.
  - unfold bind at 1 2 3. unfold gets at 1 2 3.
    destruct (listening s); [| now repeat split].
    split; intros; [apply unstamped_onResize | apply Hinit, init_onResize].
  - now repeat split.
Qed.

End MoreFacts.

(* ================================================================= *)
(** ** The further facts on examples, in binary64 *)

Module Binary64More.

Local Open Scope float_scope.

(** X1 on an example: the press is queued, and the frame stamps it. *)
Lemma draw_drains_in_order_witness :
  overlayCanvas Example.pressed = Some Example.one_pixel
  /\ brushCanvas Example.pressed = Some Example.small_brush
  /\ paintQueue Example.pressed = [{| x := 0; y := 0 |}]
  /\ fst (draw Example.covering_brush Example.pressed) = Return tt
  /\ paintQueue (snd (draw Example.covering_brush Example.pressed)) = []
  /\ trace (snd (draw Example.covering_brush Example.pressed))
     = trace Example.pressed ++ [DrawImage (-1) (-1); RequestAnimationFrame].
Proof.
  assert (Hoverlay : overlayCanvas Example.pressed = Some Example.one_pixel)
    by reflexivity.
  assert (Hbrush : brushCanvas Example.pressed = Some Example.small_brush)
    by reflexivity.
  assert (Hqueue : paintQueue Example.pressed = [{| x := 0; y := 0 |}])
    by reflexivity.
  destruct (draw_drains_in_order Example.covering_brush Example.pressed
              Example.one_pixel Example.small_brush Hoverlay Hbrush)
    as (Hruns & _).
  destruct Hruns as (Hreturns & Hempty & _ & _ & Htrace & _);
    [discriminate | discriminate |].
  split; [exact Hoverlay |]. split; [exact Hbrush |]. split; [exact Hqueue |].
  split; [exact Hreturns |]. split; [exact Hempty |].
  rewrite Htrace, Hqueue. reflexivity.
Defined.

(** X1 on an example of the other kind: over a brush with no pixels the
    frame after the press throws, the point is gone from the queue and
    nothing is stamped; no frame is requested any more, and the frames
    that the browser might still send do nothing. *)
Lemma draw_throws_example :
  let s := lifetime Example.StringToNumber Example.covering_brush Example.polite 0
             Example.page (Example.arguments_with (VNumber 50))
             Scenario.empty_handed in
  paintQueue s = [{| x := 0; y := 0 |}]
  /\ animating s = true
  /\ draw Example.covering_brush s
     = (Throw "InvalidStateError"%string, set_paintQueue [] s)
  /\ animating (run Example.covering_brush Example.polite 0 [AnimationFrame] s)
     = false
  /\ listening (run Example.covering_brush Example.polite 0 [AnimationFrame] s)
     = true
  /\ draws (trace (run Example.covering_brush Example.polite 0
                     [AnimationFrame; AnimationFrame] s)) = 0%nat.
Proof.
  cbv zeta. repeat (split; [vm_compute; reflexivity |]). vm_compute; reflexivity.
Qed.

(** C8 on an example: the pointer goes up on the widget of one pixel with
    the point of the press still queued; the overlay is scanned at once,
    as it is, and the point stays queued. *)
Lemma onPointerUp_scans_without_draining_witness :
  let s' := snd (onPointerUp Example.polite Example.press Example.pressed) in
  paintQueue Example.pressed = [{| x := 0; y := 0 |}]
  /\ paintQueue s' = [{| x := 0; y := 0 |}]
  /\ overlayCanvas s' = Some Example.one_pixel
  /\ trace s' = trace Example.pressed ++ [CancelEvent; GetImageData 1 1].
Proof.
  cbv zeta.
  assert (Hqueue : paintQueue Example.pressed = [{| x := 0; y := 0 |}])
    by reflexivity.
  assert (Hoverlay : overlayCanvas Example.pressed = Some Example.one_pixel)
    by reflexivity.
  assert (Hdown : isPointerDown Example.pressed = true) by reflexivity.
  assert (Hrev : isRevealed Example.pressed = false) by reflexivity.
  destruct (onPointerUp_scans_without_draining Example.polite Example.press
              Example.pressed) as ((Hq & Ho & _) & Hscan).
  split; [exact Hqueue |]. split; [now rewrite Hq |].
  split; [now rewrite Ho |].
  rewrite (Hscan Example.one_pixel Hdown Hoverlay Hrev); [reflexivity | |];
    discriminate.
Defined.

(** C4 fails when the callback throws.  The widget of one pixel is
    constructed with a threshold of 0 and a callback that throws; the
    user makes two strokes.  Each pointer-up scans the overlay and calls
    the callback, which throws before the flag is set: the callback has
    been called twice and the widget is still not revealed.  With a
    callback that returns, the same two strokes call it once. *)
Theorem throwing_callback_is_called_again :
  let rude := lifetime Example.StringToNumber Example.covering_brush Example.rude 0
                Example.page (Example.arguments_with (VNumber 0))
                Scenario.two_strokes in
  let polite := lifetime Example.StringToNumber Example.covering_brush
                  Example.polite 0 Example.page
                  (Example.arguments_with (VNumber 0)) Scenario.two_strokes in
  invokes (trace rude) = 2%nat
  /\ scans (trace rude) = 2%nat
  /\ isRevealed rude = false
  /\ filter is_Invoke (trace rude) = [Invoke (UserFn 1) []; Invoke (UserFn 1) []]
  /\ invokes (trace polite) = 1%nat
  /\ isRevealed polite = true.
Proof.
  cbv zeta. repeat (split; [vm_compute; reflexivity |]). vm_compute; reflexivity.
Qed.


(** X4 on an example: after a press and a release no point is left to
    interpolate from. *)
Lemma strokes_are_not_joined_witness :
  isPointerDown
    (lifetime Example.StringToNumber Example.covering_brush Example.polite 0 Example.page
       (Example.arguments_with (VNumber 50)) Scenario.stroke) = false
  /\ lastPoint
       (lifetime Example.StringToNumber Example.covering_brush Example.polite 0 Example.page
          (Example.arguments_with (VNumber 50)) Scenario.stroke) = None.
Proof.
  assert (Hup : isPointerDown
                  (lifetime Example.StringToNumber Example.covering_brush Example.polite 0 Example.page
                     (Example.arguments_with (VNumber 50)) Scenario.stroke) = false)
    by reflexivity.
  split; [exact Hup |].
  exact (strokes_are_not_joined Example.StringToNumber Example.covering_brush
           Example.polite 0
           Example.page (Example.arguments_with (VNumber 50)) Scenario.stroke Hup).
Defined.

(** X9 on an example: the wrapped event on the widget of one pixel. *)
Lemma onPointerDown_layerX_throws_witness :
  fst (onPointerDown Scenario.wrapped_press Example.pressed) = Throw "TypeError"%string
  /\ isPointerDown (snd (onPointerDown Scenario.wrapped_press Example.pressed)) = true
  /\ paintQueue (snd (onPointerDown Scenario.wrapped_press Example.pressed))
     = paintQueue Example.pressed.
Proof.
  destruct (onPointerDown_layerX_throws Scenario.wrapped_press Example.pressed
              eq_refl eq_refl) as (Hthrows & Hdown & Hqueue & _).
  split; [exact Hthrows |]. split; [exact Hdown | exact Hqueue].
Defined.

(** X16 on an example: the brush fails, the overlay loads, the user
    scratches; nothing happens. *)
Lemma failed_load_is_final_witness :
  failed Brush
    (lifetime Example.StringToNumber Example.covering_brush Example.polite 0 Example.page
       (Example.arguments_with (VNumber 50)) Scenario.brush_missing)
  /\ registrations
       (trace
          (run Example.covering_brush Example.polite 0 Scenario.tries
             (lifetime Example.StringToNumber Example.covering_brush Example.polite 0 Example.page
                (Example.arguments_with (VNumber 50)) Scenario.brush_missing)))
     = 0%nat
  /\ paintQueue
       (run Example.covering_brush Example.polite 0 Scenario.tries
          (lifetime Example.StringToNumber Example.covering_brush Example.polite 0 Example.page
             (Example.arguments_with (VNumber 50)) Scenario.brush_missing))
     = [].
Proof.
  assert (Hfailed : failed Brush
                      (lifetime Example.StringToNumber Example.covering_brush Example.polite 0
                         Example.page (Example.arguments_with (VNumber 50))
                         Scenario.brush_missing))
    by (split; reflexivity).
  destruct (failed_load_is_final Example.StringToNumber Example.covering_brush
              Example.polite 0
              Example.page (Example.arguments_with (VNumber 50))
              Scenario.brush_missing Scenario.tries Brush Hfailed)
    as (_ & Hreg & _ & Hqueue & _).
  split; [exact Hfailed |]. split; [exact Hreg | exact Hqueue].
Defined.

(** X17 on an example: a number for the overlay's URL. *)
Lemma non_string_url_never_starts_witness :
  fst (ScratchIt Example.StringToNumber Example.page Scenario.arguments_without_overlay)
  = Return tt
  /\ registrations
       (trace
          (lifetime Example.StringToNumber Example.covering_brush Example.polite 0 Example.page
             Scenario.arguments_without_overlay
             [ImageLoaded Brush (Some Example.small_brush);
              PointerDown Example.press]))
     = 0%nat.
Proof.
  assert (Hreturns : fst (ScratchIt Example.StringToNumber Example.page
                            Scenario.arguments_without_overlay) = Return tt)
    by reflexivity.
  split; [exact Hreturns |].
  destruct (non_string_url_never_starts Example.StringToNumber Example.covering_brush
              Example.polite 0 Example.page Scenario.arguments_without_overlay
              [ImageLoaded Brush (Some Example.small_brush); PointerDown Example.press]
              Overlay I Hreturns)
    as (_ & _ & Hreg & _).
  exact Hreg.
Defined.

End Binary64More.


(* ================================================================= *)
(** ** Facts about debounce *)

Module DebounceFacts.

Import Debounce.

Section Debounced.

Variable A : Type.
Variable wait : nat.

Lemma filter_other_id (t : Timer A) :
  filter (fun u : Timer A => negb (id u =? id t)%nat) [t] = [].
Proof. cbn. now rewrite Nat.eqb_refl. Qed.

(** A call replaces the pending timer, if there is one, by its own. *)
Lemma debounced_sets_timer (immediate : bool) (a : A) (c : Closure A) :
  one_timer wait c ->
  timers (debounced wait immediate a c)
  = [{| id := next_id c; due := now c + wait; args := a |}]
  /\ timeout (debounced wait immediate a c) = Id (next_id c)
  /\ now (debounced wait immediate a c) = now c
  /\ next_id (debounced wait immediate a c) = S (next_id c)
  /\ applied (debounced wait immediate a c)
     = applied c
       ++ (if immediate && negb (truthy (timeout c)) then [a] else []).
Proof.
  intros (Hnext & [(Hnone & _) | (t & Hone & Htimeout & Hid & Hdue)]);
    unfold debounced, setTimeout, assign, apply, clearTimeout.
  - destruct (timeout c) as [| | n]; cbn [timers next_id now applied timeout];
      rewrite ?Hnone; cbn [filter app];
      destruct (immediate && _); cbn; rewrite ?app_nil_r; auto.
  - rewrite Htimeout. cbn [timers next_id now applied timeout].
    rewrite Hone, filter_other_id. cbn [app].
    destruct (immediate && _); cbn; rewrite ?app_nil_r; auto.
Qed.

Lemma one_timer_debounced (immediate : bool) (a : A) (c : Closure A) :
  one_timer wait c -> one_timer wait (debounced wait immediate a c).
Proof.
  intros Hc. pose proof Hc as (Hnext & _).
  destruct (debounced_sets_timer immediate a c Hc) as (Ht & Hto & Hnow & Hid & _).
  split; [lia |]. right.
  exists {| id := next_id c; due := now c + wait; args := a |}.
  split; [exact Ht |]. split; [exact Hto |]. rewrite Hnow, Hid. cbn [id due]. lia.
Qed.

(** Time passes and the pending timer is not due. *)
Lemma elapse_early (immediate : bool) (ms : nat) (c : Closure A) (t : Timer A) :
  timers c = [t] -> (now c + ms < due t)%nat ->
  elapse immediate ms c
  = {| timeout := timeout c; timers := [t]; now := now c + ms;
       next_id := next_id c; applied := applied c |}.
Proof.
  intros Hone Hearly. unfold elapse. rewrite Hone. cbn [filter].
  rewrite (proj2 (Nat.leb_gt _ _)) by exact Hearly. cbn. now rewrite Hone.
Qed.

(** Time passes and the pending timer runs. *)
Lemma elapse_due (immediate : bool) (ms : nat) (c : Closure A) (t : Timer A) :
  timers c = [t] -> (due t <= now c + ms)%nat ->
  elapse immediate ms c
  = {| timeout := Null; timers := []; now := now c + ms;
       next_id := next_id c;
       applied := applied c ++ (if immediate then [] else [args t]) |}.
Proof.
  intros Hone Hdue. unfold elapse. rewrite Hone. cbn [filter].
  rewrite (proj2 (Nat.leb_le _ _)) by exact Hdue.
  cbn [fold_left]. unfold fire, later, assign, apply. cbn [timers].
  rewrite Hone, filter_other_id.
  destruct immediate; cbn; rewrite ?app_nil_r; reflexivity.
Qed.

Lemma elapse_idle (immediate : bool) (ms : nat) (c : Closure A) :
  timers c = [] ->
  elapse immediate ms c
  = {| timeout := timeout c; timers := []; now := now c + ms;
       next_id := next_id c; applied := applied c |}.
Proof. intros Hnone. unfold elapse. rewrite Hnone. cbn. now rewrite Hnone. Qed.

Lemma one_timer_elapse (immediate : bool) (ms : nat) (c : Closure A) :
  one_timer wait c -> one_timer wait (elapse immediate ms c).
Proof.
  intros (Hnext & [(Hnone & Hfalsy) | (t & Hone & Htimeout & Hid & Hdue)]).
  - rewrite (elapse_idle immediate ms c Hnone). split; [exact Hnext | now left].
  - destruct (Nat.le_gt_cases (due t) (now c + ms)) as [Hlate | Hearly].
    + rewrite (elapse_due immediate ms c t Hone Hlate). split; [exact Hnext | now left].
    + rewrite (elapse_early immediate ms c t Hone Hearly).
      split; [exact Hnext |]. right. exists t. cbn. repeat split; auto; lia.
Qed.

Lemma one_timer_drive (immediate : bool) (inputs : list (Stimulus A)) :
  forall c, one_timer wait c -> one_timer wait (drive wait immediate inputs c).
Proof.
  induction inputs as [| [a | ms] rest IH]; intros c Hc; cbn; [exact Hc | |];
    apply IH; [now apply one_timer_debounced | now apply one_timer_elapse].
Qed.

Lemma one_timer_created : one_timer wait (@created A).
Proof. split; [cbn; lia | now left]. Qed.

Lemma drive_app (immediate : bool) (first second : list (Stimulus A)) (c : Closure A) :
  drive wait immediate (first ++ second) c
  = drive wait immediate second (drive wait immediate first c).
Proof. apply fold_left_app. Qed.

(** A pause shorter than [wait] right after a call runs nothing. *)
Lemma call_then_short_pause (immediate : bool) (a : A) (ms : nat) (c : Closure A) :
  one_timer wait c -> (ms < wait)%nat ->
  elapse immediate ms (debounced wait immediate a c)
  = {| timeout := Id (next_id c);
       timers := [{| id := next_id c; due := now c + wait; args := a |}];
       now := now c + ms;
       next_id := S (next_id c);
       applied := applied c
                  ++ (if immediate && negb (truthy (timeout c)) then [a] else []) |}.
Proof.
  intros Hc Hms.
  destruct (debounced_sets_timer immediate a c Hc) as (Ht & Hto & Hnow & Hid & Happ).
  rewrite (elapse_early immediate ms _ _ Ht) by (rewrite Hnow; cbn [due]; lia).
  now rewrite Hto, Hnow, Hid, Happ.
Qed.

(** During a burst with the trailing edge nothing is applied. *)
Lemma burst_trailing (calls : list (A * nat)) :
  forall c, one_timer wait c -> rapid wait calls ->
  one_timer wait (drive wait false (burst calls) c)
  /\ applied (drive wait false (burst calls) c) = applied c.
Proof.
  induction calls as [| [a ms] rest IH]; intros c Hc Hrapid; [now split |].
  inversion Hrapid as [| call calls' Hms Hrest]; subst. cbn [fst snd] in Hms.
  change (drive wait false (burst ((a, ms) :: rest)) c)
    with (drive wait false (burst rest)
            (elapse false ms (debounced wait false a c))).
  destruct (IH (elapse false ms (debounced wait false a c))) as (Hinv & Happ).
  - now apply one_timer_elapse, one_timer_debounced.
  - exact Hrest.
  - split; [exact Hinv |]. rewrite Happ.
    rewrite (call_then_short_pause false a ms c Hc Hms). cbn. now rewrite app_nil_r.
Qed.

(** X11: the trailing edge, which the widget uses for [resize].  At any
    time in the life of the debounced function, a burst of calls, each
    less than [wait] after the one before, followed by [wait] or more
    without a call, applies [func] exactly once: not during the burst, not
    at its last call, but when the pause has lasted [wait], and with the
    arguments of the last call.  No timer is left. *)
Theorem debounce_applies_last_call_once (before : list (Stimulus A))
    (calls : list (A * nat)) (a : A) (ms : nat) :
  rapid wait calls -> (wait <= ms)%nat ->
  let c := drive wait false before (created) in
  applied (drive wait false (burst calls) c) = applied c
  /\ applied (drive wait false (burst calls ++ [Call a]) c) = applied c
  /\ applied (drive wait false (burst calls ++ [Call a; Elapse ms]) c)
     = applied c ++ [a]
  /\ timers (drive wait false (burst calls ++ [Call a; Elapse ms]) c) = [].
Proof.
  intros Hrapid Hms c.
  assert (Hc : one_timer wait c) by apply one_timer_drive, one_timer_created.
  destruct (burst_trailing calls c Hc Hrapid) as (Hinv & Happ).
  destruct (debounced_sets_timer false a _ Hinv) as (Ht & Hto & Hnow & Hid & Hcall).
  cbn [andb app] in Hcall. rewrite app_nil_r, Happ in Hcall.
  split; [exact Happ |]. rewrite !drive_app. split; [exact Hcall |].
  change (drive wait false [Call a; Elapse ms] (drive wait false (burst calls) c))
    with (elapse false ms (debounced wait false a (drive wait false (burst calls) c))).
  rewrite (elapse_due false ms _ _ Ht) by (rewrite Hnow; cbn [due]; lia).
  cbn [applied timers args]. now rewrite Hcall.
Qed.

(** During a burst with the leading edge, only a first call that finds no
    timer pending is applied. *)
Lemma burst_leading (calls : list (A * nat)) :
  forall c, one_timer wait c -> rapid wait calls ->
  one_timer wait (drive wait true (burst calls) c)
  /\ applied (drive wait true (burst calls) c)
     = applied c
       ++ match calls with
          | [] => []
          | (a, _) :: _ => if truthy (timeout c) then [] else [a]
          end
  /\ (calls <> [] -> truthy (timeout (drive wait true (burst calls) c)) = true).
Proof.
  induction calls as [| [a ms] rest IH]; intros c Hc Hrapid.
  - cbn. rewrite app_nil_r. repeat split; [apply Hc | apply Hc | congruence].
  - inversion Hrapid as [| call calls' Hms Hrest]; subst. cbn [fst snd] in Hms.
    change (drive wait true (burst ((a, ms) :: rest)) c)
      with (drive wait true (burst rest)
              (elapse true ms (debounced wait true a c))).
    assert (Hstep : one_timer wait (elapse true ms (debounced wait true a c)))
      by now apply one_timer_elapse, one_timer_debounced.
    destruct (IH _ Hstep Hrest) as (Hinv & Happ & Htruthy).
    pose proof (call_then_short_pause true a ms c Hc Hms) as Hpause.
    destruct Hc as (Hnext & _).
    split; [exact Hinv |]. split.
    + rewrite Happ, Hpause. cbn [applied timeout truthy andb].
      replace (negb (next_id c =? 0)%nat) with true
        by (symmetry; apply negb_true_iff, Nat.eqb_neq; lia).
      destruct rest as [| [b ms'] rest]; rewrite app_nil_r;
        destruct (truthy (timeout c)); reflexivity.
    + intros _. destruct rest as [| call rest].
      * cbn [burst flat_map drive fold_left]. rewrite Hpause. cbn [timeout truthy].
        apply negb_true_iff, Nat.eqb_neq. lia.
      * apply Htruthy. discriminate.
Qed.

(** X12: the leading edge.  With [immediate] set, a burst that starts
    with no timer pending applies [func] once, at its first call and with
    that call's arguments; the calls that follow within [wait] of one
    another are swallowed, and nothing is applied when the burst is over;
    after the pause the next call is a first call again. *)
Theorem debounce_immediate_applies_first_call (before : list (Stimulus A))
    (calls : list (A * nat)) (a : A) (ms : nat) :
  rapid wait calls -> (wait <= ms)%nat ->
  let c := drive wait true before (created) in
  let c' := drive wait true (burst calls ++ [Call a; Elapse ms]) c in
  timers c = [] ->
  applied c' = applied c ++ [hd a (map fst calls)]
  /\ timers c' = []
  /\ truthy (timeout c') = false.
Proof.
  intros Hrapid Hms c c' Hidle. subst c'.
  assert (Hc : one_timer wait c) by apply one_timer_drive, one_timer_created.
  assert (Hfalsy : truthy (timeout c) = false).
  { destruct Hc as (_ & [(_ & Hfalsy) | (t & Hone & _)]); [exact Hfalsy |].
    rewrite Hone in Hidle. discriminate. }
  destruct (burst_leading calls c Hc Hrapid) as (Hinv & Happ & Htruthy).
  destruct (debounced_sets_timer true a _ Hinv) as (Ht & Hto & Hnow & Hid & Hcall).
  rewrite !drive_app.
  change (drive wait true [Call a; Elapse ms] (drive wait true (burst calls) c))
    with (elapse true ms (debounced wait true a (drive wait true (burst calls) c))).
  rewrite (elapse_due true ms _ _ Ht) by (rewrite Hnow; cbn [due]; lia).
  cbn [applied timers timeout truthy]. rewrite app_nil_r, Hcall, Happ.
  split; [| split; reflexivity].
  destruct calls as [| [b ms'] rest].
  - cbn [andb map hd]. rewrite app_nil_r.
    change (drive wait true (burst []) c) with c. now rewrite Hfalsy.
  - rewrite Htruthy by discriminate. rewrite Hfalsy. cbn. now rewrite app_nil_r.
Qed.

Lemma calls_in_snoc (inputs : list (Stimulus A)) (i : Stimulus A) :
  calls_in (inputs ++ [i])
  = (calls_in inputs + match i with Call _ => 1 | Elapse _ => 0 end)%nat.
Proof.
  unfold calls_in. rewrite filter_app, length_app. destruct i; cbn; lia.
Qed.

Lemma timers_bound (c : Closure A) :
  one_timer wait c -> (List.length (timers c) <= 1)%nat.
Proof.
  intros (_ & [(Hnone & _) | (t & Hone & _)]); [rewrite Hnone | rewrite Hone]; cbn; lia.
Qed.

(** Every application answers a call of its own. *)
Lemma applied_bound (immediate : bool) (inputs : list (Stimulus A)) :
  one_timer wait (drive wait immediate inputs (created))
  /\ (List.length (applied (drive wait immediate inputs (created)))
      + (if immediate then 0
         else List.length (timers (drive wait immediate inputs (created))))
      <= calls_in inputs)%nat.
Proof.
  induction inputs as [| i inputs IH] using rev_ind.
  - split; [apply one_timer_created | destruct immediate; cbn; lia].
  - destruct IH as (Hinv & Hbound). rewrite drive_app, calls_in_snoc.
    set (c := drive wait immediate inputs (created)) in *.
    pose proof (timers_bound c Hinv) as Hone.
    destruct i as [a | ms]; cbn [drive fold_left step].
    + split; [now apply one_timer_debounced |].
      destruct (debounced_sets_timer immediate a c Hinv) as (Ht & _ & _ & _ & Happ).
      rewrite Happ, Ht, length_app.
      destruct immediate; cbn [andb]; [destruct (negb _) |]; cbn [List.length]; lia.
    + split; [now apply one_timer_elapse |]. rewrite Nat.add_0_r.
      destruct Hinv as (Hnext & [(Hnone & _) | (t & Htimer & _)]).
      * rewrite (elapse_idle immediate ms c Hnone). cbn [applied timers].
        rewrite Hnone in Hbound. exact Hbound.
      * destruct (Nat.le_gt_cases (due t) (now c + ms)) as [Hlate | Hearly].
        -- rewrite (elapse_due immediate ms c t Htimer Hlate). cbn [applied timers].
           rewrite Htimer in Hbound. rewrite length_app.
           destruct immediate; cbn [List.length] in *; lia.
        -- rewrite (elapse_early immediate ms c t Htimer Hearly). cbn [applied timers].
           rewrite Htimer in Hbound. exact Hbound.
Qed.

(** X13: whatever the calls and the pauses, the debounced function keeps
    at most one timer pending (each call clears the timer of the call
    before), and [func] is applied at most once per call made, a pending
    trailing call included. *)
Theorem debounce_keeps_one_timer (immediate : bool) (inputs : list (Stimulus A)) :
  let c := drive wait immediate inputs (created) in
  (List.length (timers c) <= 1)%nat
  /\ (List.length (applied c)
      + (if immediate then 0 else List.length (timers c))
      <= calls_in inputs)%nat.
Proof.
  intros c. destruct (applied_bound immediate inputs) as (Hinv & Hbound).
  split; [now apply timers_bound | exact Hbound].
Qed.

End Debounced.

(** X11 on an example: ten [resize] events within two hundred
    milliseconds, then quiet; the handler runs once, with the last one. *)
Lemma debounce_applies_last_call_once_witness :
  rapid Scenario.resize_wait Scenario.resizes
  /\ applied (drive Scenario.resize_wait false
                (burst Scenario.resizes ++ [Call Scenario.last_resize])
                created) = []
  /\ applied (drive Scenario.resize_wait false
                (burst Scenario.resizes
                 ++ [Call Scenario.last_resize; Elapse Scenario.resize_wait])
                created) = [Scenario.last_resize].
Proof.
  assert (Hrapid : rapid Scenario.resize_wait Scenario.resizes).
  { unfold rapid, Scenario.resizes, Scenario.resize_wait.
    repeat (apply Forall_cons; [cbn; lia |]). apply Forall_nil. }
  destruct (debounce_applies_last_call_once nat Scenario.resize_wait []
              Scenario.resizes Scenario.last_resize Scenario.resize_wait
              Hrapid (le_n _))
    as (_ & Hduring & Hafter & _).
  split; [exact Hrapid |]. split; [exact Hduring | exact Hafter].
Defined.

(** X12 on an example: the same events with the leading edge; the handler
    runs once, with the first one. *)
Lemma debounce_immediate_applies_first_call_witness :
  applied (drive Scenario.resize_wait true
             (burst Scenario.resizes
              ++ [Call Scenario.last_resize; Elapse Scenario.resize_wait])
             created) = [980%nat].
Proof.
  assert (Hrapid : rapid Scenario.resize_wait Scenario.resizes).
  { unfold rapid, Scenario.resizes, Scenario.resize_wait.
    repeat (apply Forall_cons; [cbn; lia |]). apply Forall_nil. }
  destruct (debounce_immediate_applies_first_call nat Scenario.resize_wait []
              Scenario.resizes Scenario.last_resize Scenario.resize_wait
              Hrapid (le_n _) eq_refl)
    as (Hfirst & _).
  exact Hfirst.
Defined.

End DebounceFacts.
